(** * git-rewrite-commits: the rewrite pipeline of [GitCommitRewriter]

    A shallow embedding of [src/index.ts] (class [GitCommitRewriter]):
    the quality rubric, commit enumeration, the per-commit generation pass,
    the ordered message list and the [git filter-branch] application step,
    together with the properties the specification states about them.

    Conventions.
    - A JavaScript string is a [string]: a sequence of code units, here the
      units below 256.  Whitespace, line terminators and letter case are
      those of JavaScript on that range.
    - A JavaScript number that the program only uses as a count or a
      threshold is a [Z].
    - Everything outside the class (git, the file system, the console, the
      user at the prompt, the text-generation service) is an explicit
      environment [env] and an explicit mutable [world]; a method of the
      class is a function [world -> result A * world]. *)

From Stdlib Require Import ZArith Lia Ascii String List Bool.
From stdpp Require Import base tactics option list gmap strings.

Local Open Scope string_scope.
Local Open Scope Z_scope.

(* stdpp freezes [String.append]; the proofs below compute with it. *)
#[local] Arguments String.append !s1 s2 : simpl nomatch.

(** ** JavaScript strings *)

Module JS.

Definition code (c : ascii) : N := N_of_ascii c.

(** [WhiteSpace] and [LineTerminator] code units below 256: TAB, LF, VT,
    FF, CR, SP and NBSP.  These are what [String.prototype.trim] strips. *)
Definition isWhiteSpace (c : ascii) : bool :=
  let n := code c in
  ((9 <=? n) && (n <=? 13) || (n =? 32) || (n =? 160))%N.

(** A line terminator: what [.] in a regular expression refuses. *)
Definition isLineTerminator (c : ascii) : bool :=
  let n := code c in ((n =? 10) || (n =? 13))%N.

Definition isLowerAZ (c : ascii) : bool :=
  let n := code c in ((97 <=? n) && (n <=? 122))%N.

Fixpoint trimStart (s : string) : string :=
  match s with
  | String c rest => if isWhiteSpace c then trimStart rest else s
  | EmptyString => EmptyString
  end.

(** [trimEnd]: a unit is kept when it is not whitespace or when
    something is kept after it. *)
Fixpoint trimEnd (s : string) : string :=
  match s with
  | EmptyString => EmptyString
  | String c rest =>
      match trimEnd rest with
      | EmptyString => if isWhiteSpace c then EmptyString else String c EmptyString
      | kept => String c kept
      end
  end.

Definition trim (s : string) : string := trimEnd (trimStart s).

(** [s.split('\n')]: never empty, [''.split('\n')] is [['']]. *)
Fixpoint splitLines (s : string) : list string :=
  match s with
  | EmptyString => [EmptyString]
  | String c rest =>
      if (code c =? 10)%N then EmptyString :: splitLines rest
      else match splitLines rest with
           | l :: ls => String c l :: ls
           | [] => [String c EmptyString]
           end
  end.

(** A string is truthy when it is not empty. *)
Definition truthy (s : string) : bool :=
  match s with EmptyString => false | _ => true end.

(** [xs.filter(Boolean)] on an array of strings. *)
Definition filterBoolean (xs : list string) : list string :=
  List.filter truthy xs.

(** [xs.join(sep)]. *)
Fixpoint join (sep : string) (xs : list string) : string :=
  match xs with
  | [] => EmptyString
  | [x] => x
  | x :: rest => x ++ sep ++ join sep rest
  end.

Definition lowerUnit (c : ascii) : ascii :=
  let n := code c in
  if ((65 <=? n) && (n <=? 90) ||
      (192 <=? n) && (n <=? 222) && negb (n =? 215))%N
  then ascii_of_N (n + 32) else c.

Fixpoint toLowerCase (s : string) : string :=
  match s with
  | EmptyString => EmptyString
  | String c rest => String (lowerUnit c) (toLowerCase rest)
  end.

Fixpoint lastUnit (s : string) : option ascii :=
  match s with
  | EmptyString => None
  | String c EmptyString => Some c
  | String _ rest => lastUnit rest
  end.

(** [s.endsWith(c)] for a one-unit string [c]. *)
Definition endsWithUnit (c : ascii) (s : string) : bool :=
  match lastUnit s with
  | Some d => (code d =? code c)%N
  | None => false
  end.

Definition length (s : string) : Z := Z.of_nat (String.length s).

(** [s.substring(0, n)] *)
Definition substring0 (n : Z) (s : string) : string :=
  String.substring 0 (Z.to_nat n) s.

(** [xs.slice(start)] for [0 <= start]. *)
Definition slice {A} (start : nat) (xs : list A) : list A := drop start xs.

(** If [p] is a prefix of [s], what follows it. *)
Fixpoint stripPrefix (p s : string) : option string :=
  match p, s with
  | EmptyString, _ => Some s
  | String a p', String b s' =>
      if (code a =? code b)%N then stripPrefix p' s' else None
  | String _ _, EmptyString => None
  end.

End JS.

(** ** Regular expressions

    The fragment the two patterns of [assessCommitQuality] use, matched by
    backtracking with a continuation, anchored at the start of the input
    (both patterns begin with [^] and neither has a flag). *)

Module Regex.

Inductive regex : Type :=
| Lit (s : string)                 (* a literal text *)
| Class (p : ascii -> bool)        (* one unit of a class *)
| Plus (p : ascii -> bool)         (* [class+], greedy *)
| Seq (r1 r2 : regex)
| Alt (r1 r2 : regex)              (* r1|r2, r1 tried first *)
| Opt (r : regex).                 (* r?, greedy *)

Fixpoint plusClass (p : ascii -> bool) (s : string) (k : string -> bool) : bool :=
  match s with
  | EmptyString => false
  | String c rest => p c && (plusClass p rest k || k rest)
  end.

Fixpoint run (r : regex) (s : string) (k : string -> bool) : bool :=
  match r with
  | Lit l => match JS.stripPrefix l s with Some rest => k rest | None => false end
  | Class p => match s with String c rest => p c && k rest | EmptyString => false end
  | Plus p => plusClass p s k
  | Seq r1 r2 => run r1 s (fun rest => run r2 rest k)
  | Alt r1 r2 => run r1 s k || run r2 s k
  | Opt r1 => run r1 s k || k s
  end.

(** [/^r/.test(s)] *)
Definition test (r : regex) (s : string) : bool := run r s (fun _ => true).

Fixpoint alts (ws : list string) : regex :=
  match ws with
  | [] => Class (fun _ => false)
  | [w] => Lit w
  | w :: rest => Alt (Lit w) (alts rest)
  end.

(** [.]: any unit but a line terminator. *)
Definition dot : ascii -> bool := fun c => negb (JS.isLineTerminator c).

End Regex.

(** ** Options and the constructor *)

(** A property of an options object literal: it may be missing, present
    with the value [undefined], or present with a value.  Object spread
    copies the last two and skips the first. *)
Inductive property (A : Type) : Type :=
| Absent
| Undefined
| Value (a : A).
Arguments Absent {A}.
Arguments Undefined {A}.
Arguments Value {A} a.

(** [interface RewriteOptions], as a caller writes it. *)
Record RewriteOptions : Type := mkRewriteOptions {
  apiKey : property string;
  model : property string;
  branch : property string;
  dryRun : property bool;
  verbose : property bool;
  maxCommits : property Z;
  skipBackup : property bool;
  skipWellFormed : property bool;
  minQualityScore : property Z
}.

(** [this.options]: every property read gives [undefined] ([None]) or a
    value. *)
Record Options : Type := mkOptions {
  o_apiKey : option string;
  o_model : option string;
  o_branch : option string;
  o_dryRun : option bool;
  o_verbose : option bool;
  o_maxCommits : option Z;
  o_skipBackup : option bool;
  o_skipWellFormed : option bool;
  o_minQualityScore : option Z
}.

(** [{ key: dflt, ...options }.key] *)
Definition spreadOver {A} (dflt : option A) (p : property A) : option A :=
  match p with
  | Absent => dflt
  | Undefined => None
  | Value a => Some a
  end.

Definition truthyBool (b : option bool) : bool :=
  match b with Some true => true | _ => false end.

Definition truthyNum (n : option Z) : bool :=
  match n with Some z => negb (z =? 0) | None => false end.

Definition truthyStr (s : option string) : bool :=
  match s with Some t => JS.truthy t | None => false end.

(** [a || b] on numbers, [b] a number. *)
Definition orNum (a : option Z) (b : Z) : Z :=
  match a with
  | Some z => if z =? 0 then b else z
  | None => b
  end.

Definition orStr (a : option string) (b : string) : string :=
  match a with
  | Some s => if JS.truthy s then s else b
  | None => b
  end.

(** The git commands the class runs through [execCommand]. *)
Inductive command : Type :=
| GitRevParseGitDir                      (* git rev-parse --git-dir *)
| GitStatusPorcelain                     (* git status --porcelain *)
| GitRevParseAbbrevRefHead               (* git rev-parse --abbrev-ref HEAD *)
| GitRevListReverseHead                  (* git rev-list --reverse HEAD *)
| GitLogSubject (hash : string)          (* git log -1 --format=%s hash *)
| GitDiffTreeNameOnly (hash : string)    (* git diff-tree --no-commit-id --name-only -r hash *)
| GitDiffTreeEmptyTree (hash : string)   (* git diff-tree --no-commit-id -p 4b825dc... hash *)
| GitDiffTreeParent (hash : string)      (* git diff-tree --no-commit-id -p hash^..hash *)
| GitBranch (name : string)              (* git branch name *)
| GitLogBody (hash : string)             (* git log -1 --format=%B hash *)
| GitFilterBranch (script : string).     (* git filter-branch -f --msg-filter 'node script' HEAD *)

Inductive error : Type :=
| Error (message : string)
| CommandFailed (cmd : command) (detail : string).  (* Command failed: cmd \n detail *)

(** [constructor(options)]; [envKey] is [process.env.OPENAI_API_KEY].
    The OpenAI client it creates is the provider of the environment
    below. *)
Definition constructor (envKey : option string) (options : RewriteOptions)
  : error + Options :=
  let key := if truthyStr (spreadOver None (apiKey options))
             then spreadOver None (apiKey options) else envKey in
  if negb (truthyStr key) then
    inl (Error "OpenAI API key is required. Set OPENAI_API_KEY environment variable or pass it as an option.")
  else
    inr {| o_apiKey := spreadOver None (apiKey options);
           o_model := spreadOver (Some "gpt-3.5-turbo") (model options);
           o_branch := spreadOver None (branch options);
           o_dryRun := spreadOver (Some false) (dryRun options);
           o_verbose := spreadOver (Some false) (verbose options);
           o_maxCommits := spreadOver None (maxCommits options);
           o_skipBackup := spreadOver (Some false) (skipBackup options);
           o_skipWellFormed := spreadOver (Some true) (skipWellFormed options);
           o_minQualityScore := spreadOver (Some 7) (minQualityScore options) |}.

Definition withMinQualityScore (t : option Z) (o : Options) : Options :=
  {| o_apiKey := o_apiKey o; o_model := o_model o; o_branch := o_branch o;
     o_dryRun := o_dryRun o; o_verbose := o_verbose o;
     o_maxCommits := o_maxCommits o; o_skipBackup := o_skipBackup o;
     o_skipWellFormed := o_skipWellFormed o; o_minQualityScore := t |}.

Definition withMaxCommits (n : option Z) (o : Options) : Options :=
  {| o_apiKey := o_apiKey o; o_model := o_model o; o_branch := o_branch o;
     o_dryRun := o_dryRun o; o_verbose := o_verbose o;
     o_maxCommits := n; o_skipBackup := o_skipBackup o;
     o_skipWellFormed := o_skipWellFormed o;
     o_minQualityScore := o_minQualityScore o |}.

(** ** The quality rubric: [assessCommitQuality] *)

Record Quality : Type := mkQuality {
  score : Z;
  isWellFormed : bool;
  reason : string
}.

Definition commitTypes : list string :=
  ["feat"; "fix"; "docs"; "style"; "refactor"; "test"; "chore"; "perf";
   "ci"; "build"; "revert"].

Definition notCloseParen (c : ascii) : bool := negb (JS.code c =? 41)%N.

(** [(\([^)]+\))] *)
Definition scopeGroup : Regex.regex :=
  Regex.Seq (Regex.Lit "(") (Regex.Seq (Regex.Plus notCloseParen) (Regex.Lit ")")).

(** [/^(feat|fix|...|revert)(\([^)]+\))?: .+/] *)
Definition conventionalPattern : Regex.regex :=
  Regex.Seq (Regex.alts commitTypes)
    (Regex.Seq (Regex.Opt scopeGroup)
       (Regex.Seq (Regex.Lit ": ") (Regex.Plus Regex.dot))).

(** [/^(feat|fix|...|revert)?(\([^)]+\))?: [a-z]/] *)
Definition presentTensePattern : Regex.regex :=
  Regex.Seq (Regex.Opt (Regex.alts commitTypes))
    (Regex.Seq (Regex.Opt scopeGroup)
       (Regex.Seq (Regex.Lit ": ") (Regex.Class JS.isLowerAZ))).

Definition genericMessages : list string :=
  ["update"; "fix"; "change"; "modify"; "commit"; "initial"; "test"; "wip"].

Definition isGenericMessage (message : string) : bool :=
  existsb (fun generic =>
             String.eqb (JS.toLowerCase message) generic
             || String.eqb (JS.toLowerCase message) (generic ++ ".")
             || String.eqb (JS.toLowerCase message) (generic ++ " commit"))
          genericMessages.

Definition firstLineOf (message : string) : string :=
  hd EmptyString (JS.splitLines message).

(** The five checks, each giving the points it adds and the tag it
    pushes (if any), in the order the method runs them. *)
Definition checkConventional (message : string) : Z * list string :=
  if Regex.test conventionalPattern message
  then (4, ["follows conventional format"]) else (0, []).

Definition checkLength (message : string) : Z * list string :=
  let firstLine := firstLineOf message in
  if (JS.length firstLine >=? 10) && (JS.length firstLine <=? 72)
  then (2, ["appropriate length"])
  else if JS.length firstLine <? 10 then (0, ["too short"])
  else (0, ["too long"]).

Definition checkDescriptive (message : string) : Z * list string :=
  if negb (isGenericMessage message) then (2, ["descriptive"])
  else (0, ["too generic"]).

Definition checkPresentTense (message : string) : Z * list string :=
  if Regex.test presentTensePattern message
  then (1, ["uses present tense"]) else (0, []).

Definition checkNoTrailingPeriod (message : string) : Z * list string :=
  if negb (JS.endsWithUnit "." (firstLineOf message))
  then (1, ["no trailing period"]) else (0, []).

Definition rubric : list (string -> Z * list string) :=
  [checkConventional; checkLength; checkDescriptive; checkPresentTense;
   checkNoTrailingPeriod].

Definition assessCommitQuality (this : Options) (message : string) : Quality :=
  let '(score, reasons) :=
    fold_left (fun '(score, reasons) check =>
                 let '(points, tags) := check message in
                 (score + points, (reasons ++ tags)%list))
              rubric (0, []) in
  {| score := score;
     isWellFormed := score >=? orNum (o_minQualityScore this) 7;
     reason := JS.join ", " reasons |}.

(** ** The environment and the world *)

Record commit : Type := mkCommit {
  c_hash : string;
  c_message : string;        (* the raw message, subject and body *)
  c_files : list string;     (* paths changed against the parent *)
  c_diff : string;           (* patch against the parent *)
  c_diffRoot : string        (* patch against the empty tree *)
}.

(** A call of [openai.chat.completions.create]. *)
Record request : Type := mkRequest {
  r_model : string;
  r_system : string;
  r_prompt : string
}.

Inductive response : Type :=
| Rejected (message : string)             (* the call throws *)
| Malformed                               (* no [choices]: reading [choices[0]] throws *)
| Completion (choices : list (option string)).  (* choices[i]?.message?.content *)

Inductive file : Type :=
| JsonStrings (xs : list string)          (* JSON.stringify of an array of strings *)
| Number (n : nat)                        (* String(n) *)
| FilterScript (mappingFile counterFile : string).

Inductive event : Type :=
| Banner
| CurrentBranch (name : string)
| UncommittedWarning
| Asked (question : string)
| Found (n : nat)
| NoCommitsFound
| HistoryWarning
| OperationCancelled
| BackupCreated (name : string)
| Generating
| AlreadyWellFormed (hash : string) (score : Z) (reason : string)
| ProcessingCommit (hash message : string) (needs : option string)
| GenerationError (message : error)
| Improved (hash newMessage : string)
| KeepingOriginal (hash : string)
| Sleep (ms : Z)
| ErrorProcessing (hash : string) (e : error)
| Saved (n : nat)
| Summary (total : nat) (skipped : option nat) (improved changed : nat)
| AllWellFormed
| NoMessagesToChange
| DryRunCompleted
| RewriteCancelled
| RestoreFrom (backup : string)
| RewritingHistory
| Success (backup : option string)
| ErrorRewriting (e : error).

(** What the run does not control. *)
Record env : Type := mkEnv {
  e_isRepository : bool;
  e_branchName : string;                  (* the branch HEAD is on *)
  e_status : string;                      (* output of git status --porcelain *)
  e_now : string;                         (* Date.now(), printed *)
  e_subject : string -> string;           (* git's %s of a raw message *)
  e_rehash : string -> string -> string;  (* id of a commit rewritten with a message *)
  e_breaks : nat -> command -> bool;      (* the n-th command run fails to execute *)
  e_provider : nat -> request -> response;(* the answer to the n-th request *)
  e_answer : nat -> string                (* what the user types at the n-th prompt *)
}.

Record world : Type := mkWorld {
  w_history : list commit;       (* the commits reachable from HEAD, oldest first *)
  w_branches : list string;      (* the branches created *)
  w_fs : gmap string file;       (* the files the class itself writes, reads and removes
                                    with fs; git's own files (objects, refs, logs) are
                                    not among them: of git's data the world has the
                                    history and the branches *)
  w_trace : list event;          (* console output, prompts and pauses, oldest first *)
  w_commands : nat;              (* commands run so far *)
  w_requests : nat;              (* provider requests so far *)
  w_questions : nat              (* prompts so far *)
}.

Definition setHistory (h : list commit) (w : world) : world :=
  mkWorld h (w_branches w) (w_fs w) (w_trace w) (w_commands w) (w_requests w) (w_questions w).
Definition setBranches (b : list string) (w : world) : world :=
  mkWorld (w_history w) b (w_fs w) (w_trace w) (w_commands w) (w_requests w) (w_questions w).
Definition setFs (f : gmap string file) (w : world) : world :=
  mkWorld (w_history w) (w_branches w) f (w_trace w) (w_commands w) (w_requests w) (w_questions w).
Definition setTrace (t : list event) (w : world) : world :=
  mkWorld (w_history w) (w_branches w) (w_fs w) t (w_commands w) (w_requests w) (w_questions w).
Definition setCommands (n : nat) (w : world) : world :=
  mkWorld (w_history w) (w_branches w) (w_fs w) (w_trace w) n (w_requests w) (w_questions w).
Definition setRequests (n : nat) (w : world) : world :=
  mkWorld (w_history w) (w_branches w) (w_fs w) (w_trace w) (w_commands w) n (w_questions w).
Definition setQuestions (n : nat) (w : world) : world :=
  mkWorld (w_history w) (w_branches w) (w_fs w) (w_trace w) (w_commands w) (w_requests w) n.

(** ** The monad of the methods *)

Inductive result (A : Type) : Type :=
| Ok (a : A)
| Throw (e : error)
| Exit (code : Z).           (* process.exit(code) *)
Arguments Ok {A} a.
Arguments Throw {A} e.
Arguments Exit {A} code.

Definition M (A : Type) : Type := world -> result A * world.

Definition ret {A} (a : A) : M A := fun w => (Ok a, w).

Definition bind {A B} (m : M A) (f : A -> M B) : M B := fun w =>
  match m w with
  | (Ok a, w') => f a w'
  | (Throw e, w') => (Throw e, w')
  | (Exit c, w') => (Exit c, w')
  end.

Definition throw {A} (e : error) : M A := fun w => (Throw e, w).
Definition exit {A} (code : Z) : M A := fun w => (Exit code, w).

(** [try { m } catch (e) { handler e }] *)
Definition tryCatch {A} (m : M A) (handler : error -> M A) : M A := fun w =>
  match m w with
  | (Throw e, w') => handler e w'
  | other => other
  end.

(** [try { m } finally { cleanup }]; an error of [cleanup] replaces the
    pending one. *)
Definition tryFinally {A} (m : M A) (cleanup : M unit) : M A := fun w =>
  match m w with
  | (Ok a, w') => bind cleanup (fun _ => ret a) w'
  | (Throw e, w') => bind cleanup (fun _ => throw e) w'
  | (Exit c, w') => (Exit c, w')
  end.

Declare Scope M_scope.
Delimit Scope M_scope with M.
Notation "x <- m ;; k" := (bind m (fun x => k))
  (at level 100, m at next level, right associativity) : M_scope.
Notation "m ;;; k" := (bind m (fun _ => k))
  (at level 100, right associativity) : M_scope.
Local Open Scope M_scope.

Definition when (b : bool) (m : M unit) : M unit := if b then m else ret tt.

(** Console output, and the other things an observer sees. *)
Definition emit (ev : event) : M unit := fun w =>
  (Ok tt, setTrace (w_trace w ++ [ev])%list w).

Definition existsSync (path : string) : M bool := fun w =>
  (Ok (bool_decide (is_Some (w_fs w !! path))), w).

Definition writeFileSync (path : string) (content : file) : M unit := fun w =>
  (Ok tt, setFs (<[path := content]> (w_fs w)) w).

Definition unlinkSync (path : string) : M unit := fun w =>
  match w_fs w !! path with
  | Some _ => (Ok tt, setFs (delete path (w_fs w)) w)
  | None => (Throw (Error "ENOENT: no such file or directory"), w)
  end.

(** ** Git, as the class uses it *)

Definition newline : string := String "010" EmptyString.

(** One item per line, each line ended by a newline. *)
Definition unlines (xs : list string) : string :=
  fold_right (fun x acc => x ++ newline ++ acc) EmptyString xs.

Definition findCommit (hash : string) (history : list commit) : option commit :=
  List.find (fun c => String.eqb (c_hash c) hash) history.

Definition isRoot (hash : string) (history : list commit) : bool :=
  match history with
  | c :: _ => String.eqb (c_hash c) hash
  | [] => false
  end.

Definition unknownRevision {A} : result A :=
  Throw (Error "fatal: bad revision").

(** [node filterScript], the script [rewriteHistory] writes, run on the
    original message [stdin]: read the messages and the counter, store
    the counter plus one, print [messages[counter]], or the trimmed
    original when that is empty or missing. *)
Definition runFilterScript (script : string) (stdin : string) : M string := fun w =>
  match w_fs w !! script with
  | Some (FilterScript mappingFile counterFile) =>
      match w_fs w !! mappingFile, w_fs w !! counterFile with
      | Some (JsonStrings messages), Some (Number counter) =>
          let newMessage := messages !! counter in
          let w' := setFs (<[counterFile := Number (S counter)]> (w_fs w)) w in
          match newMessage with
          | Some m => if JS.truthy m then (Ok m, w') else (Ok (JS.trim stdin), w')
          | None => (Ok (JS.trim stdin), w')
          end
      | _, _ => (Throw (Error "msg filter failed"), w)
      end
  | _ => (Throw (Error "msg filter failed"), w)
  end.

(** A commit given a new message: its id changes when the message or an
    ancestor changed. *)
Definition recommit (E : env) (ancestorChanged : bool) (c : commit) (message : string)
  : commit * bool :=
  let changed := ancestorChanged || negb (String.eqb message (c_message c)) in
  (mkCommit (if changed then e_rehash E (c_hash c) message else c_hash c)
            message (c_files c) (c_diff c) (c_diffRoot c),
   changed).

(** [git filter-branch --msg-filter] walks the commits oldest first and
    runs the filter once on each. *)
Fixpoint filterBranchWalk (E : env) (script : string) (ancestorChanged : bool)
    (cs : list commit) : M (list commit) :=
  match cs with
  | [] => ret []
  | c :: rest =>
      message <- runFilterScript script (c_message c) ;;
      let '(c', changed) := recommit E ancestorChanged c message in
      rest' <- filterBranchWalk E script changed rest ;;
      ret (c' :: rest')
  end.

(** What a command does and prints when it runs.  Of what git stores
    the commits reachable from HEAD and the branches are modelled; the
    files git keeps for them under [.git] are not part of [w_fs]. *)
Definition git (E : env) (cmd : command) : M string := fun w =>
  let onCommit hash (k : commit -> result string) :=
    match findCommit hash (w_history w) with
    | Some c => (k c, w)
    | None => (unknownRevision, w)
    end in
  match cmd with
  | GitRevParseGitDir =>
      if e_isRepository E then (Ok (".git" ++ newline), w)
      else (Throw (Error "fatal: not a git repository"), w)
  | GitStatusPorcelain => (Ok (e_status E), w)
  | GitRevParseAbbrevRefHead => (Ok (e_branchName E ++ newline), w)
  | GitRevListReverseHead => (Ok (unlines (map c_hash (w_history w))), w)
  | GitLogSubject hash => onCommit hash (fun c => Ok (e_subject E (c_message c) ++ newline))
  | GitDiffTreeNameOnly hash =>
      (* without --root nothing is printed for a commit that has no parent *)
      onCommit hash (fun c => Ok (if isRoot hash (w_history w) then EmptyString
                                  else unlines (c_files c)))
  | GitDiffTreeEmptyTree hash => onCommit hash (fun c => Ok (c_diffRoot c))
  | GitDiffTreeParent hash =>
      if isRoot hash (w_history w) then (unknownRevision, w)
      else onCommit hash (fun c => Ok (c_diff c))
  | GitBranch name =>
      if bool_decide (name ∈ w_branches w)
      then (Throw (Error "fatal: a branch with that name already exists"), w)
      else (Ok EmptyString, setBranches (w_branches w ++ [name])%list w)
  | GitLogBody hash => onCommit hash (fun c => Ok (c_message c ++ newline))
  | GitFilterBranch script =>
      match filterBranchWalk E script false (w_history w) w with
      | (Ok rewritten, w') => (Ok EmptyString, setHistory rewritten w')
      | (Throw e, w') => (Throw e, w')
      | (Exit c, w') => (Exit c, w')
      end
  end.

(** ** The methods of [GitCommitRewriter] *)

Section Methods.

Variable E : env.
Variable this : Options.

(** [execCommand]: any failure of the child process is rethrown as
    [Command failed]. *)
Definition execCommand (cmd : command) : M string := fun w =>
  let n := w_commands w in
  let w := setCommands (S n) w in
  if e_breaks E n cmd then (Throw (CommandFailed cmd "spawnSync ENOBUFS"), w)
  else tryCatch (git E cmd)
         (fun e => throw (CommandFailed cmd
                            match e with Error m => m | CommandFailed _ m => m end)) w.

Definition askConfirmation (question : string) : M bool := fun w =>
  let answer := e_answer E (w_questions w) in
  (Ok (String.eqb (JS.toLowerCase answer) "y" || String.eqb (JS.toLowerCase answer) "yes"),
   setQuestions (S (w_questions w)) (setTrace (w_trace w ++ [Asked question])%list w)).

Definition checkGitRepository : M unit :=
  tryCatch (execCommand GitRevParseGitDir ;;; ret tt)
           (fun _ => throw (Error "Not a git repository!")).

Definition checkUncommittedChanges : M string :=
  execCommand GitStatusPorcelain.

Definition getCurrentBranch : M string :=
  out <- execCommand GitRevParseAbbrevRefHead ;; ret (JS.trim out).

(** The selection [getCommits] makes among the ids it has read. *)
Definition limitCommits (commits : list string) : list string :=
  if truthyNum (o_maxCommits this) && (default 0 (o_maxCommits this) >? 0) then
    (* Get the last N commits instead of first N *)
    let startIndex :=
      Z.max 0 (Z.of_nat (List.length commits) - default 0 (o_maxCommits this)) in
    JS.slice (Z.to_nat startIndex) commits
  else commits.

Definition getCommits : M (list string) :=
  out <- execCommand GitRevListReverseHead ;;
  let commits := JS.filterBoolean (JS.splitLines (JS.trim out)) in
  ret (limitCommits commits).

Record CommitInfo : Type := mkCommitInfo {
  ci_hash : string;
  ci_message : string;
  ci_files : list string;
  ci_diff : string
}.

Definition getCommitInfo (hash : string) (index : nat) : M CommitInfo :=
  out <- execCommand (GitLogSubject hash) ;;
  let oldMessage := JS.trim out in
  out <- execCommand (GitDiffTreeNameOnly hash) ;;
  let files := JS.filterBoolean (JS.splitLines (JS.trim out)) in
  diff <- (if (index =? 0)%nat
           then (* First commit - compare with empty tree *)
                execCommand (GitDiffTreeEmptyTree hash)
           else (* Regular commit - compare with parent *)
                execCommand (GitDiffTreeParent hash)) ;;
  ret (mkCommitInfo hash oldMessage files diff).

Definition dquote : string := String "034" EmptyString.

Definition systemContent : string :=
  "You are a helpful assistant that generates clear, conventional git commit messages.".

Definition buildPrompt (diff : string) (files : list string) (oldMessage : string) : string :=
  "You are a git commit message generator. Analyze the following git diff and file changes, then generate a clear, concise commit message following conventional commit standards.

Old commit message: " ++ dquote ++ oldMessage ++ dquote ++ "

Files changed:
" ++ JS.join newline files ++ "

Git diff (truncated if too long):
" ++ JS.substring0 8000 diff ++ "

Generate a commit message that:
1. Follows the format: <type>(<scope>): <subject>
2. Types can be: feat, fix, docs, style, refactor, test, chore, perf, ci, build, revert
3. Scope is optional but recommended (e.g., auth, api, ui)
4. Subject should be clear and descriptive
5. Be concise but informative
6. Focus on WHAT was changed and WHY, not HOW
7. Use present tense (" ++ dquote ++ "add" ++ dquote ++ " not " ++ dquote ++ "added" ++ dquote ++ ")
8. Don't end with a period
9. Maximum 72 characters for the first line

Return ONLY the commit message, nothing else.".

Definition buildRequest (diff : string) (files : list string) (oldMessage : string)
  : request :=
  mkRequest (orStr (o_model this) "gpt-3.5-turbo") systemContent
            (buildPrompt diff files oldMessage).

(** [await this.openai.chat.completions.create(...)] *)
Definition create (req : request) : M (list (option string)) := fun w =>
  let w' := setRequests (S (w_requests w)) w in
  match e_provider E (w_requests w) req with
  | Rejected m => (Throw (Error m), w')
  | Malformed => (Throw (Error "TypeError: Cannot read properties of undefined"), w')
  | Completion choices => (Ok choices, w')
  end.

(** [response.choices[0]?.message?.content?.trim()] *)
Definition firstContent (choices : list (option string)) : option string :=
  match choices !! 0%nat with
  | Some (Some content) => Some (JS.trim content)
  | _ => None
  end.

Definition generateCommitMessage (diff : string) (files : list string)
    (oldMessage : string) : M string :=
  tryCatch
    (choices <- create (buildRequest diff files oldMessage) ;;
     let message := firstContent choices in
     if negb (truthyStr message) then throw (Error "No commit message generated")
     else ret (default EmptyString message))
    (fun error =>
       when (truthyBool (o_verbose this)) (emit (GenerationError error)) ;;;
       ret oldMessage (* Fallback to old message *)).

Definition createBackupBranch (currentBranch : string) : M string :=
  let backupBranch := "backup-" ++ currentBranch ++ "-" ++ e_now E in
  execCommand (GitBranch backupBranch) ;;;
  ret backupBranch.

Definition filterScriptPath : string := ".git/filter-msg.js".
Definition mappingFilePath : string := ".git/commit-message-map.json".
Definition counterFilePath : string := ".git/commit-counter.txt".

Definition removeIfExists (path : string) : M unit :=
  there <- existsSync path ;; when there (unlinkSync path).

Definition rewriteHistory (mappingFile counterFile : string) : M unit :=
  (* Initialize the counter file *)
  writeFileSync counterFile (Number 0) ;;;
  (* Create a Node.js filter script *)
  let filterScript := filterScriptPath in
  writeFileSync filterScript (FilterScript mappingFile counterFile) ;;;
  tryFinally
    (execCommand (GitFilterBranch filterScript) ;;; ret tt)
    ((* Clean up temporary files *)
     removeIfExists filterScript ;;;
     removeIfExists mappingFile ;;;
     removeIfExists counterFile).

(** The variables of the generation loop of [rewrite]. *)
Record LoopState : Type := mkLoopState {
  messageMap : gmap string string;
  skippedCount : nat;
  improvedCount : nat
}.

Definition loopStart : LoopState := mkLoopState ∅ 0 0.

(** From [Generate new message with AI] to the end of the [try] block. *)
Definition generateFor (total i : nat) (commitInfo : CommitInfo) (st : LoopState)
  : M LoopState :=
  let hash := ci_hash commitInfo in
  newMessage <- generateCommitMessage (ci_diff commitInfo) (ci_files commitInfo)
                                      (ci_message commitInfo) ;;
  st' <- (if negb (String.eqb newMessage (ci_message commitInfo)) then
            emit (Improved hash newMessage) ;;;
            ret (mkLoopState (<[hash := newMessage]> (messageMap st))
                             (skippedCount st) (S (improvedCount st)))
          else
            emit (KeepingOriginal hash) ;;; ret st) ;;
  (* Add a small delay to avoid rate limiting *)
  when (Z.of_nat i <? Z.of_nat total - 1) (emit (Sleep 500)) ;;;
  ret st'.

(** The [try] block of one iteration. *)
Definition processCommit (total i : nat) (hash : string) (st : LoopState)
  : M LoopState :=
  commitInfo <- getCommitInfo hash i ;;
  if truthyBool (o_skipWellFormed this) then
    let quality := assessCommitQuality this (ci_message commitInfo) in
    if isWellFormed quality then
      emit (AlreadyWellFormed hash (score quality) (reason quality)) ;;;
      ret (mkLoopState (messageMap st) (S (skippedCount st)) (improvedCount st))
    else
      emit (ProcessingCommit hash (ci_message commitInfo) (Some (reason quality))) ;;;
      generateFor total i commitInfo st
  else
    emit (ProcessingCommit hash (ci_message commitInfo) None) ;;;
    generateFor total i commitInfo st.

(** [for (let i = 0; i < commits.length; i++) { try {...} catch {...} }],
    from iteration [i] on. *)
Fixpoint processCommits (total i : nat) (commits : list string) (st : LoopState)
  : M LoopState :=
  match commits with
  | [] => ret st
  | hash :: rest =>
      st' <- tryCatch (processCommit total i hash st)
                      (fun error => emit (ErrorProcessing hash error) ;;; ret st) ;;
      processCommits total (S i) rest st'
  end.

(** [for (const commit of commits) { ... orderedMessages.push(...) }] *)
Fixpoint orderMessages (map : gmap string string) (commits : list string)
  : M (list string) :=
  match commits with
  | [] => ret []
  | commit :: rest =>
      message <- (if truthyStr (map !! commit) then ret (default EmptyString (map !! commit))
                  else out <- execCommand (GitLogBody commit) ;; ret (JS.trim out)) ;;
      messages <- orderMessages map rest ;;
      ret (message :: messages)
  end.

(** The two loops of [rewrite] that make the plan: the generation pass,
    then the ordered list of messages. *)
Definition buildPlan (commits : list string) : M (LoopState * list string) :=
  st <- processCommits (List.length commits) 0 commits loopStart ;;
  (* Create ordered list of messages *)
  orderedMessages <- orderMessages (messageMap st) commits ;;
  ret (st, orderedMessages).

Definition rewrite : M unit :=
  emit Banner ;;;
  checkGitRepository ;;;
  currentBranch <- getCurrentBranch ;;
  emit (CurrentBranch currentBranch) ;;;
  status <- checkUncommittedChanges ;;
  when (JS.truthy status)
    (emit UncommittedWarning ;;;
     proceed <- askConfirmation "Do you want to continue anyway?" ;;
     when (negb proceed) (exit 0)) ;;;
  commits <- getCommits ;;
  emit (Found (List.length commits)) ;;;
  if (List.length commits =? 0)%nat then emit NoCommitsFound
  else
    (* Warning about rewriting history *)
    when (negb (truthyBool (o_dryRun this)))
      (emit HistoryWarning ;;;
       confirm <- askConfirmation (newline ++ "Do you want to proceed?") ;;
       when (negb confirm) (emit OperationCancelled ;;; exit 0)) ;;;
    (* Create backup branch *)
    backupBranch <-
      (if negb (truthyBool (o_skipBackup this)) && negb (truthyBool (o_dryRun this))
       then b <- createBackupBranch currentBranch ;;
            emit (BackupCreated b) ;;; ret (Some b)
       else ret None) ;;
    (* Process commits *)
    let mappingFile := mappingFilePath in
    let counterFile := counterFilePath in
    emit Generating ;;;
    plan <- buildPlan commits ;;
    let '(st, orderedMessages) := plan in
    writeFileSync mappingFile (JsonStrings orderedMessages) ;;;
    emit (Saved (List.length orderedMessages)) ;;;
    let changedCount := size (messageMap st) in
    emit (Summary (List.length commits)
                  (if truthyBool (o_skipWellFormed this) then Some (skippedCount st) else None)
                  (improvedCount st) changedCount) ;;;
    if (changedCount =? 0)%nat then
      (if (0 <? skippedCount st)%nat then emit AllWellFormed else emit NoMessagesToChange)
    else if truthyBool (o_dryRun this) then emit DryRunCompleted
    else
      apply <- askConfirmation (newline ++ "Do you want to apply the new commit messages?") ;;
      if negb apply then
        emit RewriteCancelled ;;;
        match backupBranch with Some b => emit (RestoreFrom b) | None => ret tt end
      else
        emit RewritingHistory ;;;
        tryCatch
          (rewriteHistory mappingFile counterFile ;;;
           emit (Success backupBranch))
          (fun error =>
             emit (ErrorRewriting error) ;;;
             match backupBranch with Some b => emit (RestoreFrom b) | None => ret tt end ;;;
             throw error).

End Methods.

(** ** Well-formed inputs *)

(** A commit id as git prints it: not empty, no whitespace. *)
Fixpoint noSpace (s : string) : bool :=
  match s with
  | EmptyString => true
  | String c rest => negb (JS.isWhiteSpace c) && noSpace rest
  end.

Definition validHash (h : string) : bool := JS.truthy h && noSpace h.

(** A message that begins with one of the conventional types. *)
Definition startsWithType (message : string) : bool :=
  existsb (fun t => match JS.stripPrefix t message with Some _ => true | None => false end)
          commitTypes.

(** The last [n] elements of a list. *)
Definition lastN {A} (n : nat) (xs : list A) : list A :=
  drop (List.length xs - n)%nat xs.

(** ** Frames: what a method leaves alone *)

(** The questions of the two gates a dry run skips. *)
Definition proceedQuestion : string := newline ++ "Do you want to proceed?".
Definition applyQuestion : string :=
  newline ++ "Do you want to apply the new commit messages?".

(** What only the destructive path shows on the console. *)
Definition destructiveEvent (ev : event) : bool :=
  match ev with
  | Asked q => String.eqb q proceedQuestion || String.eqb q applyQuestion
  | HistoryWarning | BackupCreated _ | RewritingHistory | Success _
  | ErrorRewriting _ | RewriteCancelled | RestoreFrom _ | OperationCancelled => true
  | _ => false
  end.

(** A relation between the world before and the world after, closed
    under the steps every method may take. *)
Class Frame (R : world -> world -> Prop) (okEvent : event -> Prop) : Prop := {
  frame_refl : forall w, R w w;
  frame_trans : forall a b c, R a b -> R b c -> R a c;
  frame_commands : forall w n, R w (setCommands n w);
  frame_requests : forall w n, R w (setRequests n w);
  frame_questions : forall w n, R w (setQuestions n w);
  frame_event : forall w ev, okEvent ev -> R w (setTrace (w_trace w ++ [ev])%list w)
}.

Definition keeps {A} (R : world -> world -> Prop) (m : M A) : Prop :=
  forall w, R w (m w).2.

(** History, branches and files are the same. *)
Definition sameRepository (w w' : world) : Prop :=
  w_history w' = w_history w /\ w_branches w' = w_branches w /\ w_fs w' = w_fs w.

(** History and branches are the same, and the console shows nothing of
    the destructive path. *)
Definition untouched (w w' : world) : Prop :=
  w_history w' = w_history w /\ w_branches w' = w_branches w
  /\ exists evs, w_trace w' = (w_trace w ++ evs)%list
                 /\ Forall (fun ev => destructiveEvent ev = false) evs.

(** The commands that only read. *)
Definition readOnly (cmd : command) : bool :=
  match cmd with
  | GitBranch _ | GitFilterBranch _ => false
  | _ => true
  end.

(** ** The plan the specification describes

    The data model of the specification has a [RewriteDecision] per
    enumerated commit.  The class does not build such records: it keeps a
    map from id to generated message and a list of final messages.  The
    definitions of this section say, in the specification's terms, what
    decision each commit gets; the properties below relate the loops of
    [rewrite] to them. *)

Section Expected.

Variable E : env.
Variable this : Options.
Variable history : list commit.

(** The full original message, as [git log -1 --format=%B] gives it
    and [rewrite] trims it. *)
Definition originalMessage (c : commit) : string :=
  JS.trim (c_message c ++ newline).

(** The subject line, as [git log -1 --format=%s] gives it and
    [getCommitInfo] trims it. *)
Definition subjectLine (c : commit) : string :=
  JS.trim (e_subject E (c_message c) ++ newline).

(** The three reads of [getCommitInfo] for the commit at [index] of the
    enumeration. *)
Definition readsOf (hash : string) (index : nat) : list command :=
  [ GitLogSubject hash; GitDiffTreeNameOnly hash;
    if (index =? 0)%nat then GitDiffTreeEmptyTree hash else GitDiffTreeParent hash ].

(** Running commands from the [n]-th on, stopping at the first that
    breaks: whether all ran, and how many commands have run after. *)
Fixpoint runReads (n : nat) (cmds : list command) : bool * nat :=
  match cmds with
  | [] => (true, n)
  | cmd :: rest => if e_breaks E n cmd then (false, S n) else runReads (S n) rest
  end.

(** The paths [git diff-tree --name-only -r] lists for a commit of
    [history], as [getCommitInfo] splits them: none for the root. *)
Definition listedFiles (c : commit) : list string :=
  JS.filterBoolean (JS.splitLines (JS.trim
    (if isRoot (c_hash c) history then EmptyString else unlines (c_files c)))).

Definition infoOf (c : commit) (index : nat) : CommitInfo :=
  mkCommitInfo (c_hash c) (subjectLine c) (listedFiles c)
    (if (index =? 0)%nat then c_diffRoot c else c_diff c).

(** A provider failure: the call is rejected, the response has no
    choices, or the first choice has no text once trimmed. *)
Definition providerFails (r : response) : bool :=
  match r with
  | Rejected _ | Malformed => true
  | Completion choices => negb (truthyStr (firstContent choices))
  end.

(** What generation gives for a commit when it is the [nreq]-th
    request: the provider's text, or the subject line on failure. *)
Definition answerFor (nreq : nat) (info : CommitInfo) : string :=
  let r := e_provider E nreq
             (buildRequest this (ci_diff info) (ci_files info) (ci_message info)) in
  if providerFails r then ci_message info
  else match r with
       | Completion choices => default EmptyString (firstContent choices)
       | _ => ci_message info
       end.

Inductive verdict : Type :=
| ReadFailed                       (* a read of the commit failed *)
| WellFormedSkipped                (* skipped as well-formed *)
| ImprovedTo (message : string)    (* generated, and different from the subject *)
| KeptOriginal.                    (* generated, and equal to the subject *)

(** The verdict on one commit, with the counters of commands and
    requests after it.  The assessment and the comparison are on the
    subject line. *)
Definition verdictFor (ncmd nreq index : nat) (c : commit) : verdict * nat * nat :=
  let '(allRead, ncmd') := runReads ncmd (readsOf (c_hash c) index) in
  if negb allRead then (ReadFailed, ncmd', nreq)
  else
    let info := infoOf c index in
    if truthyBool (o_skipWellFormed this)
       && isWellFormed (assessCommitQuality this (subjectLine c))
    then (WellFormedSkipped, ncmd', nreq)
    else
      let generated := answerFor nreq info in
      (if negb (String.eqb generated (subjectLine c)) then ImprovedTo generated
       else KeptOriginal,
       ncmd', S nreq).

Fixpoint expectedVerdicts (ncmd nreq index : nat) (cs : list commit) : list verdict :=
  match cs with
  | [] => []
  | c :: rest =>
      let '(v, ncmd', nreq') := verdictFor ncmd nreq index c in
      v :: expectedVerdicts ncmd' nreq' (S index) rest
  end.

(** [RewriteDecision] of the specification. *)
Record RewriteDecision : Type := mkRewriteDecision {
  commitId : string;
  finalMessage : string;
  wasGenerated : bool
}.

(** An improved commit gets the generated message; every other commit
    keeps its full original message. *)
Definition decisionFor (c : commit) (v : verdict) : RewriteDecision :=
  match v with
  | ImprovedTo generated => mkRewriteDecision (c_hash c) generated true
  | _ => mkRewriteDecision (c_hash c) (originalMessage c) false
  end.

(** [RewritePlan]: one decision per enumerated commit, in order. *)
Definition expectedPlan (ncmd nreq : nat) (cs : list commit) : list RewriteDecision :=
  zip_with decisionFor cs (expectedVerdicts ncmd nreq 0 cs).

(** What a verdict does to the variables of the generation loop. *)
Definition tally (st : LoopState) (c : commit) (v : verdict) : LoopState :=
  match v with
  | ReadFailed | KeptOriginal => st
  | WellFormedSkipped =>
      mkLoopState (messageMap st) (S (skippedCount st)) (improvedCount st)
  | ImprovedTo generated =>
      mkLoopState (<[c_hash c := generated]> (messageMap st))
                  (skippedCount st) (S (improvedCount st))
  end.

Fixpoint tallyAll (st : LoopState) (cs : list commit) (vs : list verdict) : LoopState :=
  match cs, vs with
  | c :: cs', v :: vs' => tallyAll (tally st c v) cs' vs'
  | _, _ => st
  end.

End Expected.

(** The variables of the loop after [generateCommitMessage] returned
    [generated] for the commit read as [info]. *)
Definition afterGeneration (st : LoopState) (info : CommitInfo) (generated : string)
  : LoopState :=
  if negb (String.eqb generated (ci_message info))
  then mkLoopState (<[ci_hash info := generated]> (messageMap st))
                   (skippedCount st) (S (improvedCount st))
  else st.

(** The commits [cs], enumerated from index [i] on, are commits of the
    history [H] that git finds by their id, and only the one enumerated
    first can be the root. *)
Definition enumeratedFrom (H : list commit) (i : nat) (cs : list commit) : Prop :=
  forall j c, cs !! j = Some c ->
    findCommit (c_hash c) H = Some c
    /\ ((i + j)%nat <> 0%nat -> isRoot (c_hash c) H = false).

(** What the map of generated messages holds for a commit with a given
    verdict. *)
Definition mapEntry (v : verdict) : option string :=
  match v with
  | ImprovedTo generated => Some generated
  | _ => None
  end.

(** The world has history [H], and [ncmd] commands and [nreq] requests
    have run. *)
Definition standsAt (H : list commit) (ncmd nreq : nat) (w : world) : Prop :=
  w_history w = H /\ w_commands w = ncmd /\ w_requests w = nreq.

(** [m] run in [w] returns [a] in a world that satisfies [P]. *)
Definition returns {A} (m : M A) (w : world) (a : A) (P : world -> Prop) : Prop :=
  exists w', m w = (Ok a, w') /\ P w'.

(** [m] run in [w] throws in a world that satisfies [P]. *)
Definition throws {A} (m : M A) (w : world) (P : world -> Prop) : Prop :=
  exists e w', m w = (Throw e, w') /\ P w'.

(** ** Sample inputs *)

Definition plainOptions : Options :=
  mkOptions (Some "sk-test") (Some "gpt-3.5-turbo") None (Some false) (Some false)
            None (Some false) (Some true) (Some 7).

Definition zeroThresholdOptions : RewriteOptions :=
  mkRewriteOptions (Value "sk-test") Absent Absent Absent Absent Absent Absent Absent
                   (Value 0).

Definition zeroThresholdRewriter : Options :=
  mkOptions (Some "sk-test") (Some "gpt-3.5-turbo") None (Some false) (Some false)
            None (Some false) (Some true) (Some 0).


Definition sampleEnv (provider : nat -> request -> response)
    (breaks : nat -> command -> bool) : env :=
  mkEnv true "main" EmptyString "1700000000000" firstLineOf
        (fun hash _ => hash ++ "+") breaks provider (fun _ => "y").

Definition neverBreaks : nat -> command -> bool := fun _ _ => false.

Definition sampleHistory : list commit :=
  [ mkCommit "a1f0" ("init" ++ newline) ["README.md"] EmptyString "+readme";
    mkCommit "b2e1" ("wip" ++ newline) ["src/parser.ts"; "src/lexer.ts"] "+parser" "+all";
    mkCommit "c3d2" ("stuff" ++ newline ++ newline ++ "longer explanation" ++ newline)
             ["src/cli.ts"] "+cli" "+all" ].

Definition freshWorld (history : list commit) : world :=
  mkWorld history [] ∅ [] 0 0 0.

(** A provider that answers the n-th request with a fixed improvement. *)
Definition helpfulProvider : nat -> request -> response := fun n _ =>
  match n with
  | O => Completion [Some "feat(parser): add the parser and the lexer"]
  | _ => Completion [Some "feat(cli): add the command line entry point"]
  end.

Definition dryOptions : Options :=
  mkOptions (Some "sk-test") (Some "gpt-3.5-turbo") None (Some true) (Some false)
            None (Some false) (Some true) (Some 7).

(** A provider that is never reachable. *)
Definition deadProvider : nat -> request -> response := fun _ _ =>
  Rejected "connect ECONNREFUSED".

(** A user who agrees to proceed and then declines to apply. *)
Definition decliningEnv : env :=
  mkEnv true "main" EmptyString "1700000000000" firstLineOf
        (fun hash _ => hash ++ "+") neverBreaks helpfulProvider
        (fun n => match n with O => "y" | _ => "n" end).

(** The patch of the second commit is too large for the buffer. *)
Definition patchTooLarge : nat -> command -> bool := fun _ cmd =>
  match cmd with
  | GitDiffTreeParent hash => String.eqb hash "b2e1"
  | _ => false
  end.


(** [m] never ends the process. *)
Definition noExit {A} (m : M A) : Prop :=
  forall w code, (m w).1 <> Exit code.


(** The message the filter script prints for commit [c] when the counter
    is [counter]. *)
Definition filteredMessage (messages : list string) (counter : nat) (c : commit)
  : string :=
  match messages !! counter with
  | Some m => if JS.truthy m then m else JS.trim (c_message c)
  | None => JS.trim (c_message c)
  end.

(** The three files of the application step are in place, the counter
    at [counter]. *)
Definition filterReady (messages : list string) (counter : nat) (w : world) : Prop :=
  w_fs w !! filterScriptPath = Some (FilterScript mappingFilePath counterFilePath)
  /\ w_fs w !! mappingFilePath = Some (JsonStrings messages)
  /\ w_fs w !! counterFilePath = Some (Number counter).

(** The name [createBackupBranch] gives the backup. *)
Definition backupName (E : env) : string :=
  "backup-" ++ JS.trim (e_branchName E ++ newline) ++ "-" ++ e_now E.

(** A run in which nothing goes wrong and the user agrees to
    everything. *)
Record cooperative (E : env) (this : Options) (w : world) : Prop := {
  coop_repository : e_isRepository E = true;
  coop_commands : forall n cmd, e_breaks E n cmd = false;
  coop_user : forall n, e_answer E n = "y";
  coop_hashes : Forall (fun h => validHash h = true) (map c_hash (w_history w));
  coop_distinct : NoDup (map c_hash (w_history w));
  coop_backup : truthyBool (o_skipBackup this) = true \/ backupName E ∉ w_branches w
}.

(** A provider that improves the first two commits and gives the third
    its own subject line back. *)
Definition echoingProvider : nat -> request -> response := fun n _ =>
  match n with
  | 0%nat => Completion [Some "feat(docs): add the readme"]
  | 1%nat => Completion [Some "feat(parser): add the parser and the lexer"]
  | _ => Completion [Some "stuff"]
  end.

(** ** What the present-tense pattern accepts *)

Fixpoint allUnits (p : ascii -> bool) (s : string) : bool :=
  match s with
  | EmptyString => true
  | String c rest => p c && allUnits p rest
  end.

(** Nothing, or a parenthesised text without a closing parenthesis
    inside. *)
Definition scopeText (sc : string) : Prop :=
  sc = EmptyString
  \/ exists body, body <> EmptyString /\ allUnits notCloseParen body = true
                  /\ sc = "(" ++ body ++ ")".

(** An optional type, an optional scope, then a colon, a space and a
    lower-case letter. *)
Definition presentTenseShape (message : string) : Prop :=
  exists t sc c rest,
    message = t ++ sc ++ ": " ++ String c rest
    /\ (t = EmptyString \/ In t commitTypes)
    /\ scopeText sc
    /\ JS.isLowerAZ c = true.

(** ** What a run shows *)

(** What the console has shown since it had [n] lines. *)
Definition shownSince (n : nat) (w : world) : list event := drop n (w_trace w).

(** Every message in the map of generated messages was shown as an
    improvement since the console had [n] lines. *)
Definition improvementsShown (n : nat) (generated : gmap string string) (w : world)
  : Prop :=
  forall h m, generated !! h = Some m -> In (Improved h m) (shownSince n w).

(** The lines a run that only reports can end with. *)
Definition completionReport (ev : event) : bool :=
  match ev with
  | NoCommitsFound | AllWellFormed | NoMessagesToChange | DryRunCompleted => true
  | _ => false
  end.

(** The commits [getCommits] selects, as commits of the history. *)
Definition enumeratedCommits (this : Options) (history : list commit) : list commit :=
  if truthyNum (o_maxCommits this) && (default 0 (o_maxCommits this) >? 0) then
    drop (Z.to_nat (Z.max 0 (Z.of_nat (List.length history)
                             - default 0 (o_maxCommits this)))) history
  else history.

(** ** What a run reports, commit by commit *)

(** [answer.toLowerCase() === 'y' || answer.toLowerCase() === 'yes'] *)
Definition agrees (answer : string) : bool :=
  String.eqb (JS.toLowerCase answer) "y" || String.eqb (JS.toLowerCase answer) "yes".

(** The commands [rewrite] runs before it reads single commits. *)
Definition preparation (cmd : command) : bool :=
  match cmd with
  | GitRevParseGitDir | GitRevParseAbbrevRefHead | GitStatusPorcelain
  | GitRevListReverseHead | GitBranch _ => true
  | _ => false
  end.

(** The run creates a backup branch. *)
Definition backs (this : Options) : bool :=
  negb (truthyBool (o_skipBackup this)) && negb (truthyBool (o_dryRun this)).

(** The commands that have run when the generation pass starts: the
    four reads of the preparation and the creation of the backup. *)
Definition planStart (this : Options) (w : world) : nat :=
  (w_commands w + 4 + (if backs this then 1 else 0))%nat.

(** A repository and a user with which a run gets as far as the plan:
    the commands of the preparation run, the user agrees at every
    prompt, the ids are well-formed and distinct, and the name of the
    backup is free.  Nothing is asked of the reads of single commits or
    of the provider. *)
Record prepared (E : env) (this : Options) (w : world) : Prop := {
  prep_repository : e_isRepository E = true;
  prep_commands : forall n cmd, preparation cmd = true -> e_breaks E n cmd = false;
  prep_user : forall n, agrees (e_answer E n) = true;
  prep_hashes : Forall (fun h => validHash h = true) (map c_hash (w_history w));
  prep_distinct : NoDup (map c_hash (w_history w));
  prep_backup : backs this = false \/ backupName E ∉ w_branches w
}.

(** The line an iteration shows for a commit with a given verdict. *)
Definition verdictLine (E : env) (this : Options) (c : commit) (v : verdict)
    (ev : event) : Prop :=
  match v with
  | ReadFailed => exists e, ev = ErrorProcessing (c_hash c) e
  | WellFormedSkipped =>
      let quality := assessCommitQuality this (subjectLine E c) in
      ev = AlreadyWellFormed (c_hash c) (score quality) (reason quality)
  | ImprovedTo generated => ev = Improved (c_hash c) generated
  | KeptOriginal => ev = KeepingOriginal (c_hash c)
  end.

Definition isImproved (v : verdict) : bool :=
  match v with ImprovedTo _ => true | _ => false end.

Definition isSkipped (v : verdict) : bool :=
  match v with WellFormedSkipped => true | _ => false end.

Definition improvedIn (vs : list verdict) : nat := List.length (List.filter isImproved vs).
Definition skippedIn (vs : list verdict) : nat := List.length (List.filter isSkipped vs).

(** The summary line for commits with the verdicts [vs]. *)
Definition summaryOf (this : Options) (vs : list verdict) : event :=
  Summary (List.length vs)
          (if truthyBool (o_skipWellFormed this) then Some (skippedIn vs) else None)
          (improvedIn vs) (improvedIn vs).

(** The last line of a dry run over commits with the verdicts [vs]. *)
Definition dryRunEnding (vs : list verdict) : event :=
  match vs with
  | [] => NoCommitsFound
  | _ => if (improvedIn vs =? 0)%nat
         then (if (0 <? skippedIn vs)%nat then AllWellFormed else NoMessagesToChange)
         else DryRunCompleted
  end.

(** The console is as it was. *)
Definition sameTrace (w w' : world) : Prop := w_trace w' = w_trace w.

(** The patch of no commit can be read, and no full message either. *)
Definition bodyReadsBreak : nat -> command -> bool := fun _ cmd =>
  match cmd with
  | GitLogBody _ => true
  | _ => false
  end.

(** ** The rubric, check by check *)

(** The first line has between 10 and 72 units. *)
Definition lengthInRange (message : string) : bool :=
  (JS.length (firstLineOf message) >=? 10) && (JS.length (firstLineOf message) <=? 72).

(** The first line does not end with a period. *)
Definition noTrailingPeriod (message : string) : bool :=
  negb (JS.endsWithUnit "." (firstLineOf message)).

(** The unit [c] occurs in [s]. *)
Fixpoint hasUnit (c : ascii) (s : string) : bool :=
  match s with
  | EmptyString => false
  | String d rest => (JS.code d =? JS.code c)%N || hasUnit c rest
  end.

(** ** Inputs for the properties of the single methods *)

(** [n] times the unit [c]. *)
Fixpoint repeatUnit (n : nat) (c : ascii) : string :=
  match n with
  | O => EmptyString
  | S n' => String c (repeatUnit n' c)
  end.

(** A path git prints on a line of its own and [trim] leaves alone. *)
Definition plainPath (p : string) : bool := JS.truthy p && noSpace p.

(** No limit is in force: [maxCommits] is missing, zero or negative. *)
Definition noLimit (this : Options) : Prop :=
  o_maxCommits this = None \/ exists N, o_maxCommits this = Some N /\ N <= 0.

(** ** What a step may change

    [Frame] closes a relation under the steps every method takes.  The
    three classes below add the steps only some methods take: writing or
    removing a file, replacing the history, creating a branch. *)

Class FilesFrame (R : world -> world -> Prop) : Prop :=
  frame_fs : forall w f, R w (setFs f w).

Class HistoryFrame (R : world -> world -> Prop) : Prop :=
  frame_history : forall w h, R w (setHistory h w).

Class BranchFrame (R : world -> world -> Prop) : Prop :=
  frame_branches : forall w b, R w (setBranches b w).

(** The branches are the same. *)
Definition sameBranches (w w' : world) : Prop := w_branches w' = w_branches w.

(** The console has only grown. *)
Definition traceGrows (w w' : world) : Prop :=
  exists evs, w_trace w' = (w_trace w ++ evs)%list.

(** The user was asked whether to apply, and the rewrite was announced. *)
Definition applyAnnounced (evs : list event) : Prop :=
  In (Asked applyQuestion) evs /\ In RewritingHistory evs.

(** The console has only grown, and the history is the same unless the
    new lines show the question and the announcement. *)
Definition historyGuarded (w w' : world) : Prop :=
  exists evs, w_trace w' = (w_trace w ++ evs)%list
              /\ (w_history w' = w_history w \/ applyAnnounced evs).

(** The three files of a run. *)
Definition runFile (path : string) : bool :=
  String.eqb path mappingFilePath || String.eqb path counterFilePath
  || String.eqb path filterScriptPath.

(** Every other file is as it was. *)
Definition sameOtherFiles (w w' : world) : Prop :=
  forall path, runFile path = false -> w_fs w' !! path = w_fs w !! path.

(** A user who declines at the first prompt. *)
Definition refusingEnv : env :=
  mkEnv true "main" EmptyString "1700000000000" firstLineOf
        (fun hash _ => hash ++ "+") neverBreaks helpfulProvider (fun _ => "no").

(** At most the branch [b] has been created. *)
Definition atMostBranch (b : string) (w w' : world) : Prop :=
  w_branches w' = w_branches w \/ w_branches w' = (w_branches w ++ [b])%list.

(** Nothing has been created and nothing requested. *)
Definition quiet (w w' : world) : Prop :=
  sameRepository w w' /\ w_requests w' = w_requests w.

(** The question of the first prompt. *)
Definition continueQuestion : string := "Do you want to continue anyway?".

(** The last line of a run that ended at a prompt. *)
Definition refusalShown (w : world) : Prop :=
  last (w_trace w) = Some (Asked continueQuestion)
  \/ last (w_trace w) = Some OperationCancelled.

(** When [m] ends the process, the code is 0, the world is [quiet] and
    the console ends with a refusal. *)
Definition exitsOnRefusal {A} (m : M A) : Prop :=
  forall w code, (m w).1 = Exit code ->
    code = 0 /\ quiet w (m w).2 /\ refusalShown (m w).2.

(** ** The generation loop, one iteration at a time *)

(** What one iteration does to the variables of the loop and to the
    count of requests: nothing (the read failed, or the provider gave
    the message back), one more commit skipped without a request, or one
    more commit improved with a text that is not empty and has no
    whitespace at its ends. *)
Definition iterationOutcome (hash : string) (st : LoopState) (w : world)
    (st' : LoopState) (w' : world) : Prop :=
  (st' = st
   /\ (w_requests w' = w_requests w \/ w_requests w' = S (w_requests w)))
  \/ (st' = mkLoopState (messageMap st) (S (skippedCount st)) (improvedCount st)
      /\ w_requests w' = w_requests w)
  \/ (exists generated,
        st' = mkLoopState (<[hash := generated]> (messageMap st))
                          (skippedCount st) (S (improvedCount st))
        /\ w_requests w' = S (w_requests w)
        /\ JS.truthy generated = true /\ JS.trim generated = generated).

(** The same for a whole pass over [commits]. *)
Record passOutcome (commits : list string) (st : LoopState) (w : world)
    (st' : LoopState) (w' : world) : Prop := {
  pass_requests : (w_requests w <= w_requests w')%nat;
  pass_skipped : (skippedCount st <= skippedCount st')%nat;
  pass_improved : (improvedCount st <= improvedCount st')%nat;
  pass_paid : (improvedCount st' - improvedCount st
               <= w_requests w' - w_requests w)%nat;
  pass_bound : ((w_requests w' - w_requests w) + (skippedCount st' - skippedCount st)
                <= List.length commits)%nat;
  pass_entries : forall h m, messageMap st' !! h = Some m ->
                   messageMap st !! h = Some m
                   \/ (In h commits /\ JS.truthy m = true /\ JS.trim m = m);
  pass_size : NoDup commits -> (forall h, In h commits -> messageMap st !! h = None) ->
              (size (messageMap st') + improvedCount st
               = size (messageMap st) + improvedCount st')%nat
}.

(** The ids of the sample history, as [getCommits] returns them. *)
Definition sampleCommits : list string := ["a1f0"; "b2e1"; "c3d2"].

(** ** What a run reads of its options *)

(** A positive limit is in force. *)
Definition limitOn (o : Options) : bool :=
  truthyNum (o_maxCommits o) && (default 0 (o_maxCommits o) >? 0).

(** The two rewriters read the same from their options: every read in
    the class goes through truthiness, [||] or the test of the limit. *)
Record sameReads (a b : Options) : Prop := {
  reads_dryRun : truthyBool (o_dryRun a) = truthyBool (o_dryRun b);
  reads_verbose : truthyBool (o_verbose a) = truthyBool (o_verbose b);
  reads_skipBackup : truthyBool (o_skipBackup a) = truthyBool (o_skipBackup b);
  reads_skipWellFormed :
    truthyBool (o_skipWellFormed a) = truthyBool (o_skipWellFormed b);
  reads_threshold : orNum (o_minQualityScore a) 7 = orNum (o_minQualityScore b) 7;
  reads_model : orStr (o_model a) "gpt-3.5-turbo" = orStr (o_model b) "gpt-3.5-turbo";
  reads_limitOn : limitOn a = limitOn b;
  reads_limit : limitOn b = true ->
                default 0 (o_maxCommits a) = default 0 (o_maxCommits b)
}.

(** A property that is left out, [undefined], or falsy. *)
Definition unset {A} (falsy : A -> bool) (p : property A) : bool :=
  match p with
  | Absent | Undefined => true
  | Value a => falsy a
  end.

Definition isFalse (b : bool) : bool := negb b.
Definition isZeroOrLess (n : Z) : bool := n <=? 0.
Definition isZero (n : Z) : bool := n =? 0.
Definition isEmpty (s : string) : bool := negb (JS.truthy s).

(** [{ apiKey, skipWellFormed }]: the options with everything else left
    out. *)
Definition keyAndSkipOnly (options : RewriteOptions) : RewriteOptions :=
  mkRewriteOptions (apiKey options) Absent Absent Absent Absent Absent Absent
                   (skipWellFormed options) Absent.

Definition withBranch (b : property string) (options : RewriteOptions) : RewriteOptions :=
  mkRewriteOptions (apiKey options) (model options) b (dryRun options) (verbose options)
                   (maxCommits options) (skipBackup options) (skipWellFormed options)
                   (minQualityScore options).

Definition withSkipWellFormed (s : property bool) (options : RewriteOptions)
  : RewriteOptions :=
  mkRewriteOptions (apiKey options) (model options) (branch options) (dryRun options)
                   (verbose options) (maxCommits options) (skipBackup options) s
                   (minQualityScore options).

(** ** The command line: the action of [src/cli.ts] *)

(** The options object commander hands to the action; a flag that was
    not given reads as [undefined]. *)
Record CliOptions : Type := mkCliOptions {
  cli_apiKey : option string;
  cli_model : option string;
  cli_branch : option string;
  cli_dryRun : option bool;
  cli_verbose : option bool;
  cli_maxCommits : option Z;
  cli_skipBackup : option bool;
  cli_skipWellFormed : option bool;
  cli_minQualityScore : option Z
}.

(** [{ key: value }] with a value that may be [undefined]: the property
    is present. *)
Definition given {A} (value : option A) : property A :=
  match value with
  | Some a => Value a
  | None => Undefined
  end.

(** [value !== false] *)
Definition notFalse (value : option bool) : bool :=
  match value with
  | Some false => false
  | _ => true
  end.

(** The object literal the action passes to the constructor. *)
Definition rewriterOptions (apiKey : option string) (options : CliOptions)
  : RewriteOptions :=
  mkRewriteOptions (given apiKey) (given (cli_model options)) (given (cli_branch options))
                   (given (cli_dryRun options)) (given (cli_verbose options))
                   (given (cli_maxCommits options)) (given (cli_skipBackup options))
                   (Value (notFalse (cli_skipWellFormed options)))
                   (given (cli_minQualityScore options)).

(** What the action writes with [console.error]. *)
Inductive errorLine : Type :=
| KeyRequired                   (* Error: OpenAI API key is required! *)
| KeyMethods                    (* Please provide it using one of these methods: *)
| KeyByVariable                 (* 1. Set environment variable ... *)
| KeyByArgument                 (* 2. Pass as argument ... *)
| KeyAddress                    (* Get your API key at ... *)
| ErrorMessage (e : error)      (* Error: message *)
| ErrorStack (e : error).       (* the stack *)

(** How the process ends. *)
Record processEnd : Type := mkProcessEnd {
  exitCode : Z;
  errorLines : list errorLine;
  endWorld : world
}.

(** The [catch] of the action. *)
Definition reportFailure (options : CliOptions) (e : error) (w : world) : processEnd :=
  mkProcessEnd 1
    (ErrorMessage e :: if truthyBool (cli_verbose options) then [ErrorStack e] else [])
    w.

(** The action; [envKey] is [process.env.OPENAI_API_KEY].  A run that
    returns lets the process end by itself, with code 0. *)
Definition action (envKey : option string) (E : env) (options : CliOptions) (w : world)
  : processEnd :=
  (* Check for API key *)
  let apiKey := if truthyStr (cli_apiKey options) then cli_apiKey options else envKey in
  if negb (truthyStr apiKey) then
    mkProcessEnd 1 [KeyRequired; KeyMethods; KeyByVariable; KeyByArgument; KeyAddress] w
  else
    match constructor envKey (rewriterOptions apiKey options) with
    | inl e => reportFailure options e w
    | inr rewriter =>
        match rewrite E rewriter w with
        | (Ok _, w') => mkProcessEnd 0 [] w'
        | (Throw e, w') => reportFailure options e w'
        | (Exit code, w') => mkProcessEnd code [] w'
        end
    end.

(** The rewriter the action builds, as the class reads it. *)
Definition cliRewriter (options : CliOptions) : Options :=
  mkOptions None (Some (orStr (cli_model options) "gpt-3.5-turbo")) None
            (Some (truthyBool (cli_dryRun options)))
            (Some (truthyBool (cli_verbose options)))
            (if truthyNum (cli_maxCommits options)
                && (default 0 (cli_maxCommits options) >? 0)
             then cli_maxCommits options else None)
            (Some (truthyBool (cli_skipBackup options)))
            (Some (notFalse (cli_skipWellFormed options)))
            (Some (orNum (cli_minQualityScore options) 7)).

(** No flag given: commander fills in the model and the negatable
    option. *)
Definition noFlags : CliOptions :=
  mkCliOptions None (Some "gpt-3.5-turbo") None None None None None (Some true) None.

(** How the action ends the process after a run of [rewrite]. *)
Definition afterRun (options : CliOptions) (run : result unit * world) : processEnd :=
  match run with
  | (Ok _, w') => mkProcessEnd 0 [] w'
  | (Throw e, w') => reportFailure options e w'
  | (Exit code, w') => mkProcessEnd code [] w'
  end.

(** Neither the flag nor the environment gives a key. *)
Definition noKey (envKey : option string) (options : CliOptions) : bool :=
  negb (truthyStr (cli_apiKey options)) && negb (truthyStr envKey).

(** [new GitCommitRewriter()] with nothing passed. *)
Definition noOptions : RewriteOptions :=
  mkRewriteOptions Absent Absent Absent Absent Absent Absent Absent Absent Absent.

(** ** Installing the hooks: [installGitHooks] of the command line

    The function works on the file system alone.  A path is a string;
    [gitHooksDir] and [sourceHooksDir] are the two directories the
    function computes with [path.join], and the file of a hook in a
    directory is [dir/name]. *)

Module Hooks.

Inductive node : Type :=
| Directory
| File (content : string) (executable : bool).

Inductive operation : Type :=
| Mkdir (path : string)
| Read (path : string)
| Write (path : string)
| Chmod (path : string).

Inductive line : Type :=
| Title
| NotARepository                (* the two lines on stderr *)
| Available (names : list string)
| Installing
| SourceNotFound (name : string)
| AlreadyExists (name : string)
| Installed (name : string)
| InstallationFailed (name : string) (op : operation)
| Summary (installed : nat) (skipped : option nat)
| NextSteps
| AllInstalled
| AllAlreadyInstalled.

(** What the function does not control: whether the directory is a
    repository, where the two directories are, and which operations of
    the file system fail for a reason of their own. *)
Record env : Type := mkEnv {
  isRepository : bool;
  gitHooksDir : string;
  sourceHooksDir : string;
  fails : operation -> bool
}.

Record state : Type := mkState {
  fs : gmap string node;
  console : list line
}.

Inductive outcome : Type :=
| Returned
| Threw (op : operation)
| Exited (code : Z).

Definition join (dir name : string) : string := dir ++ "/" ++ name.

Definition hooks : list string := ["prepare-commit-msg"; "post-commit"; "pre-push"].

Definition log (l : line) (s : state) : state :=
  mkState (fs s) (console s ++ [l])%list.

Definition existsSync (path : string) (s : state) : bool :=
  bool_decide (is_Some (fs s !! path)).

(** [fs.mkdirSync(path, { recursive: true })] *)
Definition mkdirSync (E : env) (path : string) (s : state) : option state :=
  if fails E (Mkdir path) then None
  else match fs s !! path with
       | Some (File _ _) => None
       | Some Directory => Some s
       | None => Some (mkState (<[path := Directory]> (fs s)) (console s))
       end.

(** [fs.readFileSync(path, 'utf-8')] *)
Definition readFileSync (E : env) (path : string) (s : state) : option string :=
  if fails E (Read path) then None
  else match fs s !! path with
       | Some (File content _) => Some content
       | _ => None
       end.

(** [fs.writeFileSync(dir/name, content)]: the directory must be
    there, and the path must not be a directory. *)
Definition writeFileSync (E : env) (dir name content : string) (s : state)
  : option state :=
  if fails E (Write (join dir name)) then None
  else match fs s !! dir, fs s !! join dir name with
       | Some Directory, Some Directory => None
       | Some Directory, _ =>
           Some (mkState (<[join dir name := File content false]> (fs s)) (console s))
       | _, _ => None
       end.

(** [fs.chmodSync(path, 0o755)] *)
Definition chmodSync (E : env) (path : string) (s : state) : option state :=
  if fails E (Chmod path) then None
  else match fs s !! path with
       | Some (File content _) =>
           Some (mkState (<[path := File content true]> (fs s)) (console s))
       | Some Directory => Some s
       | None => None
       end.

(** The variables of the loop. *)
Record counts : Type := mkCounts {
  installedCount : nat;
  skippedCount : nat
}.

(** One iteration of [for (const hook of hooks)]. *)
Definition installHook (E : env) (name : string) (c : counts) (s : state)
  : counts * state :=
  let sourcePath := join (sourceHooksDir E) name in
  let targetPath := join (gitHooksDir E) name in
  (* Skip README file *)
  if String.eqb name "README.md" then (c, s)
  (* Check if source file exists *)
  else if negb (existsSync sourcePath s) then (c, log (SourceNotFound name) s)
  (* Check if hook already exists *)
  else if existsSync targetPath s then
    (mkCounts (installedCount c) (S (skippedCount c)), log (AlreadyExists name) s)
  else
    (* Copy hook file *)
    match readFileSync E sourcePath s with
    | None => (c, log (InstallationFailed name (Read sourcePath)) s)
    | Some content =>
        match writeFileSync E (gitHooksDir E) name content s with
        | None => (c, log (InstallationFailed name (Write targetPath)) s)
        | Some s1 =>
            match chmodSync E targetPath s1 with
            | None => (c, log (InstallationFailed name (Chmod targetPath)) s1)
            | Some s2 =>
                (mkCounts (S (installedCount c)) (skippedCount c),
                 log (Installed name) s2)
            end
        end
    end.

Definition installAll (E : env) (names : list string) (c : counts) (s : state)
  : counts * state :=
  fold_left (fun '(c, s) name => installHook E name c s) names (c, s).

Definition report (c : counts) (s : state) : state :=
  let s := log (Summary (installedCount c)
                        (if (0 <? skippedCount c)%nat then Some (skippedCount c) else None)) s in
  if (0 <? installedCount c)%nat then
    let s := log NextSteps s in
    if (installedCount c =? List.length hooks)%nat then log AllInstalled s else s
  else if (skippedCount c =? List.length hooks)%nat then log AllAlreadyInstalled s
  else s.

Definition installGitHooks (E : env) (s : state) : outcome * state :=
  let s := log Title s in
  (* Check if in a git repository *)
  if negb (isRepository E) then (Exited 1, log NotARepository s)
  else
    (* Create hooks directory if it doesn't exist *)
    let made := if negb (existsSync (gitHooksDir E) s)
                then mkdirSync E (gitHooksDir E) s else Some s in
    match made with
    | None => (Threw (Mkdir (gitHooksDir E)), s)
    | Some s =>
        let s := log Installing (log (Available hooks) s) in
        let '(c, s) := installAll E hooks (mkCounts 0 0) s in
        (Returned, report c s)
    end.

(** No operation fails for a reason of its own. *)
Definition reliable (E : env) : Prop := forall op, fails E op = false.

(** The hooks the lines report as installed. *)
Definition installedNames (ls : list line) : list string :=
  omap (fun l => match l with Installed name => Some name | _ => None end) ls.

(** What the summaries among the lines give as the number installed. *)
Definition summaries (ls : list line) : list nat :=
  omap (fun l => match l with Summary n _ => Some n | _ => None end) ls.

(** The hook [name] can be copied: its source is a file, its target is
    not there and the hooks directory is a directory. *)
Definition installable (E : env) (name : string) (files : gmap string node) : Prop :=
  name <> "README.md"
  /\ (exists content executable,
        files !! join (sourceHooksDir E) name = Some (File content executable))
  /\ files !! join (gitHooksDir E) name = None
  /\ files !! gitHooksDir E = Some Directory.

(** What one iteration does: nothing to the files, or one new file at
    the target of the hook, a copy of the source. *)
Inductive step (E : env) (name : string) (c : counts) (s : state)
    (c' : counts) (s' : state) : Prop :=
| Unchanged (more : list line) :
    fs s' = fs s -> console s' = (console s ++ more)%list ->
    installedCount c' = installedCount c ->
    installedNames more = [] -> summaries more = [] ->
    (reliable E -> ~ installable E name (fs s)) ->
    step E name c s c' s'
| Copied (content : string) (executable done : bool) (more : list line) :
    installable E name (fs s) ->
    fs s !! join (sourceHooksDir E) name = Some (File content executable) ->
    fs s' = <[join (gitHooksDir E) name := File content done]> (fs s) ->
    console s' = (console s ++ more)%list ->
    installedCount c' = (if done then S (installedCount c) else installedCount c) ->
    installedNames more = (if done then [name] else []) -> summaries more = [] ->
    (reliable E -> done = true) ->
    step E name c s c' s'.

End Hooks.

(** ** The Ollama provider: [src/providers/ollama.ts]

    [fetch] is the environment: the answer to the n-th request.  A JSON
    body is an object of which the class reads [models] (an array of
    objects with a [name], when present) and [message.content]. *)

Module Ollama.

(** [s.replace(/\/$/, '')]: a slash at the very end is removed. *)
Fixpoint stripTrailingSlash (s : string) : string :=
  match s with
  | EmptyString => EmptyString
  | String c rest =>
      match rest with
      | EmptyString => if (JS.code c =? 47)%N then EmptyString else s
      | _ => String c (stripTrailingSlash rest)
      end
  end.

(** [s.split(':')[0]]: what comes before the first colon. *)
Fixpoint beforeColon (s : string) : string :=
  match s with
  | EmptyString => EmptyString
  | String c rest => if (JS.code c =? 58)%N then EmptyString else String c (beforeColon rest)
  end.

(** [names.includes(name)] *)
Definition includes (names : list string) (name : string) : bool :=
  existsb (String.eqb name) names.

Record OllamaProvider : Type := mkOllamaProvider {
  model : string;
  baseUrl : string
}.

(** [constructor(model = 'llama3.2', baseUrl = 'http://localhost:11434')];
    an argument left out or [undefined] takes the default. *)
Definition constructor (model baseUrl : option string) : OllamaProvider :=
  mkOllamaProvider (default "llama3.2" model)
    (stripTrailingSlash (default "http://localhost:11434" baseUrl)).

Inductive request : Type :=
| GetTags (url : string)                             (* GET url *)
| PostChat (url model systemPrompt prompt : string). (* POST url, with the body *)

Record json : Type := mkJson {
  j_models : option (list (option string));  (* data.models, each with its name *)
  j_content : option string                  (* data.message?.content *)
}.

Record response : Type := mkResponse {
  ok : bool;
  status : Z;
  text : string;                (* await response.text() *)
  body : option json            (* await response.json(); [None]: not JSON *)
}.

Inductive rejection : Type :=
| ConnectionRefused             (* error.code === 'ECONNREFUSED' *)
| OtherFailure (message : string).

Inductive answer : Type :=
| Rejected (why : rejection)    (* fetch rejects *)
| Responded (r : response).

Inductive error : Type :=
| CannotConnect (baseUrl : string)   (* Cannot connect to Ollama at baseUrl... *)
| NotResponding                      (* Ollama server is not responding correctly *)
| ModelNotFound (model : string) (available : list string)
| ApiError (status : Z) (text : string)   (* Ollama API error (status): text *)
| NoMessage                          (* No commit message generated from Ollama *)
| FetchError (message : string)      (* a rejection of fetch, passed on *)
| SyntaxError                        (* response.json() on a body that is not JSON *)
| TypeError.                         (* m.name.split on a model without a name *)

Definition fetchEnv : Type := nat -> request -> answer.

(** The requests sent so far. *)
Definition log : Type := list request.

Definition fetch (E : fetchEnv) (req : request) (sent : log) : answer * log :=
  (E (List.length sent) req, (sent ++ [req])%list).

(** [models.map((m) => m.name.split(':')[0])]: fails on the first model
    without a name. *)
Fixpoint modelNames (models : list (option string)) : option (list string) :=
  match models with
  | [] => Some []
  | Some name :: rest =>
      match modelNames rest with
      | Some names => Some (beforeColon name :: names)
      | None => None
      end
  | None :: _ => None
  end.

(** [catch (error) { if (error.code === 'ECONNREFUSED') ...; throw error }]
    on a rejection of [fetch]. *)
Definition rethrown (this : OllamaProvider) (why : rejection) : error :=
  match why with
  | ConnectionRefused => CannotConnect (baseUrl this)
  | OtherFailure message => FetchError message
  end.

Definition checkConnection (E : fetchEnv) (this : OllamaProvider) (sent : log)
  : (error + unit) * log :=
  let '(a, sent) := fetch E (GetTags (baseUrl this ++ "/api/tags")) sent in
  match a with
  | Responded r =>
      if negb (ok r) then (inl NotResponding, sent)
      else match body r with
           | None => (inl SyntaxError, sent)
           | Some data =>
               let models := default [] (j_models data) in
               match modelNames models with
               | None => (inl TypeError, sent)
               | Some names =>
                   if negb (includes names (beforeColon (model this)))
                   then (inl (ModelNotFound (model this) names), sent)
                   else (inr tt, sent)
               end
           end
  | Rejected why => (inl (rethrown this why), sent)
  end.

Definition generateCommitMessage (E : fetchEnv) (this : OllamaProvider)
    (prompt systemPrompt : string) (sent : log) : (error + string) * log :=
  let url := baseUrl this ++ "/api/chat" in
  (* Check if Ollama is running *)
  match checkConnection E this sent with
  | (inl e, sent) => (inl e, sent)
  | (inr _, sent) =>
      let '(a, sent) := fetch E (PostChat url (model this) systemPrompt prompt) sent in
      match a with
      | Responded r =>
          if negb (ok r) then (inl (ApiError (status r) (text r)), sent)
          else match body r with
               | None => (inl SyntaxError, sent)
               | Some data =>
                   let message := option_map JS.trim (j_content data) in
                   if negb (truthyStr message) then (inl NoMessage, sent)
                   else (inr (default EmptyString message), sent)
               end
      | Rejected why => (inl (rethrown this why), sent)
      end
  end.

(** [getName()] *)
Definition getName (this : OllamaProvider) : string :=
  "Ollama (" ++ model this ++ ")".

(** A name without a colon. *)
Fixpoint noColon (s : string) : bool :=
  match s with
  | EmptyString => true
  | String c rest => negb (JS.code c =? 58)%N && noColon rest
  end.

(** The tags endpoint answers with these model names. *)
Definition tagsAnswer (names : list string) : answer :=
  Responded (mkResponse true 200 EmptyString (Some (mkJson (Some (map Some names)) None))).

End Ollama.
(* ================================================================== *)
(** * Properties *)

(** ** The rubric *)

Lemma score_is_sum (this : Options) (message : string) :
  score (assessCommitQuality this message)
  = (checkConventional message).1 + (checkLength message).1
    + (checkDescriptive message).1 + (checkPresentTense message).1
    + (checkNoTrailingPeriod message).1.
Proof.
  unfold assessCommitQuality, rubric. cbn [fold_left].
  destruct (checkConventional message), (checkLength message),
    (checkDescriptive message), (checkPresentTense message),
    (checkNoTrailingPeriod message); cbn. lia.
Qed.

Lemma isWellFormed_threshold (this : Options) (message : string) :
  isWellFormed (assessCommitQuality this message)
  = (orNum (o_minQualityScore this) 7 <=? score (assessCommitQuality this message)).
Proof.
  unfold assessCommitQuality.
  destruct (fold_left _ rubric _) as [sc rs]. cbn. apply Z.geb_leb.
Qed.

Lemma checkConventional_points m : (checkConventional m).1 = 0 \/ (checkConventional m).1 = 4.
Proof. unfold checkConventional. destruct (Regex.test _ _); cbn; auto. Qed.

Lemma checkLength_points m : (checkLength m).1 = 0 \/ (checkLength m).1 = 2.
Proof.
  unfold checkLength.
  destruct (_ && _); cbn; auto. destruct (_ <? _); cbn; auto.
Qed.

Lemma checkDescriptive_points m : (checkDescriptive m).1 = 0 \/ (checkDescriptive m).1 = 2.
Proof. unfold checkDescriptive. destruct (negb _); cbn; auto. Qed.

Lemma checkPresentTense_points m : (checkPresentTense m).1 = 0 \/ (checkPresentTense m).1 = 1.
Proof. unfold checkPresentTense. destruct (Regex.test _ _); cbn; auto. Qed.

Lemma checkNoTrailingPeriod_points m :
  (checkNoTrailingPeriod m).1 = 0 \/ (checkNoTrailingPeriod m).1 = 1.
Proof. unfold checkNoTrailingPeriod. destruct (negb _); cbn; auto. Qed.

Lemma score_range (this : Options) (message : string) :
  0 <= score (assessCommitQuality this message) <= 10.
Proof.
  rewrite score_is_sum.
  pose proof (checkConventional_points message).
  pose proof (checkLength_points message).
  pose proof (checkDescriptive_points message).
  pose proof (checkPresentTense_points message).
  pose proof (checkNoTrailingPeriod_points message).
  lia.
Qed.

Lemma score_ignores_options (this that : Options) (message : string) :
  score (assessCommitQuality this message) = score (assessCommitQuality that message).
Proof. by rewrite !score_is_sum. Qed.

(** C3. For every message the score lies in [0, 10], and for every
    threshold from 1 to 10 the flag [isWellFormed] is exactly
    [score >= threshold]. *)
Theorem assess_score_range_and_flag (this : Options) (message : string) (threshold : Z) :
  1 <= threshold <= 10 ->
  let q := assessCommitQuality (withMinQualityScore (Some threshold) this) message in
  0 <= score q <= 10 /\ isWellFormed q = (score q >=? threshold).
Proof.
  intros Ht q. split; [apply score_range|].
  subst q. rewrite isWellFormed_threshold, Z.geb_leb. cbn.
  destruct (threshold =? 0) eqn:E0; [lia | reflexivity].
Qed.

Lemma assess_score_range_and_flag_witness :
  let q := assessCommitQuality (withMinQualityScore (Some 7) plainOptions)
                               "feat(auth): add JWT refresh handling" in
  0 <= score q <= 10 /\ isWellFormed q = (score q >=? 7).
Proof. apply (assess_score_range_and_flag plainOptions _ 7). lia. Defined.

(** C9. With [minQualityScore] 0 or not given, the threshold in force is
    7: [isWellFormed] is [score >= 7], and a message scoring below 7 is
    not well-formed. *)
Theorem zero_threshold_means_seven (envKey : option string) (options : RewriteOptions)
    (this : Options) (message : string) :
  constructor envKey options = inr this ->
  minQualityScore options = Value 0 \/ minQualityScore options = Undefined
    \/ minQualityScore options = Absent ->
  isWellFormed (assessCommitQuality this message)
    = (score (assessCommitQuality this message) >=? 7)
  /\ isWellFormed (assessCommitQuality this "fix") = false.
Proof.
  intros Hc Hmin. unfold constructor in Hc.
  destruct (negb _); [discriminate|]. injection Hc as <-.
  rewrite !isWellFormed_threshold, Z.geb_leb. cbn [o_minQualityScore].
  assert (Hor : orNum (spreadOver (Some 7) (minQualityScore options)) 7 = 7)
    by (destruct Hmin as [-> | [-> | ->]]; reflexivity).
  rewrite Hor. split; [reflexivity|].
  rewrite score_is_sum. vm_compute. reflexivity.
Qed.

Lemma zero_threshold_means_seven_witness :
  isWellFormed (assessCommitQuality zeroThresholdRewriter "minor tweaks")
    = (score (assessCommitQuality zeroThresholdRewriter "minor tweaks") >=? 7)
  /\ isWellFormed (assessCommitQuality zeroThresholdRewriter "fix") = false.
Proof.
  apply (zero_threshold_means_seven None zeroThresholdOptions zeroThresholdRewriter
           "minor tweaks").
  - reflexivity.
  - left. reflexivity.
Defined.

Lemma lower_is_no_separator (c : ascii) (rest : string) :
  JS.isLowerAZ c = true ->
  JS.stripPrefix "(" (String c rest) = None
  /\ JS.stripPrefix ": " (String c rest) = None.
Proof.
  unfold JS.isLowerAZ. intros Hc.
  apply andb_true_iff in Hc as [H1 H2].
  apply N.leb_le in H1. apply N.leb_le in H2.
  cbn [JS.stripPrefix].
  change (JS.code "(") with 40%N. change (JS.code ":") with 58%N.
  split.
  - destruct (40 =? JS.code c)%N eqn:Heq; [apply N.eqb_eq in Heq; lia | reflexivity].
  - destruct (58 =? JS.code c)%N eqn:Heq; [apply N.eqb_eq in Heq; lia | reflexivity].
Qed.

(** C4 (as the code behaves). A message that starts with a lower-case
    letter and carries no conventional type gets no present-tense point:
    the pattern makes the type and the scope optional but still requires
    the colon and the space. *)
Theorem lowercase_start_without_prefix_gets_no_point (c : ascii) (rest : string) :
  JS.isLowerAZ c = true ->
  startsWithType (String c rest) = false ->
  checkPresentTense (String c rest) = (0, []).
Proof.
  intros Hc Ht.
  destruct (lower_is_no_separator c rest Hc) as [Hparen Hcolon].
  unfold checkPresentTense, Regex.test, presentTensePattern, scopeGroup.
  unfold startsWithType in Ht. cbn [existsb commitTypes] in Ht.
  repeat (apply orb_false_elim in Ht as [? Ht]).
  cbn [Regex.run Regex.alts commitTypes].
  repeat match goal with
         | H : match ?x with Some _ => true | None => false end = false |- _ =>
             destruct x eqn:?; [discriminate H|]; clear H
         end.
  rewrite Hparen, Hcolon. reflexivity.
Qed.

Lemma lowercase_start_without_prefix_gets_no_point_witness :
  checkPresentTense "add user login page" = (0, [])
  /\ score (assessCommitQuality plainOptions "add user login page") = 5.
Proof.
  split.
  - apply (lowercase_start_without_prefix_gets_no_point "a" "dd user login page");
      reflexivity.
  - vm_compute. reflexivity.
Defined.

(** ** The present-tense pattern, read as a language *)

Lemma append_assoc (a b c : string) : (a ++ b) ++ c = a ++ b ++ c.
Proof. induction a as [|x a IH]; cbn; [reflexivity | by rewrite IH]. Qed.

Lemma code_inj (a b : ascii) : JS.code a = JS.code b -> a = b.
Proof.
  unfold JS.code. intros H.
  by rewrite <- (ascii_N_embedding a), <- (ascii_N_embedding b), H.
Qed.

Lemma stripPrefix_iff (p s r : string) :
  JS.stripPrefix p s = Some r <-> s = p ++ r.
Proof.
  revert s. induction p as [|a p IH]; intros s; cbn.
  - split; [by intros [= ->] | by intros ->].
  - destruct s as [|b s]; [split; discriminate|].
    destruct (JS.code a =? JS.code b)%N eqn:Hab.
    + apply N.eqb_eq, code_inj in Hab as ->. rewrite IH.
      split; [by intros -> | by intros [= ->]].
    + split; [discriminate|]. intros [= -> _].
      by rewrite N.eqb_refl in Hab.
Qed.

Lemma run_Lit (l s : string) (k : string -> bool) :
  Regex.run (Regex.Lit l) s k = true <-> exists r, s = l ++ r /\ k r = true.
Proof.
  cbn. destruct (JS.stripPrefix l s) as [r|] eqn:Hs.
  - apply stripPrefix_iff in Hs as ->. split; [eauto|].
    intros (r' & Heq & Hk). by apply String.app_inj in Heq as <-.
  - split; [discriminate|]. intros (r & Heq & _).
    apply stripPrefix_iff in Heq. congruence.
Qed.

Lemma plusClass_iff (p : ascii -> bool) (s : string) (k : string -> bool) :
  Regex.plusClass p s k = true
  <-> exists body r, body <> EmptyString /\ allUnits p body = true
                     /\ s = body ++ r /\ k r = true.
Proof.
  induction s as [|c s IH]; cbn.
  - split; [discriminate|]. intros (body & r & Hne & _ & Heq & _).
    destruct body; [done | discriminate].
  - rewrite andb_true_iff, orb_true_iff, IH. split.
    + intros [Hc [(body & r & Hne & Hall & -> & Hk) | Hk]].
      * exists (String c body), r. cbn. rewrite Hc, Hall. done.
      * exists (String c EmptyString), s. cbn. rewrite Hc. done.
    + intros (body & r & Hne & Hall & Heq & Hk).
      destruct body as [|b body]; [done|]. cbn in Hall, Heq.
      injection Heq as <- ->. apply andb_true_iff in Hall as [Hc Hall].
      split; [done|]. destruct body as [|b' body]; [by right|].
      left. exists (String b' body), r. done.
Qed.

Lemma run_Seq (a b : Regex.regex) (s : string) (k : string -> bool) :
  Regex.run (Regex.Seq a b) s k = Regex.run a s (fun r => Regex.run b r k).
Proof. reflexivity. Qed.

Lemma run_Alt (a b : Regex.regex) (s : string) (k : string -> bool) :
  Regex.run (Regex.Alt a b) s k = Regex.run a s k || Regex.run b s k.
Proof. reflexivity. Qed.

Lemma run_Opt (a : Regex.regex) (s : string) (k : string -> bool) :
  Regex.run (Regex.Opt a) s k = Regex.run a s k || k s.
Proof. reflexivity. Qed.

Lemma run_alts (ws : list string) (s : string) (k : string -> bool) :
  Regex.run (Regex.alts ws) s k = true
  <-> exists t r, In t ws /\ s = t ++ r /\ k r = true.
Proof.
  induction ws as [|w ws IH].
  - cbn. split; [by destruct s | by intros (? & ? & [] & _)].
  - destruct ws as [|w2 ws].
    + cbn [Regex.alts]. rewrite run_Lit. split.
      * intros (r & -> & Hk). exists w, r. cbn. auto.
      * intros (t & r & [<- | []] & -> & Hk). eauto.
    + cbn [Regex.alts]. rewrite run_Alt, orb_true_iff, run_Lit, IH. split.
      * intros [(r & -> & Hk) | (t & r & Hin & -> & Hk)].
        -- exists w, r. cbn. auto.
        -- exists t, r. split; [by right | done].
      * intros (t & r & [<- | Hin] & -> & Hk); [left; eauto | right; eauto].
Qed.

Lemma run_scopeGroup (s : string) (k : string -> bool) :
  Regex.run (Regex.Opt scopeGroup) s k = true
  <-> exists sc r, scopeText sc /\ s = sc ++ r /\ k r = true.
Proof.
  rewrite run_Opt, orb_true_iff. unfold scopeGroup. rewrite !run_Seq. split.
  - intros [Hscope | Hk].
    + apply (run_Lit "(") in Hscope as (r1 & -> & Hplus).
      cbn [Regex.run] in Hplus.
      apply plusClass_iff in Hplus as (body & r2 & Hne & Hall & -> & Hclose).
      apply (run_Lit ")") in Hclose as (r3 & -> & Hk).
      exists ("(" ++ body ++ ")"), r3. split; [right; eauto|].
      split; [|done]. cbn. f_equal. by rewrite append_assoc.
    + exists EmptyString, s. split; [by left | done].
  - intros (sc & r & [-> | (body & Hne & Hall & ->)] & -> & Hk); [by right|].
    left. apply (run_Lit "("). exists (body ++ ")" ++ r). split.
    + cbn. f_equal. by rewrite append_assoc.
    + cbn [Regex.run]. apply plusClass_iff. exists body, (")" ++ r).
      split_and!; done.
Qed.

(** The present-tense point is given exactly to the messages of the
    shape [type? scope? ": " lower-case letter]: the separator is not
    optional. *)
Lemma present_tense_point_iff (message : string) :
  checkPresentTense message = (1, ["uses present tense"])
  <-> presentTenseShape message.
Proof.
  unfold checkPresentTense, Regex.test, presentTensePattern.
  assert (Htail : forall s,
             Regex.run (Regex.Seq (Regex.Lit ": ") (Regex.Class JS.isLowerAZ)) s
                       (fun _ => true) = true
             <-> exists c rest, s = ": " ++ String c rest /\ JS.isLowerAZ c = true).
  { intros s. rewrite run_Seq, (run_Lit ": "). split.
    - intros (r & -> & Hc). destruct r as [|c rest]; [done|].
      cbn in Hc. apply andb_true_iff in Hc as [Hc _]. eauto.
    - intros (c & rest & -> & Hc). exists (String c rest). cbn. by rewrite Hc. }
  assert (Hrest : forall s,
             Regex.run (Regex.Seq (Regex.Opt scopeGroup)
                          (Regex.Seq (Regex.Lit ": ") (Regex.Class JS.isLowerAZ)))
                       s (fun _ => true) = true
             <-> exists sc c rest, scopeText sc /\ s = sc ++ ": " ++ String c rest
                                   /\ JS.isLowerAZ c = true).
  { intros s. rewrite run_Seq, run_scopeGroup. split.
    - intros (sc & r & Hsc & -> & (c & rest & -> & Hc)%Htail). eauto 10.
    - intros (sc & c & rest & Hsc & -> & Hc). exists sc, (": " ++ String c rest).
      split_and!; try done. apply Htail. eauto. }
  rewrite run_Seq, run_Opt. unfold presentTenseShape.
  destruct (_ || _) eqn:Hm.
  - split; [intros _ | done].
    apply orb_true_iff in Hm as [Hm | Hm].
    + apply run_alts in Hm as (t & r & Hin & -> & (sc & c & rest & Hsc & -> & Hc)%Hrest).
      exists t, sc, c, rest. auto.
    + apply Hrest in Hm as (sc & c & rest & Hsc & -> & Hc).
      exists EmptyString, sc, c, rest. auto.
  - split; [discriminate|]. intros (t & sc & c & rest & -> & Ht & Hsc & Hc).
    apply orb_false_iff in Hm as [Hm1 Hm2]. destruct Ht as [-> | Hin].
    + assert (Hyes : Regex.run
                   (Regex.Seq (Regex.Opt scopeGroup)
                      (Regex.Seq (Regex.Lit ": ") (Regex.Class JS.isLowerAZ)))
                   (sc ++ ": " ++ String c rest) (fun _ => true) = true)
        by (apply Hrest; eauto 10).
      change (EmptyString ++ ?x) with x in Hm2. congruence.
    + assert (Hyes : Regex.run (Regex.alts commitTypes)
                       (t ++ sc ++ ": " ++ String c rest)
                       (fun r => Regex.run
                          (Regex.Seq (Regex.Opt scopeGroup)
                             (Regex.Seq (Regex.Lit ": ") (Regex.Class JS.isLowerAZ)))
                          r (fun _ => true)) = true).
      { apply run_alts. exists t, (sc ++ ": " ++ String c rest).
        split_and!; try done. apply Hrest. eauto 10. }
      congruence.
Qed.


(** ** Reading git's line-oriented output *)

Lemma append_empty_r (s : string) : s ++ EmptyString = s.
Proof. induction s as [|c s IH]; cbn; [reflexivity | by rewrite IH]. Qed.

Lemma append_is_empty (a b : string) : a ++ b = EmptyString -> a = EmptyString /\ b = EmptyString.
Proof. destruct a; cbn; [auto | discriminate]. Qed.

Lemma noSpace_not_newline (c : ascii) :
  JS.isWhiteSpace c = false -> (JS.code c =? 10)%N = false.
Proof.
  unfold JS.isWhiteSpace. intros H.
  destruct (JS.code c =? 10)%N eqn:Heq; [|reflexivity].
  apply N.eqb_eq in Heq. rewrite Heq in H. discriminate H.
Qed.

Lemma validHash_inv (h : string) :
  validHash h = true ->
  exists c rest, h = String c rest /\ JS.isWhiteSpace c = false /\ noSpace rest = true.
Proof.
  unfold validHash. destruct h as [|c rest]; cbn; [discriminate|].
  intros [Hc Hr]%andb_true_iff. exists c, rest.
  by destruct (JS.isWhiteSpace c).
Qed.

Lemma validHash_noSpace (h : string) : validHash h = true -> noSpace h = true.
Proof. unfold validHash. by intros [_ ?]%andb_true_iff. Qed.

Lemma trimStart_valid (h s : string) :
  validHash h = true -> JS.trimStart (h ++ s) = h ++ s.
Proof.
  intros (c & rest & -> & Hc & _)%validHash_inv. cbn. by rewrite Hc.
Qed.

Lemma trimEnd_app (a b : string) :
  JS.trimEnd b <> EmptyString -> JS.trimEnd (a ++ b) = a ++ JS.trimEnd b.
Proof.
  intros Hb. induction a as [|c a IH]; cbn; [reflexivity|].
  rewrite IH. destruct (a ++ JS.trimEnd b) eqn:Heq; [|reflexivity].
  apply append_is_empty in Heq as [_ ?]. contradiction.
Qed.

Lemma trimEnd_line (h : string) :
  noSpace h = true -> JS.trimEnd (h ++ newline) = h.
Proof.
  induction h as [|c h IH]; cbn; [reflexivity|].
  intros [Hc Hh]%andb_true_iff. rewrite (IH Hh).
  apply negb_true_iff in Hc. rewrite Hc. by destruct h.
Qed.

Lemma join_cons_cons (sep x y : string) (rest : list string) :
  JS.join sep (x :: y :: rest) = x ++ sep ++ JS.join sep (y :: rest).
Proof. reflexivity. Qed.

Lemma join_valid_not_empty (h : string) (rest : list string) :
  validHash h = true -> JS.join newline (h :: rest) <> EmptyString.
Proof.
  intros (c & r & -> & _)%validHash_inv. destruct rest; cbn; discriminate.
Qed.

Lemma trimEnd_unlines (hs : list string) :
  Forall (fun h => validHash h = true) hs ->
  JS.trimEnd (unlines hs) = JS.join newline hs.
Proof.
  induction 1 as [|h rest Hh Hrest IH]; [reflexivity|].
  destruct rest as [|h2 rest].
  - cbn. change (h ++ String "010" EmptyString) with (h ++ newline).
    apply trimEnd_line. by apply validHash_noSpace.
  - rewrite join_cons_cons. change (unlines (h :: h2 :: rest))
      with (h ++ newline ++ unlines (h2 :: rest)).
    assert (Hne : JS.join newline (h2 :: rest) <> EmptyString)
      by (apply join_valid_not_empty; by inversion Hrest).
    rewrite <- IH in Hne |- *.
    rewrite trimEnd_app; [rewrite (trimEnd_app newline); done|].
    rewrite (trimEnd_app newline); [|done]. discriminate.
Qed.

Lemma trim_unlines (hs : list string) :
  Forall (fun h => validHash h = true) hs ->
  JS.trim (unlines hs) = JS.join newline hs.
Proof.
  intros Hall. unfold JS.trim.
  destruct Hall as [|h rest Hh Hrest]; [reflexivity|].
  change (unlines (h :: rest)) with (h ++ newline ++ unlines rest).
  rewrite trimStart_valid by done.
  change (h ++ newline ++ unlines rest) with (unlines (h :: rest)).
  apply trimEnd_unlines. by constructor.
Qed.

Lemma splitLines_not_nil (s : string) : JS.splitLines s <> [].
Proof.
  induction s as [|c s IH]; cbn; [discriminate|].
  destruct (JS.code c =? 10)%N; [discriminate|].
  destruct (JS.splitLines s); [contradiction | discriminate].
Qed.

Lemma splitLines_app (h s : string) :
  noSpace h = true ->
  JS.splitLines (h ++ s)
  = (h ++ hd EmptyString (JS.splitLines s)) :: tl (JS.splitLines s).
Proof.
  induction h as [|c h IH]; cbn.
  - intros _. pose proof (splitLines_not_nil s). by destruct (JS.splitLines s).
  - intros [Hc Hh]%andb_true_iff. apply negb_true_iff, noSpace_not_newline in Hc.
    rewrite Hc, (IH Hh). reflexivity.
Qed.

Lemma splitLines_join (hs : list string) :
  Forall (fun h => validHash h = true) hs -> hs <> [] ->
  JS.splitLines (JS.join newline hs) = hs.
Proof.
  induction 1 as [|h rest Hh Hrest IH]; [done|]. intros _.
  apply validHash_noSpace in Hh.
  destruct rest as [|h2 rest].
  - cbn [JS.join]. rewrite <- (append_empty_r h) at 1.
    rewrite splitLines_app by done. cbn. by rewrite append_empty_r.
  - rewrite join_cons_cons, splitLines_app by done.
    change (JS.splitLines (newline ++ JS.join newline (h2 :: rest)))
      with (EmptyString :: JS.splitLines (JS.join newline (h2 :: rest))).
    cbn [hd tl]. rewrite append_empty_r, IH; done.
Qed.

Lemma filterBoolean_valid (hs : list string) :
  Forall (fun h => validHash h = true) hs -> JS.filterBoolean hs = hs.
Proof.
  induction 1 as [|h rest Hh Hrest IH]; [reflexivity|].
  unfold JS.filterBoolean in *. cbn. rewrite IH.
  apply validHash_inv in Hh as (c & r & -> & _). reflexivity.
Qed.

(** The ids git prints, one per line, are read back as they are. *)
Lemma read_hash_lines (hs : list string) :
  Forall (fun h => validHash h = true) hs ->
  JS.filterBoolean (JS.splitLines (JS.trim (unlines hs))) = hs.
Proof.
  intros Hall. rewrite trim_unlines by done.
  destruct hs as [|h rest]; [reflexivity|].
  rewrite splitLines_join by done. by apply filterBoolean_valid.
Qed.

(** ** Running commands *)

Lemma execCommand_runs (E : env) (cmd : command) (w : world) :
  e_breaks E (w_commands w) cmd = false ->
  execCommand E cmd w
  = tryCatch (git E cmd)
      (fun e => throw (CommandFailed cmd
                         match e with Error m => m | CommandFailed _ m => m end))
      (setCommands (S (w_commands w)) w).
Proof. intros Hb. unfold execCommand. by rewrite Hb. Qed.

Lemma execCommand_breaks (E : env) (cmd : command) (w : world) :
  e_breaks E (w_commands w) cmd = true ->
  execCommand E cmd w
  = (Throw (CommandFailed cmd "spawnSync ENOBUFS"), setCommands (S (w_commands w)) w).
Proof. intros Hb. unfold execCommand. by rewrite Hb. Qed.

(** ** Enumeration *)

Lemma getCommits_reads_history (E : env) (this : Options) (w : world) :
  e_breaks E (w_commands w) GitRevListReverseHead = false ->
  Forall (fun h => validHash h = true) (map c_hash (w_history w)) ->
  getCommits E this w
  = (Ok (limitCommits this (map c_hash (w_history w))), setCommands (S (w_commands w)) w).
Proof.
  intros Hb Hvalid. unfold getCommits, bind.
  rewrite execCommand_runs by done.
  cbn [tryCatch git w_history setCommands ret].
  by rewrite read_hash_lines.
Qed.

Lemma limitCommits_positive (this : Options) (N : Z) (commits : list string) :
  0 < N ->
  limitCommits (withMaxCommits (Some N) this) commits = lastN (Z.to_nat N) commits.
Proof.
  intros HN. unfold limitCommits, lastN, JS.slice. cbn.
  replace (N =? 0) with false by lia. replace (N >? 0) with true by lia. cbn.
  f_equal. lia.
Qed.

Lemma limitCommits_unset (this : Options) (commits : list string) :
  o_maxCommits this = None -> limitCommits this commits = commits.
Proof. intros H. unfold limitCommits. by rewrite H. Qed.

Lemma lastN_length {A} (n : nat) (xs : list A) :
  List.length (lastN n xs) = Nat.min n (List.length xs).
Proof. unfold lastN. rewrite length_drop. lia. Qed.

Lemma lastN_suffix {A} (n : nat) (xs : list A) :
  (take (List.length xs - n) xs ++ lastN n xs)%list = xs.
Proof. unfold lastN. apply take_drop. Qed.

(** C5. With a positive limit N, [getCommits] returns the last
    min(N, total) ids of the oldest-first history, in the same order. *)
Theorem getCommits_returns_most_recent (E : env) (this : Options) (w : world) (N : Z) :
  0 < N ->
  e_breaks E (w_commands w) GitRevListReverseHead = false ->
  Forall (fun h => validHash h = true) (map c_hash (w_history w)) ->
  let all := map c_hash (w_history w) in
  exists recent w',
    getCommits E (withMaxCommits (Some N) this) w = (Ok recent, w')
    /\ List.length recent = Nat.min (Z.to_nat N) (List.length all)
    /\ (exists older, all = (older ++ recent)%list)
    /\ recent = lastN (Z.to_nat N) all.
Proof.
  intros HN Hb Hvalid all.
  exists (lastN (Z.to_nat N) all), (setCommands (S (w_commands w)) w).
  split; [|split; [|split]].
  - rewrite getCommits_reads_history by done. by rewrite limitCommits_positive.
  - apply lastN_length.
  - exists (take (List.length all - Z.to_nat N) all). by rewrite lastN_suffix.
  - reflexivity.
Qed.

(** The scenario of the specification: three commits, limit two. *)
Lemma getCommits_returns_most_recent_witness :
  exists recent w',
    getCommits (sampleEnv helpfulProvider neverBreaks)
               (withMaxCommits (Some 2) plainOptions) (freshWorld sampleHistory)
    = (Ok recent, w')
    /\ List.length recent = Nat.min (Z.to_nat 2) (List.length ["a1f0"; "b2e1"; "c3d2"])
    /\ (exists older, ["a1f0"; "b2e1"; "c3d2"] = (older ++ recent)%list)
    /\ recent = lastN (Z.to_nat 2) ["a1f0"; "b2e1"; "c3d2"].
Proof.
  apply (getCommits_returns_most_recent (sampleEnv helpfulProvider neverBreaks)
           plainOptions (freshWorld sampleHistory) 2).
  - lia.
  - reflexivity.
  - repeat constructor.
Defined.

Example three_commits_limit_two :
  (getCommits (sampleEnv helpfulProvider neverBreaks)
              (withMaxCommits (Some 2) plainOptions) (freshWorld sampleHistory)).1
  = Ok ["b2e1"; "c3d2"].
Proof. vm_compute. reflexivity. Qed.

(** ** Frame rules *)

Section FrameRules.

Context {R : world -> world -> Prop} {okEvent : event -> Prop}.
Context `{!Frame R okEvent}.
Variable E : env.
Variable this : Options.

Lemma keeps_ret {A} (a : A) : keeps R (ret a).
Proof. intros w. apply frame_refl. Qed.

Lemma keeps_throw {A} (e : error) : keeps R (@throw A e).
Proof. intros w. apply frame_refl. Qed.

Lemma keeps_exit {A} (c : Z) : keeps R (@exit A c).
Proof. intros w. apply frame_refl. Qed.

Lemma keeps_bind {A B} (m : M A) (f : A -> M B) :
  keeps R m -> (forall a, keeps R (f a)) -> keeps R (bind m f).
Proof.
  intros Hm Hf w. unfold bind. specialize (Hm w).
  destruct (m w) as [[a | e | c] w1]; cbn in *; [|done..].
  eapply frame_trans; [exact Hm | apply Hf].
Qed.

Lemma keeps_tryCatch {A} (m : M A) (h : error -> M A) :
  keeps R m -> (forall e, keeps R (h e)) -> keeps R (tryCatch m h).
Proof.
  intros Hm Hh w. unfold tryCatch. specialize (Hm w).
  destruct (m w) as [[a | e | c] w1]; cbn in *; [done| |done].
  eapply frame_trans; [exact Hm | apply Hh].
Qed.

Lemma keeps_tryFinally {A} (m : M A) (cleanup : M unit) :
  keeps R m -> keeps R cleanup -> keeps R (tryFinally m cleanup).
Proof.
  intros Hm Hc w. unfold tryFinally. specialize (Hm w).
  destruct (m w) as [[a | e | c] w1]; cbn in *; [| |done].
  - eapply frame_trans; [exact Hm|].
    apply keeps_bind; [done | intros; apply keeps_ret].
  - eapply frame_trans; [exact Hm|].
    apply keeps_bind; [done | intros; apply keeps_throw].
Qed.

Lemma keeps_when (b : bool) (m : M unit) : keeps R m -> keeps R (when b m).
Proof. destruct b; [done | intros _; apply keeps_ret]. Qed.

Lemma keeps_emit (ev : event) : okEvent ev -> keeps R (emit ev).
Proof. intros Hok w. by apply frame_event. Qed.

Lemma keeps_askConfirmation (q : string) :
  okEvent (Asked q) -> keeps R (askConfirmation E q).
Proof.
  intros Hok w. cbn.
  eapply frame_trans; [by apply (frame_event w (Asked q))|].
  apply frame_questions.
Qed.

Lemma git_readOnly (cmd : command) (w : world) :
  readOnly cmd = true -> (git E cmd w).2 = w.
Proof.
  destruct cmd; try discriminate; intros _; cbn;
    repeat match goal with
           | |- context [if ?b then _ else _] => destruct b
           | |- context [match findCommit ?h ?l with _ => _ end] =>
               destruct (findCommit h l)
           end; reflexivity.
Qed.

Lemma keeps_execCommand (cmd : command) :
  readOnly cmd = true -> keeps R (execCommand E cmd).
Proof.
  intros Hro w. unfold execCommand.
  destruct (e_breaks E (w_commands w) cmd); [apply frame_commands|].
  unfold tryCatch.
  pose proof (git_readOnly cmd (setCommands (S (w_commands w)) w) Hro) as Hgit.
  destruct (git E cmd _) as [[a | e | c] w1]; cbn in *; subst w1;
    apply frame_commands.
Qed.

Lemma keeps_create (req : request) : keeps R (create E req).
Proof.
  intros w. unfold create.
  destruct (e_provider E (w_requests w) req); apply frame_requests.
Qed.

End FrameRules.

#[local] Instance sameRepository_frame : Frame sameRepository (fun _ => True).
Proof.
  split; unfold sameRepository; try (by intros; cbn).
  intros a b c (-> & -> & ->) (-> & -> & ->). done.
Qed.

#[local] Instance untouched_frame :
  Frame untouched (fun ev => destructiveEvent ev = false).
Proof.
  split; unfold untouched.
  - intros w. split_and!; [done..|]. exists []. by rewrite app_nil_r.
  - intros a b c (-> & -> & evs1 & H1 & F1) (-> & -> & evs2 & H2 & F2).
    split_and!; [done..|]. exists (evs1 ++ evs2)%list.
    rewrite H2, H1, app_assoc. split; [done | by apply Forall_app].
  - intros w n. cbn. split_and!; [done..|]. exists []. by rewrite app_nil_r.
  - intros w n. cbn. split_and!; [done..|]. exists []. by rewrite app_nil_r.
  - intros w n. cbn. split_and!; [done..|]. exists []. by rewrite app_nil_r.
  - intros w ev Hok. cbn. split_and!; [done..|]. exists [ev]. split; [done|].
    by constructor.
Qed.

Lemma keeps_writeFileSync_untouched (path : string) (content : file) :
  keeps untouched (writeFileSync path content).
Proof.
  intros w. cbn. unfold untouched. cbn. split_and!; [done..|].
  exists []. by rewrite app_nil_r.
Qed.

Ltac ok_event := first [exact I | reflexivity].

Ltac keeps_step :=
  lazymatch goal with
  | |- keeps _ (ret _) => apply keeps_ret
  | |- keeps _ (throw _) => apply keeps_throw
  | |- keeps _ (exit _) => apply keeps_exit
  | |- keeps _ (bind _ _) => apply keeps_bind; [|intros ?]
  | |- keeps _ (tryCatch _ _) => apply keeps_tryCatch; [|intros ?]
  | |- keeps _ (tryFinally _ _) => apply keeps_tryFinally
  | |- keeps _ (when _ _) => apply keeps_when
  | |- keeps _ (emit _) => apply keeps_emit; ok_event
  | |- keeps _ (askConfirmation _ _) => apply keeps_askConfirmation; ok_event
  | |- keeps _ (execCommand _ _) => apply keeps_execCommand; reflexivity
  | |- keeps _ (create _ _) => apply keeps_create
  | |- keeps _ (writeFileSync _ _) => apply keeps_writeFileSync_untouched
  | |- keeps _ (if ?b then _ else _) => destruct b
  | |- keeps _ (match ?x with _ => _ end) => destruct x
  end.

Section MethodFrames.

Context {R : world -> world -> Prop} {okEvent : event -> Prop}.
Context `{!Frame R okEvent}.
Hypothesis ok_generation : forall e, okEvent (GenerationError e).
Hypothesis ok_wellFormed : forall h s r, okEvent (AlreadyWellFormed h s r).
Hypothesis ok_processing : forall h m r, okEvent (ProcessingCommit h m r).
Hypothesis ok_improved : forall h m, okEvent (Improved h m).
Hypothesis ok_keeping : forall h, okEvent (KeepingOriginal h).
Hypothesis ok_sleep : forall ms, okEvent (Sleep ms).
Hypothesis ok_error : forall h e, okEvent (ErrorProcessing h e).
Variable E : env.
Variable this : Options.

Lemma keeps_checkGitRepository : keeps R (checkGitRepository E).
Proof. unfold checkGitRepository. repeat keeps_step. Qed.

Lemma keeps_getCurrentBranch : keeps R (getCurrentBranch E).
Proof. unfold getCurrentBranch. repeat keeps_step. Qed.

Lemma keeps_checkUncommittedChanges : keeps R (checkUncommittedChanges E).
Proof. unfold checkUncommittedChanges. repeat keeps_step. Qed.

Lemma keeps_getCommits : keeps R (getCommits E this).
Proof. unfold getCommits. repeat keeps_step. Qed.

Lemma keeps_getCommitInfo (hash : string) (i : nat) :
  keeps R (getCommitInfo E hash i).
Proof. unfold getCommitInfo. repeat keeps_step. Qed.

Lemma keeps_generateCommitMessage diff files oldMessage :
  keeps R (generateCommitMessage E this diff files oldMessage).
Proof.
  unfold generateCommitMessage.
  keeps_step; [repeat keeps_step|].
  keeps_step; [|keeps_step]. keeps_step. by apply keeps_emit.
Qed.

Lemma keeps_generateFor total i info st :
  keeps R (generateFor E this total i info st).
Proof.
  unfold generateFor.
  keeps_step; [apply keeps_generateCommitMessage|].
  keeps_step.
  - keeps_step; (keeps_step; [by apply keeps_emit | keeps_step]).
  - keeps_step; [|keeps_step]. keeps_step. by apply keeps_emit.
Qed.

Lemma keeps_processCommit total i hash st :
  keeps R (processCommit E this total i hash st).
Proof.
  unfold processCommit.
  keeps_step; [apply keeps_getCommitInfo|].
  keeps_step; [keeps_step|];
    (keeps_step; [by apply keeps_emit | first [apply keeps_generateFor | keeps_step]]).
Qed.

Lemma keeps_processCommits total commits : forall i st,
  keeps R (processCommits E this total i commits st).
Proof.
  induction commits as [|hash rest IH]; intros i st; cbn [processCommits].
  - keeps_step.
  - keeps_step; [|apply IH].
    keeps_step; [apply keeps_processCommit|].
    keeps_step; [by apply keeps_emit | keeps_step].
Qed.

Lemma keeps_orderMessages map commits :
  keeps R (orderMessages E map commits).
Proof.
  induction commits as [|commit rest IH]; cbn [orderMessages].
  - keeps_step.
  - keeps_step; [repeat keeps_step|].
    keeps_step; [apply IH | keeps_step].
Qed.

Lemma keeps_buildPlan commits : keeps R (buildPlan E this commits).
Proof.
  unfold buildPlan.
  keeps_step; [apply keeps_processCommits|].
  keeps_step; [apply keeps_orderMessages | keeps_step].
Qed.

End MethodFrames.

(** ** Dry run *)

(** In dry-run mode the run leaves the history and the branches as they
    were and shows nothing of the destructive path, in every
    environment. *)
Lemma dry_run_untouched (E : env) (this : Options) :
  truthyBool (o_dryRun this) = true -> keeps untouched (rewrite E this).
Proof.
  intros Hdry.
  unfold rewrite. rewrite Hdry. cbn [negb when]. 
  keeps_step; [keeps_step|].
  keeps_step; [apply keeps_checkGitRepository|].
  keeps_step; [apply keeps_getCurrentBranch|].
  keeps_step; [keeps_step|].
  keeps_step; [apply keeps_checkUncommittedChanges|].
  keeps_step; [repeat keeps_step|].
  keeps_step; [apply keeps_getCommits|].
  keeps_step; [keeps_step|].
  keeps_step; [keeps_step|].
  keeps_step; [keeps_step|].
  rewrite andb_false_r.
  keeps_step; [keeps_step|].
  keeps_step; [keeps_step|].
  keeps_step; [by apply keeps_buildPlan|].
  keeps_step. repeat keeps_step.
Qed.

(** The scenario of the specification: a dry run over a history with
    improvable commits shows the proposed messages and the summary. *)
Example dry_run_reports_the_plan :
  let run := rewrite (sampleEnv helpfulProvider neverBreaks) dryOptions
                     (freshWorld sampleHistory) in
  run.1 = Ok tt
  /\ w_trace run.2
     = [ Banner; CurrentBranch "main"; Found 3; Generating;
         ProcessingCommit "a1f0" "init" (Some "too short, descriptive, no trailing period");
         Improved "a1f0" "feat(parser): add the parser and the lexer";
         Sleep 500;
         ProcessingCommit "b2e1" "wip" (Some "too short, too generic, no trailing period");
         Improved "b2e1" "feat(cli): add the command line entry point";
         Sleep 500;
         ProcessingCommit "c3d2" "stuff" (Some "too short, descriptive, no trailing period");
         Improved "c3d2" "feat(cli): add the command line entry point";
         Saved 3; Summary 3 (Some 0%nat) 3 3; DryRunCompleted ]
  /\ w_history run.2 = sampleHistory.
Proof. vm_compute. repeat split. Qed.

(** ** Failures of git *)


(** ** Stepping through a method *)

Lemma returns_ret {A} (a : A) (w : world) (P : world -> Prop) :
  P w -> returns (ret a) w a P.
Proof. intros HP. by exists w. Qed.

Lemma returns_bind {A B} (m : M A) (f : A -> M B) (w : world) (a : A) (b : B)
    (P Q : world -> Prop) :
  returns m w a P -> (forall w1, P w1 -> returns (f a) w1 b Q) ->
  returns (bind m f) w b Q.
Proof.
  intros (w1 & Hm & HP) Hf. destruct (Hf w1 HP) as (w2 & Hfa & HQ).
  exists w2. unfold bind. by rewrite Hm.
Qed.

Lemma returns_weaken {A} (m : M A) (w : world) (a : A) (P Q : world -> Prop) :
  returns m w a P -> (forall w1, P w1 -> Q w1) -> returns m w a Q.
Proof. intros (w1 & Hm & HP) HPQ. exists w1. auto. Qed.

Lemma returns_emit (ev : event) (w : world) (P : world -> Prop) :
  P (setTrace (w_trace w ++ [ev])%list w) -> returns (emit ev) w tt P.
Proof. intros HP. by eexists. Qed.

Lemma returns_when (b : bool) (m : M unit) (w : world) (P : world -> Prop) :
  (if b then returns m w tt P else P w) -> returns (when b m) w tt P.
Proof. destruct b; [done | apply returns_ret]. Qed.

Lemma throws_bind {A B} (m : M A) (f : A -> M B) (w : world) (P : world -> Prop) :
  throws m w P -> throws (bind m f) w P.
Proof.
  intros (e & w1 & Hm & HP). exists e, w1. unfold bind. by rewrite Hm.
Qed.

Lemma throws_after {A B} (m : M A) (f : A -> M B) (w : world) (a : A)
    (P Q : world -> Prop) :
  returns m w a P -> (forall w1, P w1 -> throws (f a) w1 Q) -> throws (bind m f) w Q.
Proof.
  intros (w1 & Hm & HP) Hf. destruct (Hf w1 HP) as (e & w2 & Hfa & HQ).
  exists e, w2. unfold bind. by rewrite Hm.
Qed.

Lemma returns_tryCatch {A} (m : M A) (h : error -> M A) (w : world) (a : A)
    (P : world -> Prop) :
  returns m w a P -> returns (tryCatch m h) w a P.
Proof. intros (w1 & Hm & HP). exists w1. unfold tryCatch. by rewrite Hm. Qed.

Lemma returns_caught {A} (m : M A) (h : error -> M A) (w : world) (a : A)
    (P Q : world -> Prop) :
  throws m w P -> (forall e w1, P w1 -> returns (h e) w1 a Q) ->
  returns (tryCatch m h) w a Q.
Proof.
  intros (e & w1 & Hm & HP) Hh. destruct (Hh e w1 HP) as (w2 & Hhe & HQ).
  exists w2. unfold tryCatch. by rewrite Hm.
Qed.

Lemma bind_ok {A B} (m : M A) (f : A -> M B) (w w' : world) (a : A) :
  m w = (Ok a, w') -> bind m f w = f a w'.
Proof. intros Hm. unfold bind. by rewrite Hm. Qed.

Lemma standsAt_trace H n k w t :
  standsAt H n k w -> standsAt H n k (setTrace t w).
Proof. done. Qed.

(** ** Reading one commit *)

Section Reading.

Variable E : env.
Variable this : Options.

Lemma findCommit_hash (h : string) (H : list commit) (c : commit) :
  findCommit h H = Some c -> c_hash c = h.
Proof.
  unfold findCommit. intros Hf. apply find_some in Hf as [_ Heq].
  by apply String.eqb_eq in Heq.
Qed.

(** A read-only command that does not break prints what git prints. *)
Lemma execCommand_prints (cmd : command) (out : string) (H : list commit)
    (n k : nat) (w : world) :
  standsAt H n k w -> readOnly cmd = true ->
  e_breaks E n cmd = false ->
  (forall w0, w_history w0 = H -> (git E cmd w0).1 = Ok out) ->
  returns (execCommand E cmd) w out (standsAt H (S n) k).
Proof.
  intros (HH & Hn & Hk) Hro Hb Hout. subst n.
  unfold returns. rewrite execCommand_runs by done. unfold tryCatch.
  pose proof (git_readOnly E cmd (setCommands (S (w_commands w)) w) Hro) as Hw.
  pose proof (Hout (setCommands (S (w_commands w)) w) HH) as Hr.
  destruct (git E cmd _) as [r w1]. cbn in Hw, Hr. subst r w1.
  eexists. split; [reflexivity|]. done.
Qed.

Lemma execCommand_stops (cmd : command) (H : list commit) (n k : nat) (w : world) :
  standsAt H n k w -> e_breaks E n cmd = true ->
  throws (execCommand E cmd) w (standsAt H (S n) k).
Proof.
  intros (HH & Hn & Hk) Hb. subst n.
  unfold throws. rewrite execCommand_breaks by done. do 2 eexists. split; [reflexivity|]. done.
Qed.

Lemma getCommitInfo_reads (h : string) (i : nat) (c : commit) (H : list commit)
    (n k n' : nat) (w : world) :
  standsAt H n k w ->
  findCommit h H = Some c ->
  (i <> 0%nat -> isRoot h H = false) ->
  runReads E n (readsOf h i) = (true, n') ->
  returns (getCommitInfo E h i) w (infoOf E H c i) (standsAt H n' k).
Proof.
  intros Hw Hfind Hroot Hreads.
  pose proof (findCommit_hash _ _ _ Hfind) as Hhash.
  unfold readsOf in Hreads. cbn [runReads] in Hreads.
  destruct (e_breaks E n (GitLogSubject h)) eqn:B1; [done|].
  destruct (e_breaks E (S n) (GitDiffTreeNameOnly h)) eqn:B2; [done|].
  destruct (e_breaks E (S (S n)) _) eqn:B3; [done|].
  injection Hreads as <-.
  unfold getCommitInfo.
  eapply returns_bind.
  { eapply (execCommand_prints _ _ H n k); [done..|].
    intros w0 Hw0. cbn. rewrite Hw0, Hfind. done. }
  intros w1 Hw1. eapply returns_bind.
  { eapply (execCommand_prints _ _ H (S n) k); [done..|].
    intros w0 Hw0. cbn. rewrite Hw0, Hfind. done. }
  intros w2 Hw2. unfold infoOf, subjectLine, listedFiles. rewrite Hhash.
  destruct (i =? 0)%nat eqn:Hi.
  - eapply returns_bind.
    { eapply (execCommand_prints _ _ H (S (S n)) k); [done..|].
      intros w0 Hw0. cbn. rewrite Hw0, Hfind. done. }
    intros w3 Hw3. by apply returns_ret.
  - eapply returns_bind.
    { eapply (execCommand_prints _ _ H (S (S n)) k); [done..|].
      intros w0 Hw0. cbn. rewrite Hw0, Hroot, Hfind; [done|].
      by apply Nat.eqb_neq. }
    intros w3 Hw3. by apply returns_ret.
Qed.

Lemma getCommitInfo_fails (h : string) (i : nat) (c : commit) (H : list commit)
    (n k n' : nat) (w : world) :
  standsAt H n k w ->
  findCommit h H = Some c ->
  runReads E n (readsOf h i) = (false, n') ->
  throws (getCommitInfo E h i) w (standsAt H n' k).
Proof.
  intros Hw Hfind Hreads.
  unfold readsOf in Hreads. cbn [runReads] in Hreads.
  unfold getCommitInfo.
  destruct (e_breaks E n (GitLogSubject h)) eqn:B1.
  { injection Hreads as <-. apply throws_bind. by apply execCommand_stops. }
  eapply throws_after.
  { eapply (execCommand_prints _ _ H n k); [done..|].
    intros w0 Hw0. cbn. rewrite Hw0, Hfind. done. }
  intros w1 Hw1.
  destruct (e_breaks E (S n) (GitDiffTreeNameOnly h)) eqn:B2.
  { injection Hreads as <-. apply throws_bind. by apply execCommand_stops. }
  eapply throws_after.
  { eapply (execCommand_prints _ _ H (S n) k); [done..|].
    intros w0 Hw0. cbn. rewrite Hw0, Hfind. done. }
  intros w2 Hw2.
  destruct (e_breaks E (S (S n)) _) eqn:B3; [|done].
  injection Hreads as <-. apply throws_bind.
  destruct (i =? 0)%nat; by apply execCommand_stops.
Qed.

End Reading.

(** ** The generation pass *)

Section Generation.

Variable E : env.
Variable this : Options.

Lemma generateCommitMessage_answers (info : CommitInfo) (H : list commit)
    (n k : nat) (w : world) :
  standsAt H n k w ->
  returns (generateCommitMessage E this (ci_diff info) (ci_files info) (ci_message info))
          w (answerFor E this k info) (standsAt H n (S k)).
Proof.
  intros (HH & Hn & Hk). subst.
  unfold returns, generateCommitMessage, tryCatch, bind, create, answerFor,
    providerFails.
  destruct (e_provider E (w_requests w) _) as [msg | | choices]; cbn.
  - destruct (truthyBool (o_verbose this)); cbn; eexists; (split; [reflexivity | done]).
  - destruct (truthyBool (o_verbose this)); cbn; eexists; (split; [reflexivity | done]).
  - destruct (truthyStr (firstContent choices)); cbn.
    + eexists; (split; [reflexivity | done]).
    + destruct (truthyBool (o_verbose this)); cbn; eexists; (split; [reflexivity | done]).
Qed.

(** A provider failure gives back the message the commit had. *)
Lemma answerFor_failure (k : nat) (info : CommitInfo) :
  providerFails (e_provider E k (buildRequest this (ci_diff info) (ci_files info)
                                              (ci_message info))) = true ->
  answerFor E this k info = ci_message info.
Proof. intros Hf. unfold answerFor. by rewrite Hf. Qed.

Lemma generateFor_tallies (total i : nat) (info : CommitInfo) (st : LoopState)
    (H : list commit) (n k : nat) (w : world) :
  standsAt H n k w ->
  returns (generateFor E this total i info st) w
          (afterGeneration st info (answerFor E this k info))
          (standsAt H n (S k)).
Proof.
  intros Hw. unfold generateFor, afterGeneration.
  eapply returns_bind; [by apply generateCommitMessage_answers|].
  intros w1 Hw1.
  destruct (negb (String.eqb _ _)).
  - eapply returns_bind.
    { eapply returns_bind; [by apply returns_emit, standsAt_trace|].
      intros w2 Hw2. apply returns_ret. exact Hw2. }
    intros w2 Hw2. eapply returns_bind.
    { apply returns_when. destruct (_ <? _); [|exact Hw2].
      by apply returns_emit, standsAt_trace. }
    intros w3 Hw3. by apply returns_ret.
  - eapply returns_bind.
    { eapply returns_bind; [by apply returns_emit, standsAt_trace|].
      intros w2 Hw2. apply returns_ret. exact Hw2. }
    intros w2 Hw2. eapply returns_bind.
    { apply returns_when. destruct (_ <? _); [|exact Hw2].
      by apply returns_emit, standsAt_trace. }
    intros w3 Hw3. by apply returns_ret.
Qed.

Lemma tally_generation (H : list commit) (st : LoopState) (c : commit) (i : nat)
    (generated : string) :
  tally st c (if negb (String.eqb generated (subjectLine E c))
              then ImprovedTo generated else KeptOriginal)
  = afterGeneration st (infoOf E H c i) generated.
Proof.
  unfold afterGeneration. cbn [ci_message ci_hash infoOf].
  by destruct (negb _).
Qed.

(** One iteration of the loop, [try] and [catch] together, gives the
    commit its verdict and never throws. *)
Lemma iteration_gives_verdict (total i : nat) (h : string) (c : commit)
    (st : LoopState) (H : list commit) (n k n' k' : nat) (v : verdict) (w : world) :
  standsAt H n k w ->
  findCommit h H = Some c ->
  (i <> 0%nat -> isRoot h H = false) ->
  verdictFor E this H n k i c = (v, n', k') ->
  returns (tryCatch (processCommit E this total i h st)
                    (fun error => emit (ErrorProcessing h error) ;;; ret st))
          w (tally st c v) (standsAt H n' k').
Proof.
  intros Hw Hfind Hroot Hv.
  pose proof (findCommit_hash _ _ _ Hfind) as Hhash.
  unfold verdictFor in Hv. rewrite Hhash in Hv.
  destruct (runReads E n (readsOf h i)) as [allRead n1] eqn:Hreads.
  destruct allRead; cbn [negb] in Hv.
  - apply returns_tryCatch. unfold processCommit.
    eapply returns_bind; [by eapply getCommitInfo_reads|].
    intros w1 Hw1. cbn [ci_message infoOf].
    destruct (truthyBool (o_skipWellFormed this)); cbn [andb] in Hv.
    + destruct (isWellFormed _).
      * injection Hv as <- <- <-.
        eapply returns_bind; [by apply returns_emit, standsAt_trace|].
        intros w2 Hw2. by apply returns_ret.
      * injection Hv as <- <- <-.
        eapply returns_bind; [by apply returns_emit, standsAt_trace|].
        intros w2 Hw2.
        rewrite (tally_generation H _ _ i). by apply generateFor_tallies.
    + injection Hv as <- <- <-.
      eapply returns_bind; [by apply returns_emit, standsAt_trace|].
      intros w2 Hw2.
      rewrite (tally_generation H _ _ i). by apply generateFor_tallies.
  - injection Hv as <- <- <-.
    eapply returns_caught;
      [unfold processCommit; apply throws_bind; by eapply getCommitInfo_fails|].
    intros e w1 Hw1. eapply returns_bind; [by apply returns_emit, standsAt_trace|].
    intros w2 Hw2. by apply returns_ret.
Qed.

End Generation.

Section Loop.

Variable E : env.
Variable this : Options.

Lemma enumeratedFrom_tail H i c cs :
  enumeratedFrom H i (c :: cs) -> enumeratedFrom H (S i) cs.
Proof.
  intros Hen j c' Hj. destruct (Hen (S j) c' Hj) as [Hf Hr].
  split; [done|]. intros _. apply Hr. lia.
Qed.

(** The generation loop gives every commit its verdict, in order, and
    always completes. *)
Lemma processCommits_tallies (total : nat) (H : list commit) (cs : list commit) :
  forall (i : nat) (st : LoopState) (n k : nat) (w : world),
    standsAt H n k w ->
    enumeratedFrom H i cs ->
    returns (processCommits E this total i (map c_hash cs) st) w
            (tallyAll st cs (expectedVerdicts E this H n k i cs))
            (fun w' => w_history w' = H).
Proof.
  induction cs as [|c cs IH]; intros i st n k w Hw Hen.
  - apply returns_ret. by destruct Hw.
  - cbn [map processCommits expectedVerdicts].
    destruct (verdictFor E this H n k i c) as [[v n'] k'] eqn:Hv.
    cbn [tallyAll].
    destruct (Hen 0%nat c eq_refl) as [Hfind Hroot].
    eapply returns_bind.
    + eapply iteration_gives_verdict; [done..| |exact Hv].
      intros Hi. apply Hroot. lia.
    + intros w1 Hw1. apply IH; [done|]. by eapply enumeratedFrom_tail.
Qed.

Lemma tallyAll_other (h : string) (cs : list commit) :
  forall (st : LoopState) (vs : list verdict),
    h ∉ map c_hash cs ->
    messageMap (tallyAll st cs vs) !! h = messageMap st !! h.
Proof.
  induction cs as [|c cs IH]; intros st vs Hnot; [done|].
  destruct vs as [|v vs]; [done|]. cbn [tallyAll].
  apply not_elem_of_cons in Hnot as [Hne Hnot].
  rewrite IH by done.
  destruct v; cbn; try done. by rewrite lookup_insert_ne.
Qed.

Lemma tallyAll_lookup (cs : list commit) :
  forall (st : LoopState) (vs : list verdict) (j : nat) (c : commit) (v : verdict),
    NoDup (map c_hash cs) ->
    cs !! j = Some c -> vs !! j = Some v ->
    messageMap (tallyAll st cs vs) !! c_hash c
    = match v with
      | ImprovedTo generated => Some generated
      | _ => messageMap st !! c_hash c
      end.
Proof.
  induction cs as [|c0 cs IH]; intros st vs j c v Hnd Hc Hv; [done|].
  destruct vs as [|v0 vs]; [done|]. cbn [tallyAll].
  apply NoDup_cons in Hnd as [Hfresh Hnd].
  destruct j as [|j]; cbn in Hc, Hv.
  - injection Hc as ->. injection Hv as ->.
    rewrite tallyAll_other by done.
    destruct v; cbn; try done. by rewrite lookup_insert_eq.
  - rewrite (IH _ _ j c v) by done.
    assert (c_hash c0 <> c_hash c).
    { intros Heq. apply Hfresh. rewrite Heq.
      apply list_elem_of_fmap. exists c. split; [done|].
      by eapply list_elem_of_lookup_2. }
    destruct v, v0; cbn; try done; by rewrite lookup_insert_ne.
Qed.

Lemma expectedVerdicts_length (H : list commit) (cs : list commit) :
  forall n k i, List.length (expectedVerdicts E this H n k i cs) = List.length cs.
Proof.
  induction cs as [|c cs IH]; intros n k i; [done|]. cbn.
  destruct (verdictFor E this H n k i c) as [[v n'] k']. cbn. by rewrite IH.
Qed.

(** A generated message that replaces the original is not empty and
    differs from the subject line. *)
Lemma improved_is_new (H : list commit) (n k i : nat) (c : commit) (g : string) (n' k' : nat) :
  verdictFor E this H n k i c = (ImprovedTo g, n', k') ->
  JS.truthy g = true /\ g <> subjectLine E c.
Proof.
  unfold verdictFor. destruct (runReads _ _ _) as [[] n1]; cbn [negb]; [|done].
  destruct (_ && _); [done|].
  destruct (negb (String.eqb _ _)) eqn:Hne; [|done].
  intros [= <- <- <-]. apply negb_true_iff in Hne.
  split.
  - revert Hne. unfold answerFor, providerFails. cbn [ci_message infoOf].
    destruct (e_provider E k _) as [m | | choices];
      try (by rewrite String.eqb_refl).
    destruct (firstContent choices) as [content|]; cbn;
      [|by rewrite String.eqb_refl].
    destruct (JS.truthy content) eqn:Ht; cbn; [done | by rewrite String.eqb_refl].
  - intros Heq. rewrite Heq, String.eqb_refl in Hne. done.
Qed.

Lemma expectedVerdicts_improved (H : list commit) (cs : list commit) :
  forall n k i j g,
    expectedVerdicts E this H n k i cs !! j = Some (ImprovedTo g) ->
    JS.truthy g = true.
Proof.
  induction cs as [|c cs IH]; intros n k i j g; [done|]. cbn.
  destruct (verdictFor E this H n k i c) as [[v n'] k'] eqn:Hv.
  destruct j as [|j]; cbn.
  - intros [= ->]. by apply improved_is_new in Hv as [? _].
  - apply IH.
Qed.

End Loop.

(** ** The ordered list of messages and the plan *)

Section Plan.

Variable E : env.
Variable this : Options.

Lemma findCommit_NoDup (H : list commit) (c : commit) :
  NoDup (map c_hash H) -> c ∈ H -> findCommit (c_hash c) H = Some c.
Proof.
  induction H as [|c0 H IH]; intros Hnd Hin; [by apply elem_of_nil in Hin|].
  cbn in Hnd. apply NoDup_cons in Hnd as [Hfresh Hnd].
  unfold findCommit. cbn [find].
  destruct (String.eqb (c_hash c0) (c_hash c)) eqn:Heq.
  - apply String.eqb_eq in Heq.
    apply elem_of_cons in Hin as [-> | Hin]; [done|].
    exfalso. apply Hfresh. rewrite Heq. apply list_elem_of_fmap. by exists c.
  - apply elem_of_cons in Hin as [-> | Hin].
    + by rewrite String.eqb_refl in Heq.
    + by apply IH.
Qed.

Lemma enumerated_suffix (H older cs : list commit) :
  NoDup (map c_hash H) -> H = (older ++ cs)%list -> enumeratedFrom H 0 cs.
Proof.
  intros Hnd -> j c Hj. split.
  - apply findCommit_NoDup; [done|].
    apply elem_of_app. right. by eapply list_elem_of_lookup_2.
  - intros Hne. cbn in Hne.
    assert (Hat : (older ++ cs)%list !! (List.length older + j)%nat = Some c)
      by by rewrite lookup_app_r, Nat.add_comm, Nat.add_sub by lia.
    destruct (older ++ cs)%list as [|c0 rest] eqn:Hl; [done|].
    cbn [isRoot]. apply String.eqb_neq. intros Heq.
    assert (Hi : (0 = List.length older + j)%nat); [|lia].
    eapply (NoDup_lookup (map c_hash (c0 :: rest))); [done| |].
    + cbn. reflexivity.
    + rewrite list_lookup_fmap, Hat. cbn. by rewrite Heq.
Qed.

Lemma plan_messages (cs : list commit) (vs : list verdict) :
  map finalMessage (zip_with decisionFor cs vs)
  = zip_with (fun c v => finalMessage (decisionFor c v)) cs vs.
Proof.
  revert vs. induction cs as [|c cs IH]; intros [|v vs]; cbn; [done..|].
  by rewrite IH.
Qed.

(** One step of the second loop. *)
Lemma ordered_message (H : list commit) (mp : gmap string string)
    (c : commit) (v : verdict) (w : world) :
  (forall n h, e_breaks E n (GitLogBody h) = false) ->
  findCommit (c_hash c) H = Some c ->
  mp !! c_hash c = mapEntry v ->
  (forall g, v = ImprovedTo g -> JS.truthy g = true) ->
  w_history w = H ->
  returns (if truthyStr (mp !! c_hash c) then ret (default EmptyString (mp !! c_hash c))
           else out <- execCommand E (GitLogBody (c_hash c)) ;; ret (JS.trim out))
          w (finalMessage (decisionFor c v)) (fun w' => w_history w' = H).
Proof.
  intros Hbody Hfind Hmp Hg Hw. rewrite Hmp.
  assert (Hread : returns (out <- execCommand E (GitLogBody (c_hash c)) ;;
                           ret (JS.trim out))
                    w (originalMessage c) (fun w' => w_history w' = H)).
  { eapply returns_bind.
    - eapply (execCommand_prints _ _ _ H (w_commands w) (w_requests w)); [done..|].
      intros w0 Hw0. cbn. by rewrite Hw0, Hfind.
    - intros w1 (Hw1 & _). by apply returns_ret. }
  destruct v as [| | g |]; cbn [mapEntry truthyStr decisionFor finalMessage];
    try exact Hread.
  rewrite (Hg g eq_refl). by apply returns_ret.
Qed.

(** The second loop: the generated message where the map has one, the
    full original message otherwise. *)
Lemma orderMessages_lists (H : list commit) (mp : gmap string string)
    (cs : list commit) (vs : list verdict) :
  (forall n h, e_breaks E n (GitLogBody h) = false) ->
  (forall c, c ∈ cs -> findCommit (c_hash c) H = Some c) ->
  Forall2 (fun c v => mp !! c_hash c = mapEntry v
                      /\ forall g, v = ImprovedTo g -> JS.truthy g = true) cs vs ->
  forall w, w_history w = H ->
  returns (orderMessages E mp (map c_hash cs)) w
          (zip_with (fun c v => finalMessage (decisionFor c v)) cs vs)
          (fun w' => w_history w' = H).
Proof.
  intros Hbody Hfind Hall. induction Hall as [|c v cs vs [Hmp Hg] Hall IH];
    intros w Hw.
  - by apply returns_ret.
  - cbn [map orderMessages zip_with].
    eapply returns_bind.
    + apply (ordered_message H mp c v); [done| |done..].
      apply Hfind, elem_of_cons; auto.
    + intros w1 Hw1. eapply returns_bind.
      * apply IH; [|done]. intros c' Hc'. apply Hfind. apply elem_of_cons; auto.
      * intros w2 Hw2. by apply returns_ret.
Qed.

(** What the map holds after the generation loop. *)
Lemma map_after_loop (H : list commit) (cs : list commit) (n k : nat) :
  NoDup (map c_hash cs) ->
  Forall2 (fun c v =>
             messageMap (tallyAll loopStart cs (expectedVerdicts E this H n k 0 cs))
               !! c_hash c = mapEntry v
             /\ forall g, v = ImprovedTo g -> JS.truthy g = true)
          cs (expectedVerdicts E this H n k 0 cs).
Proof.
  intros Hnd. apply Forall2_same_length_lookup_2.
  - by rewrite expectedVerdicts_length.
  - intros j c v Hc Hv. split.
    + rewrite (tallyAll_lookup cs _ _ j c v) by done.
      destruct v; cbn; try apply lookup_empty. done.
    + intros g ->. by eapply expectedVerdicts_improved.
Qed.

(** The two loops together build the plan of the specification: the
    list of final messages is that of [expectedPlan], and the map holds
    exactly the generated messages of the improved commits. *)
Lemma buildPlan_builds_expectedPlan (H cs : list commit) (w : world) :
  w_history w = H ->
  NoDup (map c_hash cs) ->
  enumeratedFrom H 0 cs ->
  (forall n h, e_breaks E n (GitLogBody h) = false) ->
  let vs := expectedVerdicts E this H (w_commands w) (w_requests w) 0 cs in
  returns (buildPlan E this (map c_hash cs)) w
          (tallyAll loopStart cs vs,
           map finalMessage (expectedPlan E this H (w_commands w) (w_requests w) cs))
          (sameRepository w).
Proof.
  intros Hw Hnd Hen Hbody vs.
  assert (Hret : returns (buildPlan E this (map c_hash cs)) w
            (tallyAll loopStart cs vs,
             map finalMessage (expectedPlan E this H (w_commands w) (w_requests w) cs))
            (fun w' => w_history w' = H)).
  { unfold buildPlan. eapply returns_bind.
    - by apply (processCommits_tallies E this _ H cs 0%nat loopStart
                  (w_commands w) (w_requests w) w).
    - intros w1 Hw1. eapply returns_bind.
      + apply (orderMessages_lists H _ cs vs); [done| |by apply map_after_loop|done].
        intros c Hc. apply list_elem_of_lookup_1 in Hc as [j Hj].
        by destruct (Hen j c Hj).
      + intros w2 Hw2. unfold expectedPlan. rewrite plan_messages.
        by apply returns_ret. }
  destruct Hret as (w' & Heq & _). exists w'. split; [done|].
  pose proof (keeps_buildPlan (R := sameRepository) (okEvent := fun _ => True)
                (fun _ => I) (fun _ _ _ => I) (fun _ _ _ => I) (fun _ _ => I)
                (fun _ => I) (fun _ => I) (fun _ _ => I)
                E this (map c_hash cs) w) as Hk.
  by rewrite Heq in Hk.
Qed.

End Plan.

Section PlanProperties.

Variable E : env.
Variable this : Options.

(** The verdict on a commit does not look at the body of its message:
    two commits with the same id, subject line, files and patches get
    the same verdict. *)
Lemma verdict_ignores_body (H : list commit) (c c' : commit) (n k i : nat) :
  c_hash c = c_hash c' ->
  subjectLine E c = subjectLine E c' ->
  c_files c = c_files c' ->
  c_diff c = c_diff c' ->
  c_diffRoot c = c_diffRoot c' ->
  verdictFor E this H n k i c = verdictFor E this H n k i c'.
Proof.
  intros Hh Hs Hf Hd Hr. unfold verdictFor, infoOf, listedFiles.
  by rewrite Hh, Hs, Hf, Hd, Hr.
Qed.

(** C10. The verdict on a commit (well-formed or not, improved or kept)
    is reached on its subject line and never on the body; the plan then
    holds, for an improved commit, the generated message in place of the
    whole original message, and for every other commit (kept because the
    generated message equals the subject line, skipped as well-formed,
    or not read) the full original message, body included. *)
Theorem plan_keeps_body_unless_improved (older cs : list commit) (w : world) :
  w_history w = (older ++ cs)%list ->
  NoDup (map c_hash (w_history w)) ->
  (forall n h, e_breaks E n (GitLogBody h) = false) ->
  let plan := expectedPlan E this (w_history w) (w_commands w) (w_requests w) cs in
  (forall H c c' n k i,
      c_hash c = c_hash c' -> subjectLine E c = subjectLine E c' ->
      c_files c = c_files c' -> c_diff c = c_diff c' -> c_diffRoot c = c_diffRoot c' ->
      verdictFor E this H n k i c = verdictFor E this H n k i c')
  /\ exists st ordered w',
    buildPlan E this (map c_hash cs) w = (Ok (st, ordered), w')
    /\ ordered = map finalMessage plan
    /\ Forall2 (fun c d =>
                  commitId d = c_hash c
                  /\ if wasGenerated d
                     then messageMap st !! c_hash c = Some (finalMessage d)
                          /\ finalMessage d <> subjectLine E c
                     else messageMap st !! c_hash c = None
                          /\ finalMessage d = originalMessage c)
               cs plan.
Proof.
  intros Hw Hnd Hbody plan.
  split; [intros; by apply verdict_ignores_body|].
  assert (Hcs : NoDup (map c_hash cs)).
  { rewrite Hw, map_app in Hnd. by apply NoDup_app in Hnd as (_ & _ & ?). }
  destruct (buildPlan_builds_expectedPlan E this (w_history w) cs w eq_refl Hcs)
    as (w' & Hrun & _); [by eapply enumerated_suffix|done|].
  eexists _, _, w'. split; [exact Hrun|]. split; [done|].
  subst plan. unfold expectedPlan.
  set (vs := expectedVerdicts E this (w_history w) (w_commands w) (w_requests w) 0 cs).
  pose proof (map_after_loop E this (w_history w) cs (w_commands w) (w_requests w) Hcs)
    as Hmap.
  fold vs in Hmap.
  assert (Hnew : Forall2 (fun c v => forall g, v = ImprovedTo g -> g <> subjectLine E c)
                   cs vs).
  { subst vs. generalize (w_history w) (w_commands w) (w_requests w) 0%nat. clear.
    induction cs as [|c cs IH]; intros H n k i; cbn; [constructor|].
    destruct (verdictFor E this H n k i c) as [[v n'] k'] eqn:Hv.
    constructor; [|apply IH].
    intros g ->. by apply improved_is_new in Hv as [_ ?]. }
  clear Hrun. revert Hmap Hnew. generalize (tallyAll loopStart cs vs). intros st.
  generalize vs. clear. intros vs Hmap. induction Hmap as [|c v cs vs [Hm _] Hall IH];
    intros Hnew; cbn; [constructor|].
  apply Forall2_cons in Hnew as [Hn Hnew].
  constructor; [|by apply IH].
  destruct v; cbn in *; split; try done. split; [done | by apply Hn].
Qed.

Lemma failing_provider_never_improves (H : list commit) (cs : list commit) :
  (forall n req, providerFails (e_provider E n req) = true) ->
  forall n k i, Forall (fun v => mapEntry v = None) (expectedVerdicts E this H n k i cs).
Proof.
  intros Hfail. induction cs as [|c cs IH]; intros n k i; cbn; [constructor|].
  destruct (verdictFor E this H n k i c) as [[v n'] k'] eqn:Hv.
  constructor; [|apply IH].
  unfold verdictFor in Hv.
  destruct (runReads _ _ _) as [[] n1]; cbn [negb] in Hv; [|by injection Hv as <-].
  destruct (_ && _); [by injection Hv as <-|].
  rewrite answerFor_failure in Hv by apply Hfail.
  cbn [ci_message infoOf] in Hv. rewrite String.eqb_refl in Hv.
  by injection Hv as <-.
Qed.

Lemma tallyAll_without_improvement (cs : list commit) :
  forall st vs,
    Forall (fun v => mapEntry v = None) vs ->
    messageMap (tallyAll st cs vs) = messageMap st
    /\ improvedCount (tallyAll st cs vs) = improvedCount st
    /\ zip_with decisionFor cs vs
       = map (fun c => mkRewriteDecision (c_hash c) (originalMessage c) false)
             (take (List.length vs) cs).
Proof.
  induction cs as [|c cs IH]; intros st vs Hall; [by destruct vs|].
  destruct vs as [|v vs]; [done|]. cbn [tallyAll zip_with].
  apply Forall_cons in Hall as [Hv Hall].
  destruct (IH (tally st c v) vs Hall) as (Hm & Hi & Hz).
  rewrite Hm, Hi, Hz. by destruct v.
Qed.

(** C2. If every provider call fails, generation gives back the message
    it was given, the plan is built to the end, no commit is marked as
    generated, and every final message is the commit's original
    message. *)
Theorem failing_provider_keeps_every_original (older cs : list commit) (w : world) :
  (forall n req, providerFails (e_provider E n req) = true) ->
  w_history w = (older ++ cs)%list ->
  NoDup (map c_hash (w_history w)) ->
  (forall n h, e_breaks E n (GitLogBody h) = false) ->
  (forall diff files oldMessage w0, exists w1,
      generateCommitMessage E this diff files oldMessage w0 = (Ok oldMessage, w1))
  /\ exists st ordered w',
       buildPlan E this (map c_hash cs) w = (Ok (st, ordered), w')
       /\ messageMap st = ∅
       /\ improvedCount st = 0%nat
       /\ ordered = map originalMessage cs
       /\ expectedPlan E this (w_history w) (w_commands w) (w_requests w) cs
          = map (fun c => mkRewriteDecision (c_hash c) (originalMessage c) false) cs
       /\ sameRepository w w'.
Proof.
  intros Hfail Hw Hnd Hbody. split.
  - intros diff files oldMessage w0.
    destruct (generateCommitMessage_answers E this
                (mkCommitInfo EmptyString oldMessage files diff)
                (w_history w0) (w_commands w0) (w_requests w0) w0)
      as (w1 & Hrun & _); [done|].
    exists w1. cbn in Hrun. rewrite Hrun. f_equal. f_equal.
    by rewrite answerFor_failure.
  - assert (Hcs : NoDup (map c_hash cs)).
    { rewrite Hw, map_app in Hnd. by apply NoDup_app in Hnd as (_ & _ & ?). }
    destruct (buildPlan_builds_expectedPlan E this (w_history w) cs w eq_refl Hcs)
      as (w' & Hrun & Hsame); [by eapply enumerated_suffix|done|].
    pose proof (failing_provider_never_improves (w_history w) cs Hfail
                  (w_commands w) (w_requests w) 0%nat) as Hnone.
    destruct (tallyAll_without_improvement cs loopStart _ Hnone) as (Hm & Hi & Hz).
    rewrite expectedVerdicts_length, firstn_all in Hz.
    eexists _, _, w'. split; [exact Hrun|].
    split; [by rewrite Hm|]. split; [by rewrite Hi|].
    unfold expectedPlan. rewrite Hz. split; [|done].
    rewrite map_map. done.
Qed.

End PlanProperties.

(** ** Failures of git, continued *)

Section GitFailures.

Variable E : env.
Variable this : Options.

Lemma noExit_bind {A B} (m : M A) (f : A -> M B) :
  noExit m -> (forall a, noExit (f a)) -> noExit (bind m f).
Proof.
  intros Hm Hf w code. unfold bind. specialize (Hm w).
  destruct (m w) as [[a | e | c] w1]; cbn in *; [apply Hf | done |].
  by destruct (Hm c).
Qed.

Lemma noExit_ret {A} (a : A) : noExit (ret a).
Proof. by intros w code. Qed.

Lemma noExit_execCommand (cmd : command) :
  readOnly cmd = true -> noExit (execCommand E cmd).
Proof.
  intros Hro w code. unfold execCommand.
  destruct (e_breaks E (w_commands w) cmd); [done|].
  destruct cmd; try discriminate; unfold tryCatch, git, unknownRevision, throw;
    cbn [w_history setCommands];
    repeat match goal with
           | |- context [if ?b then _ else _] => destruct b
           | |- context [match findCommit ?h ?l with _ => _ end] =>
               destruct (findCommit h l)
           end; done.
Qed.

Lemma noExit_getCommitInfo (hash : string) (i : nat) :
  noExit (getCommitInfo E hash i).
Proof.
  unfold getCommitInfo.
  apply noExit_bind; [by apply noExit_execCommand|]. intros out1.
  apply noExit_bind; [by apply noExit_execCommand|]. intros out2.
  apply noExit_bind; [|intros; apply noExit_ret].
  destruct (i =? 0)%nat; by apply noExit_execCommand.
Qed.

(** Whatever the reads do, the rest of the iteration completes. *)
Lemma rest_of_iteration_completes (total i : nat) (hash : string) (st : LoopState)
    (info : CommitInfo) (w : world) :
  exists st' w',
    (if truthyBool (o_skipWellFormed this) then
       let quality := assessCommitQuality this (ci_message info) in
       if isWellFormed quality then
         emit (AlreadyWellFormed hash (score quality) (reason quality)) ;;;
         ret (mkLoopState (messageMap st) (S (skippedCount st)) (improvedCount st))
       else
         emit (ProcessingCommit hash (ci_message info) (Some (reason quality))) ;;;
         generateFor E this total i info st
     else
       emit (ProcessingCommit hash (ci_message info) None) ;;;
       generateFor E this total i info st) w = (Ok st', w').
Proof.
  assert (Hgen : forall w0, exists st' w',
             generateFor E this total i info st w0 = (Ok st', w')).
  { intros w0.
    destruct (generateFor_tallies E this total i info st (w_history w0)
                (w_commands w0) (w_requests w0) w0) as (w' & Hrun & _); [done|].
    eauto. }
  destruct (truthyBool _); cbn zeta.
  - destruct (isWellFormed _).
    + eexists _, _. reflexivity.
    + unfold bind at 1. cbn [emit]. apply Hgen.
  - unfold bind at 1. cbn [emit]. apply Hgen.
Qed.

(** One iteration, [try] and [catch] together, always completes; when a
    read of the commit fails, the variables of the loop stay as they
    were. *)
Lemma iteration_completes (total i : nat) (hash : string) (st : LoopState) (w : world) :
  exists st' w',
    tryCatch (processCommit E this total i hash st)
             (fun error => emit (ErrorProcessing hash error) ;;; ret st) w
    = (Ok st', w')
    /\ ((exists e, (getCommitInfo E hash i w).1 = Throw e) ->
        st' = st /\ exists e, last (w_trace w') = Some (ErrorProcessing hash e)).
Proof.
  unfold tryCatch, processCommit. unfold bind at 1.
  pose proof (noExit_getCommitInfo hash i w) as Hne.
  destruct (getCommitInfo E hash i w) as [[info | e | code] w1]; cbn in Hne.
  - destruct (rest_of_iteration_completes total i hash st info w1)
      as (st' & w' & Hrest).
    cbn beta zeta in Hrest |- *. rewrite Hrest. eexists _, _. split; [reflexivity|].
    intros [e He]. discriminate He.
  - eexists _, _. split; [reflexivity|]. intros _. split; [done|].
    exists e. cbn. by rewrite last_snoc.
  - by destruct (Hne code).
Qed.

Lemma processCommits_completes (total : nat) (commits : list string) :
  forall (i : nat) (st : LoopState) (w : world),
  exists st' w', processCommits E this total i commits st w = (Ok st', w').
Proof.
  induction commits as [|hash rest IH]; intros i st w; cbn [processCommits].
  - eexists _, _. reflexivity.
  - destruct (iteration_completes total i hash st w) as (st1 & w1 & Hstep & _).
    unfold bind at 1. rewrite Hstep. apply IH.
Qed.



Lemma noExit_checkGitRepository : noExit (checkGitRepository E).
Proof.
  intros w code. unfold checkGitRepository, tryCatch, bind.
  pose proof (noExit_execCommand GitRevParseGitDir eq_refl w) as Hne.
  destruct (execCommand E GitRevParseGitDir w) as [[a | e | c] w1]; cbn in *;
    [done | done | by destruct (Hne c)].
Qed.

Lemma noExit_getCurrentBranch : noExit (getCurrentBranch E).
Proof.
  unfold getCurrentBranch.
  apply noExit_bind; [by apply noExit_execCommand | intros; apply noExit_ret].
Qed.




End GitFailures.

Lemma sampleHistory_NoDup : NoDup (map c_hash sampleHistory).
Proof.
  cbn. repeat (apply NoDup_cons; split; [|]); try apply NoDup_nil_2;
    rewrite ?elem_of_cons, elem_of_nil; intros H; repeat destruct H as [H|H];
    done.
Defined.

Lemma plan_keeps_body_unless_improved_witness :
  let E := sampleEnv helpfulProvider neverBreaks in
  let w := freshWorld sampleHistory in
  let plan := expectedPlan E plainOptions sampleHistory (w_commands w) (w_requests w)
                           sampleHistory in
  (forall H c c' n k i,
      c_hash c = c_hash c' -> subjectLine E c = subjectLine E c' ->
      c_files c = c_files c' -> c_diff c = c_diff c' -> c_diffRoot c = c_diffRoot c' ->
      verdictFor E plainOptions H n k i c = verdictFor E plainOptions H n k i c')
  /\ exists st ordered w',
    buildPlan E plainOptions (map c_hash sampleHistory) w = (Ok (st, ordered), w')
    /\ ordered = map finalMessage plan
    /\ Forall2 (fun c d =>
                  commitId d = c_hash c
                  /\ if wasGenerated d
                     then messageMap st !! c_hash c = Some (finalMessage d)
                          /\ finalMessage d <> subjectLine E c
                     else messageMap st !! c_hash c = None
                          /\ finalMessage d = originalMessage c)
               sampleHistory plan.
Proof.
  apply (plan_keeps_body_unless_improved (sampleEnv helpfulProvider neverBreaks)
           plainOptions [] sampleHistory (freshWorld sampleHistory)).
  - reflexivity.
  - exact sampleHistory_NoDup.
  - intros n h. reflexivity.
Defined.

Lemma failing_provider_keeps_every_original_witness :
  let E := sampleEnv deadProvider neverBreaks in
  let w := freshWorld sampleHistory in
  (forall diff files oldMessage w0, exists w1,
      generateCommitMessage E plainOptions diff files oldMessage w0 = (Ok oldMessage, w1))
  /\ exists st ordered w',
       buildPlan E plainOptions (map c_hash sampleHistory) w = (Ok (st, ordered), w')
       /\ messageMap st = ∅
       /\ improvedCount st = 0%nat
       /\ ordered = map originalMessage sampleHistory
       /\ expectedPlan E plainOptions sampleHistory (w_commands w) (w_requests w)
                       sampleHistory
          = map (fun c => mkRewriteDecision (c_hash c) (originalMessage c) false)
                sampleHistory
       /\ sameRepository w w'.
Proof.
  apply (failing_provider_keeps_every_original (sampleEnv deadProvider neverBreaks)
           plainOptions [] sampleHistory (freshWorld sampleHistory)).
  - intros n req. reflexivity.
  - reflexivity.
  - exact sampleHistory_NoDup.
  - intros n h. reflexivity.
Defined.

(** The plan for the sample history: the subject of the third commit
    decides, its body is replaced with the rest of the message. *)
Example sample_plan :
  expectedPlan (sampleEnv helpfulProvider neverBreaks) plainOptions sampleHistory 0 0
               sampleHistory
  = [ mkRewriteDecision "a1f0" "feat(parser): add the parser and the lexer" true;
      mkRewriteDecision "b2e1" "feat(cli): add the command line entry point" true;
      mkRewriteDecision "c3d2" "feat(cli): add the command line entry point" true ].
Proof. vm_compute. reflexivity. Qed.

(** ** The application step *)

Section Application.

Variable E : env.

Lemma runFilterScript_prints (messages : list string) (counter : nat) (c : commit)
    (w : world) :
  filterReady messages counter w ->
  runFilterScript filterScriptPath (c_message c) w
  = (Ok (filteredMessage messages counter c),
     setFs (<[counterFilePath := Number (S counter)]> (w_fs w)) w).
Proof.
  intros (Hs & Hm & Hc). unfold runFilterScript, filteredMessage.
  rewrite Hs, Hm, Hc. destruct (messages !! counter) as [m|]; [|done].
  by destruct (JS.truthy m).
Qed.

Lemma filterReady_next (messages : list string) (counter : nat) (w : world) :
  filterReady messages counter w ->
  filterReady messages (S counter)
              (setFs (<[counterFilePath := Number (S counter)]> (w_fs w)) w).
Proof.
  intros (Hs & Hm & Hc). unfold filterReady. cbn.
  rewrite !lookup_insert_ne by done. rewrite lookup_insert_eq. done.
Qed.

(** The walk of [git filter-branch] gives the commit at position [j]
    the message at position [counter + j] of the list, and touches
    nothing but the counter file. *)
Lemma filterBranchWalk_assigns (messages : list string) (cs : list commit) :
  forall (counter : nat) (ancestorChanged : bool) (w : world),
    filterReady messages counter w ->
    exists cs' w',
      filterBranchWalk E filterScriptPath ancestorChanged cs w = (Ok cs', w')
      /\ map c_message cs'
         = imap (fun j c => filteredMessage messages (counter + j) c) cs
      /\ map c_files cs' = map c_files cs
      /\ filterReady messages (counter + List.length cs) w'
      /\ w_branches w' = w_branches w.
Proof.
  induction cs as [|c cs IH]; intros counter anc w Hready.
  - exists [], w. rewrite Nat.add_0_r. done.
  - cbn [filterBranchWalk]. unfold bind at 1.
    rewrite (runFilterScript_prints messages counter) by done.
    destruct (recommit E anc c _) as [c' changed] eqn:Hre.
    destruct (IH (S counter) changed _ (filterReady_next _ _ _ Hready))
      as (cs' & w' & Hwalk & Hmsgs & Hfiles & Hready' & Hbr).
    exists (c' :: cs'), w'. unfold bind. rewrite Hwalk.
    unfold recommit in Hre. injection Hre as <- _.
    split_and!; [done| | | |done].
    + cbn [map imap c_message].
      rewrite Nat.add_0_r, Hmsgs. f_equal. apply imap_ext. intros j x _. cbn.
      f_equal. lia.
    + cbn. by rewrite Hfiles.
    + cbn [List.length]. by rewrite Nat.add_succ_r.
Qed.

Lemma removeIfExists_deletes (path : string) (w : world) :
  removeIfExists path w = (Ok tt, setFs (delete path (w_fs w)) w).
Proof.
  unfold removeIfExists, existsSync, bind, when, unlinkSync, ret.
  destruct (w_fs w !! path) as [f|] eqn:Hf.
  - rewrite bool_decide_eq_true_2 by eauto. by rewrite Hf.
  - rewrite bool_decide_eq_false_2 by (intros [? ?]; congruence).
    rewrite delete_id by done. by destruct w.
Qed.

Lemma cleaned_up (fs : gmap string file) :
  let fs' := delete counterFilePath
               (delete mappingFilePath (delete filterScriptPath fs)) in
  fs' !! mappingFilePath = None
  /\ fs' !! counterFilePath = None
  /\ fs' !! filterScriptPath = None.
Proof.
  cbn. split_and!.
  - rewrite lookup_delete_ne by done. apply lookup_delete_eq.
  - apply lookup_delete_eq.
  - rewrite !lookup_delete_ne by done. apply lookup_delete_eq.
Qed.

Lemma cleanup_deletes (w : world) :
  (removeIfExists filterScriptPath ;;;
   removeIfExists mappingFilePath ;;;
   removeIfExists counterFilePath) w
  = (Ok tt,
     setFs (delete counterFilePath
              (delete mappingFilePath (delete filterScriptPath (w_fs w)))) w).
Proof.
  unfold bind. rewrite !removeIfExists_deletes. reflexivity.
Qed.

(** [rewriteHistory] pairs the i-th commit of the whole history with the
    i-th message of the list, whatever commits the list was made for, and
    removes its three files. *)
Lemma rewriteHistory_applies_in_order (messages : list string) (w : world) :
  w_fs w !! mappingFilePath = Some (JsonStrings messages) ->
  e_breaks E (w_commands w) (GitFilterBranch filterScriptPath) = false ->
  exists w',
    rewriteHistory E mappingFilePath counterFilePath w = (Ok tt, w')
    /\ map c_message (w_history w')
       = imap (fun i c => filteredMessage messages i c) (w_history w)
    /\ map c_files (w_history w') = map c_files (w_history w)
    /\ w_fs w' !! mappingFilePath = None
    /\ w_fs w' !! counterFilePath = None
    /\ w_fs w' !! filterScriptPath = None
    /\ w_branches w' = w_branches w.
Proof.
  intros Hmap Hb. unfold rewriteHistory.
  unfold bind at 1. cbn [writeFileSync].
  unfold bind at 1. cbn [writeFileSync].
  set (w1 := setFs _ (setFs _ w)).
  assert (Hready : filterReady messages 0 (setCommands (S (w_commands w)) w1)).
  { unfold filterReady, w1. cbn.
    rewrite lookup_insert_eq, !lookup_insert_ne by done.
    by rewrite lookup_insert_eq. }
  destruct (filterBranchWalk_assigns messages (w_history w) 0 false _ Hready)
    as (cs' & w2 & Hwalk & Hmsgs & Hfiles & _ & Hbr).
  unfold tryFinally, bind at 1.
  rewrite execCommand_runs by done.
  unfold tryCatch. cbn [git].
  change (w_history (setCommands (S (w_commands w1)) w1)) with (w_history w).
  change (w_commands w1) with (w_commands w).
  rewrite Hwalk. cbn [ret].
  rewrite (bind_ok _ _ _ _ _ (cleanup_deletes _)).
  eexists. split; [reflexivity|].
  cbn [w_history w_fs w_branches setFs setHistory].
  destruct (cleaned_up (w_fs w2)) as (? & ? & ?).
  split_and!; done.
Qed.

Lemma filterBranchWalk_noExit (script : string) (cs : list commit) :
  forall anc, noExit (filterBranchWalk E script anc cs).
Proof.
  induction cs as [|c cs IH]; intros anc w code; cbn [filterBranchWalk]; [done|].
  unfold bind at 1.
  assert (Hscript : forall code', (runFilterScript script (c_message c) w).1 <> Exit code').
  { intros code'. unfold runFilterScript.
    repeat match goal with
           | |- context [match ?x with _ => _ end] => destruct x
           end; done. }
  destruct (runFilterScript script (c_message c) w) as [[m | e | c0] w1];
    cbn [fst] in Hscript; [|done|by destruct (Hscript c0)].
  destruct (recommit E anc c m) as [c' changed].
  unfold bind. specialize (IH changed w1).
  destruct (filterBranchWalk E script changed cs w1) as [[a | e | c0] w2];
    cbn [fst] in IH |- *; [done | done | by destruct (IH c0)].
Qed.

Lemma rewriteHistory_ends_clean (w : world) :
  exists r w2,
    rewriteHistory E mappingFilePath counterFilePath w
    = (r, setFs (delete counterFilePath
                   (delete mappingFilePath (delete filterScriptPath (w_fs w2)))) w2).
Proof.
  unfold rewriteHistory.
  unfold bind at 1. cbn [writeFileSync].
  unfold bind at 1. cbn [writeFileSync].
  set (w1 := setFs _ (setFs _ w)).
  unfold tryFinally.
  assert (Hne : forall code,
             (bind (execCommand E (GitFilterBranch filterScriptPath))
                   (fun _ => ret tt) w1).1 <> Exit code).
  { intros code. unfold bind, execCommand.
    destruct (e_breaks E _ _); [done|].
    unfold tryCatch. cbn [git].
    pose proof (filterBranchWalk_noExit filterScriptPath
                  (w_history (setCommands (S (w_commands w1)) w1)) false
                  (setCommands (S (w_commands w1)) w1)) as Hw.
    destruct (filterBranchWalk _ _ _ _ _) as [[a | e | c0] w2]; cbn [fst] in Hw |- *;
      [done | done | by destruct (Hw c0)]. }
  destruct (bind (execCommand E (GitFilterBranch filterScriptPath)) _ w1)
    as [[a | e | c0] w2]; cbn [fst] in Hne; [| |by destruct (Hne c0)].
  - rewrite (bind_ok _ _ _ _ _ (cleanup_deletes _)). by eexists _, w2.
  - rewrite (bind_ok _ _ _ _ _ (cleanup_deletes _)). by eexists _, w2.
Qed.

(** Whether [git filter-branch] succeeds or fails, [rewriteHistory]
    returns with its three files removed. *)
Lemma rewriteHistory_removes_its_files (w : world) :
  let w' := (rewriteHistory E mappingFilePath counterFilePath w).2 in
  w_fs w' !! mappingFilePath = None
  /\ w_fs w' !! counterFilePath = None
  /\ w_fs w' !! filterScriptPath = None.
Proof.
  destruct (rewriteHistory_ends_clean w) as (r & w2 & ->). apply cleaned_up.
Qed.

End Application.

(** ** A whole run *)

Lemma trimEnd_newline (s : string) : JS.trimEnd (s ++ newline) = JS.trimEnd s.
Proof.
  induction s as [|c s IH]; cbn; [reflexivity|]. by rewrite IH.
Qed.

Lemma trim_newline (s : string) : JS.trim (s ++ newline) = JS.trim s.
Proof.
  unfold JS.trim. induction s as [|c s IH]; cbn; [reflexivity|].
  destruct (JS.isWhiteSpace c); [exact IH|].
  change (String c (s ++ newline)) with (String c s ++ newline).
  apply trimEnd_newline.
Qed.

Section FullRun.

Variable E : env.
Variable this : Options.

Lemma emit_eq (ev : event) (w : world) :
  emit ev w = (Ok tt, setTrace (w_trace w ++ [ev])%list w).
Proof. reflexivity. Qed.

Lemma execCommand_exact (cmd : command) (out : string) (w : world) :
  readOnly cmd = true ->
  e_breaks E (w_commands w) cmd = false ->
  (git E cmd (setCommands (S (w_commands w)) w)).1 = Ok out ->
  execCommand E cmd w = (Ok out, setCommands (S (w_commands w)) w).
Proof.
  intros Hro Hb Hout. rewrite execCommand_runs by done. unfold tryCatch.
  pose proof (git_readOnly E cmd (setCommands (S (w_commands w)) w) Hro) as Hw.
  destruct (git E cmd _) as [r w1]. cbn in Hw, Hout. by subst.
Qed.

(** Without failing commands the verdicts do not depend on how many
    commands have run. *)
Lemma runReads_no_breaks (cmds : list command) :
  (forall n cmd, e_breaks E n cmd = false) ->
  forall n, runReads E n cmds = (true, (n + List.length cmds)%nat).
Proof.
  intros Hb. induction cmds as [|cmd cmds IH]; intros n; cbn.
  - by rewrite Nat.add_0_r.
  - rewrite Hb, IH. f_equal. lia.
Qed.

Lemma expectedVerdicts_no_breaks (H : list commit) (cs : list commit) :
  (forall n cmd, e_breaks E n cmd = false) ->
  forall n k i,
    expectedVerdicts E this H n k i cs = expectedVerdicts E this H 0 k i cs.
Proof.
  intros Hb. 
  assert (Hv : forall n k i c,
             (verdictFor E this H n k i c).1.1 = (verdictFor E this H 0 k i c).1.1
             /\ (verdictFor E this H n k i c).2 = (verdictFor E this H 0 k i c).2).
  { intros n k i c. unfold verdictFor.
    rewrite !runReads_no_breaks by done. cbn [negb].
    destruct (_ && _); [done|]. by destruct (negb _). }
  assert (Hany : forall n m k i, expectedVerdicts E this H n k i cs
                                 = expectedVerdicts E this H m k i cs).
  { induction cs as [|c cs IH]; intros n m k i; cbn; [done|].
    destruct (Hv n k i c) as [H1 H2]. destruct (Hv m k i c) as [H3 H4].
    destruct (verdictFor E this H n k i c) as [[v1 n1] k1].
    destruct (verdictFor E this H m k i c) as [[v2 n2] k2].
    destruct (verdictFor E this H 0 k i c) as [[v0 n0] k0].
    cbn in *. subst. f_equal. apply IH. }
  intros n k i. apply Hany.
Qed.

(** The message the filter prints for the i-th commit is the i-th final
    message of the plan made for the same commits. *)
Lemma filtered_plan (H : list commit) (cs : list commit) (n k : nat) :
  imap (fun i c => filteredMessage
                     (map finalMessage (expectedPlan E this H n k cs)) i c) cs
  = map finalMessage (expectedPlan E this H n k cs).
Proof.
  unfold expectedPlan. rewrite plan_messages.
  pose proof (expectedVerdicts_improved E this H cs n k 0%nat) as Himp.
  pose proof (expectedVerdicts_length E this H cs n k 0%nat) as Hlen.
  revert Himp Hlen. generalize (expectedVerdicts E this H n k 0 cs). intros vs Himp Hlen.
  apply list_eq. intros i. rewrite list_lookup_imap.
  rewrite lookup_zip_with.
  destruct (cs !! i) as [c|] eqn:Hc; [|done]. cbn.
  destruct (vs !! i) as [v|] eqn:Hv; cbn.
  - f_equal. unfold filteredMessage. rewrite lookup_zip_with, Hc. cbn. rewrite Hv. cbn.
    destruct v as [| | g |]; cbn [decisionFor finalMessage];
      try (unfold originalMessage; rewrite trim_newline;
           by destruct (JS.truthy (JS.trim (c_message c)))).
    by rewrite (Himp i g Hv).
  - apply lookup_ge_None in Hv. apply lookup_lt_Some in Hc. lia.
Qed.

Lemma plan_ids (H : list commit) (cs : list commit) (n k : nat) :
  map commitId (expectedPlan E this H n k cs) = map c_hash cs.
Proof.
  unfold expectedPlan.
  pose proof (expectedVerdicts_length E this H cs n k 0%nat) as Hlen.
  revert Hlen. generalize (expectedVerdicts E this H n k 0 cs).
  induction cs as [|c cs IH]; intros [|v vs] Hlen; cbn in *; try done.
  rewrite IH by lia. by destruct v.
Qed.

Lemma askConfirmation_yes (q : string) (w : world) :
  e_answer E (w_questions w) = "y" ->
  askConfirmation E q w
  = (Ok true, setQuestions (S (w_questions w)) (setTrace (w_trace w ++ [Asked q])%list w)).
Proof. intros Hy. unfold askConfirmation. by rewrite Hy. Qed.

Lemma createBackupBranch_creates (currentBranch : string) (w : world) :
  let name := "backup-" ++ currentBranch ++ "-" ++ e_now E in
  e_breaks E (w_commands w) (GitBranch name) = false ->
  name ∉ w_branches w ->
  createBackupBranch E currentBranch w
  = (Ok name, setBranches (w_branches w ++ [name])%list (setCommands (S (w_commands w)) w)).
Proof.
  intros name Hb Hfresh. unfold createBackupBranch, bind. fold name.
  rewrite execCommand_runs by done. unfold tryCatch. cbn [git].
  cbn [w_branches setCommands]. rewrite bool_decide_eq_false_2 by done. reflexivity.
Qed.

Lemma expectedPlan_no_breaks (H : list commit) (cs : list commit) (n k : nat) :
  (forall n cmd, e_breaks E n cmd = false) ->
  expectedPlan E this H n k cs = expectedPlan E this H 0 k cs.
Proof.
  intros Hb. unfold expectedPlan. by rewrite expectedVerdicts_no_breaks.
Qed.

Lemma improved_is_in_map (H : list commit) (cs : list commit) (n k : nat) :
  NoDup (map c_hash cs) ->
  Exists (fun d => wasGenerated d = true) (expectedPlan E this H n k cs) ->
  size (messageMap (tallyAll loopStart cs (expectedVerdicts E this H n k 0 cs))) <> 0%nat.
Proof.
  intros Hnd Hex. apply Exists_exists in Hex as (d & Hin & Hgen).
  apply list_elem_of_lookup_1 in Hin as [j Hj].
  unfold expectedPlan in Hj. rewrite lookup_zip_with in Hj.
  destruct (cs !! j) as [c|] eqn:Hc; [|done]. cbn in Hj.
  destruct (expectedVerdicts E this H n k 0 cs !! j) as [v|] eqn:Hv; [|done].
  cbn in Hj. injection Hj as <-.
  destruct v as [| | g |]; try done.
  pose proof (tallyAll_lookup cs loopStart _ j c _ Hnd Hc Hv) as Hlook.
  cbn in Hlook. intros Hsize. apply map_size_empty_iff in Hsize.
  rewrite Hsize in Hlook. by rewrite lookup_empty in Hlook.
Qed.

Lemma limitCommits_map (history : list commit) :
  limitCommits this (map c_hash history) = map c_hash (enumeratedCommits this history).
Proof.
  unfold limitCommits, enumeratedCommits, JS.slice.
  destruct (_ && _); [|done]. by rewrite length_map, fmap_drop.
Qed.

Lemma enumeratedCommits_suffix (history : list commit) :
  exists older, history = (older ++ enumeratedCommits this history)%list.
Proof.
  unfold enumeratedCommits. destruct (_ && _).
  - eexists. symmetry. apply take_drop.
  - by exists [].
Qed.

(** In a run where nothing fails and the user agrees, [git filter-branch]
    gives the i-th commit of the whole history the i-th final message of
    the plan, a plan made for the commits [getCommits] selected.  The
    files of the application step are gone. *)
Lemma cooperative_run_applies_plan_from_root (w : world) :
  cooperative E this w ->
  truthyBool (o_dryRun this) = false ->
  let cs := enumeratedCommits this (w_history w) in
  let plan := expectedPlan E this (w_history w) 0 (w_requests w) cs in
  Exists (fun d => wasGenerated d = true) plan ->
  exists w',
    rewrite E this w = (Ok tt, w')
    /\ map commitId plan = map c_hash cs
    /\ map c_message (w_history w')
       = imap (fun i c => filteredMessage (map finalMessage plan) i c) (w_history w)
    /\ map c_files (w_history w') = map c_files (w_history w)
    /\ w_fs w' !! mappingFilePath = None
    /\ w_fs w' !! counterFilePath = None.
Proof.
  intros [Hrepo Hcmd Huser Hvalid Hnd Hbackup] Hdry cs plan Himproved.
  unfold rewrite.
  rewrite (bind_ok _ _ _ _ _ (emit_eq _ _)).
  assert (Hcheck : forall w0, checkGitRepository E w0
                              = (Ok tt, setCommands (S (w_commands w0)) w0)).
  { intros w0. unfold checkGitRepository, tryCatch.
    rewrite (bind_ok _ _ _ _ _
               (execCommand_exact GitRevParseGitDir (".git" ++ newline) w0
                  eq_refl (Hcmd _ _) ltac:(cbn; by rewrite Hrepo))).
    reflexivity. }
  rewrite (bind_ok _ _ _ _ _ (Hcheck _)).
  assert (Hbranch : forall w0, getCurrentBranch E w0
                               = (Ok (JS.trim (e_branchName E ++ newline)),
                                  setCommands (S (w_commands w0)) w0)).
  { intros w0. unfold getCurrentBranch.
    by rewrite (bind_ok _ _ _ _ _
               (execCommand_exact GitRevParseAbbrevRefHead (e_branchName E ++ newline) w0
                  eq_refl (Hcmd _ _) eq_refl)). }
  rewrite (bind_ok _ _ _ _ _ (Hbranch _)).
  rewrite (bind_ok _ _ _ _ _ (emit_eq _ _)).
  unfold checkUncommittedChanges.
  rewrite (bind_ok _ _ _ _ _
             (execCommand_exact GitStatusPorcelain (e_status E) _
                eq_refl (Hcmd _ _) eq_refl)).
  match goal with |- context [bind (when ?b ?m) ?f ?w0] =>
    assert (Hgate : exists w1, when b m w0 = (Ok tt, w1)
                               /\ w_history w1 = w_history w
                               /\ w_branches w1 = w_branches w
                               /\ w_fs w1 = w_fs w
                               /\ w_requests w1 = w_requests w)
  end.
  { destruct (JS.truthy (e_status E)); cbn [when].
    - rewrite (bind_ok _ _ _ _ _ (emit_eq _ _)).
      rewrite (bind_ok _ _ _ _ _ (askConfirmation_yes _ _ (Huser _))).
      cbn [negb when]. eexists. split; [reflexivity|]. done.
    - eexists. split; [reflexivity|]. done. }
  destruct Hgate as (w1 & Hgate & Hh1 & Hb1 & Hf1 & Hr1).
  rewrite (bind_ok _ _ _ _ _ Hgate).
  rewrite (bind_ok _ _ _ _ _ (getCommits_reads_history E this w1 (Hcmd _ _)
                                ltac:(by rewrite Hh1))).
  rewrite Hh1, limitCommits_map. fold cs.
  rewrite (bind_ok _ _ _ _ _ (emit_eq _ _)).
  clear Hgate Hcheck Hbranch.
  assert (Hplan_ne : cs <> []).
  { intros Hnil. subst plan. rewrite Hnil in Himproved. by apply Exists_nil in Himproved. }
  assert (Hcs : NoDup (map c_hash cs)).
  { destruct (enumeratedCommits_suffix (w_history w)) as [older Hsuf]. fold cs in Hsuf.
    rewrite Hsuf, map_app in Hnd. by apply NoDup_app in Hnd as (_ & _ & ?). }
  destruct (List.length (map c_hash cs) =? 0)%nat eqn:Hlen.
  { apply Nat.eqb_eq in Hlen. rewrite length_map in Hlen. by destruct cs. }
  rewrite Hdry. cbn [negb when andb].
  (* the confirmation *)
  lazymatch goal with |- exists w', bind ?m ?f ?w0 = _ /\ _ =>
    assert (Hgate : exists w2, m w0 = (Ok tt, w2)
                               /\ w_history w2 = w_history w
                               /\ w_branches w2 = w_branches w
                               /\ w_fs w2 = w_fs w
                               /\ w_requests w2 = w_requests w)
  end.
  { rewrite (bind_ok _ _ _ _ _ (emit_eq _ _)).
    rewrite (bind_ok _ _ _ _ _ (askConfirmation_yes _ _ (Huser _))).
    cbn [negb when]. eexists. split; [reflexivity|]. done. }
  clear Hh1 Hb1 Hf1 Hr1.
  destruct Hgate as (w1' & Hgate & Hh1 & Hb1 & Hf1 & Hr1).
  rewrite (bind_ok _ _ _ _ _ Hgate). clear Hgate w1.
  rewrite andb_true_r.
  (* the backup *)
  lazymatch goal with |- exists w', bind ?m ?f ?w0 = _ /\ _ =>
    assert (Hbk : exists b w2, m w0 = (Ok b, w2)
                               /\ w_history w2 = w_history w
                               /\ w_fs w2 = w_fs w
                               /\ w_requests w2 = w_requests w)
  end.
  { destruct (truthyBool (o_skipBackup this)) eqn:Hskip; cbn [negb].
    - eexists _, _. split; [reflexivity|]. done.
    - destruct Hbackup as [? | Hfresh]; [done|].
      rewrite (bind_ok _ _ _ _ _ (createBackupBranch_creates _ _ (Hcmd _ _)
                                    ltac:(cbv zeta; rewrite Hb1; exact Hfresh))).
      eexists _, _. split; [reflexivity|]. done. }
  destruct Hbk as (backupBranch & w2 & Hbk & Hh2 & Hf2 & Hr2).
  rewrite (bind_ok _ _ _ _ _ Hbk). clear Hbk.
  rewrite (bind_ok _ _ _ _ _ (emit_eq _ _)).
  (* the plan *)
  set (W := setTrace _ w2).
  destruct (buildPlan_builds_expectedPlan E this (w_history w) cs W)
    as (w3 & Hbuild & Hh3 & _ & Hf3); [done|done| |done|].
  { destruct (enumeratedCommits_suffix (w_history w)) as [older Hsuf].
    by apply (enumerated_suffix _ older). }
  rewrite expectedPlan_no_breaks, expectedVerdicts_no_breaks in Hbuild by done.
  change (w_requests W) with (w_requests w2) in Hbuild. rewrite Hr2 in Hbuild.
  fold plan in Hbuild.
  rewrite (bind_ok _ _ _ _ _ Hbuild). clear Hbuild.
  change (w_history W) with (w_history w2) in Hh3. rewrite Hh2 in Hh3.
  change (w_fs W) with (w_fs w2) in Hf3. rewrite Hf2 in Hf3.
  clearbody W. clear dependent w2. clear dependent w1'.
  cbn beta iota.
  unfold bind at 1. cbn [writeFileSync].
  rewrite (bind_ok _ _ _ _ _ (emit_eq _ _)).
  rewrite (bind_ok _ _ _ _ _ (emit_eq _ _)).
  pose proof (improved_is_in_map (w_history w) cs 0 (w_requests w) Hcs Himproved) as Hsize.
  apply Nat.eqb_neq in Hsize. rewrite Hsize.
  rewrite (bind_ok _ _ _ _ _ (askConfirmation_yes _ _ (Huser _))).
  cbn [negb].
  rewrite (bind_ok _ _ _ _ _ (emit_eq _ _)).
  match goal with |- context [tryCatch _ _ ?w0] => set (W2 := w0) end.
  destruct (rewriteHistory_applies_in_order E (map finalMessage plan) W2)
    as (w4 & Hrw & Hmsgs & Hfiles & Hm & Hc & _).
  { unfold W2. cbn. apply lookup_insert_eq. }
  { apply Hcmd. }
  unfold tryCatch. rewrite (bind_ok _ _ _ _ _ Hrw). cbn [emit].
  eexists. split; [reflexivity|].
  cbn [w_history w_fs setTrace].
  change (w_history W2) with (w_history w3) in Hmsgs, Hfiles.
  rewrite Hh3 in Hmsgs, Hfiles.
  split_and!; try done. apply plan_ids.
Qed.

(** With no limit the commits enumerated are the commits walked, and the
    history after the run carries, commit by commit, the final messages
    of the plan: the i-th commit walked is the i-th commit enumerated. *)
Theorem full_run_applies_plan_in_order (w : world) :
  cooperative E this w ->
  truthyBool (o_dryRun this) = false ->
  o_maxCommits this = None ->
  let plan := expectedPlan E this (w_history w) 0 (w_requests w) (w_history w) in
  Exists (fun d => wasGenerated d = true) plan ->
  exists w',
    rewrite E this w = (Ok tt, w')
    /\ map commitId plan = map c_hash (w_history w)
    /\ map c_message (w_history w') = map finalMessage plan
    /\ map c_files (w_history w') = map c_files (w_history w)
    /\ w_fs w' !! mappingFilePath = None
    /\ w_fs w' !! counterFilePath = None.
Proof.
  intros Hcoop Hdry Hmax plan Himproved.
  assert (Hall : enumeratedCommits this (w_history w) = w_history w)
    by (unfold enumeratedCommits; by rewrite Hmax).
  destruct (cooperative_run_applies_plan_from_root w Hcoop Hdry)
    as (w' & Hrun & Hids & Hmsgs & Hfiles & Hmap & Hcounter); [by rewrite Hall|].
  rewrite Hall in Hids, Hmsgs.
  exists w'. split; [done|]. split; [exact Hids|].
  split; [|done]. rewrite Hmsgs. apply filtered_plan.
Qed.

End FullRun.


(** ** The application step on a limited run *)

Lemma limited_sample_is_cooperative :
  cooperative (sampleEnv helpfulProvider neverBreaks)
              (withMaxCommits (Some 2) plainOptions) (freshWorld sampleHistory).
Proof.
  split; try done.
  - repeat constructor.
  - exact sampleHistory_NoDup.
  - right. cbn. apply not_elem_of_nil.
Qed.

(** C1 (as the code behaves). The plan is made for the commits
    [getCommits] selects, but [git filter-branch ... HEAD] walks the whole
    history from its root with the counter at 0: in every run where
    nothing fails and the user agrees, the i-th commit of the whole
    history gets the i-th message of the plan.  With [maxCommits] set
    below the length of the history these are not the commits the plan
    was made for.  History of three commits, limit two: the plan is made
    for [b2e1] and [c3d2]; the message planned for [b2e1] lands on the
    root [a1f0], the one planned for [c3d2] lands on [b2e1], and [c3d2]
    keeps its own. *)
Theorem limited_run_applies_plan_to_oldest_commits :
  (forall E this w,
      cooperative E this w ->
      truthyBool (o_dryRun this) = false ->
      let cs := enumeratedCommits this (w_history w) in
      let plan := expectedPlan E this (w_history w) 0 (w_requests w) cs in
      Exists (fun d => wasGenerated d = true) plan ->
      exists w',
        rewrite E this w = (Ok tt, w')
        /\ map commitId plan = map c_hash cs
        /\ map c_message (w_history w')
           = imap (fun i c => filteredMessage (map finalMessage plan) i c)
                  (w_history w))
  /\
  let E := sampleEnv helpfulProvider neverBreaks in
  let this := withMaxCommits (Some 2) plainOptions in
  let run := rewrite E this (freshWorld sampleHistory) in
  (getCommits E this (freshWorld sampleHistory)).1 = Ok ["b2e1"; "c3d2"]
  /\ run.1 = Ok tt
  /\ w_trace run.2
     = [ Banner; CurrentBranch "main"; Found 2; HistoryWarning; Asked proceedQuestion;
         BackupCreated "backup-main-1700000000000"; Generating;
         ProcessingCommit "b2e1" "wip" (Some "too short, too generic, no trailing period");
         Improved "b2e1" "feat(parser): add the parser and the lexer";
         Sleep 500;
         ProcessingCommit "c3d2" "stuff" (Some "too short, descriptive, no trailing period");
         Improved "c3d2" "feat(cli): add the command line entry point";
         Saved 2; Summary 2 (Some 0%nat) 2 2; Asked applyQuestion;
         RewritingHistory; Success (Some "backup-main-1700000000000") ]
  /\ map (fun c => (c_files c, c_message c)) (w_history run.2)
     = [ (["README.md"], "feat(parser): add the parser and the lexer");
         (["src/parser.ts"; "src/lexer.ts"], "feat(cli): add the command line entry point");
         (["src/cli.ts"], "stuff" ++ newline ++ newline ++ "longer explanation") ].
Proof.
  split.
  - intros E this w Hcoop Hdry cs plan Himproved.
    destruct (cooperative_run_applies_plan_from_root E this w Hcoop Hdry Himproved)
      as (w' & Hrun & Hids & Hmsgs & _).
    by exists w'.
  - vm_compute. repeat split.
Qed.

Lemma limited_run_applies_plan_to_oldest_commits_witness :
  let E := sampleEnv helpfulProvider neverBreaks in
  let this := withMaxCommits (Some 2) plainOptions in
  let w := freshWorld sampleHistory in
  let cs := enumeratedCommits this (w_history w) in
  let plan := expectedPlan E this (w_history w) 0 (w_requests w) cs in
  exists w',
    rewrite E this w = (Ok tt, w')
    /\ map commitId plan = map c_hash cs
    /\ map c_message (w_history w')
       = imap (fun i c => filteredMessage (map finalMessage plan) i c) (w_history w).
Proof.
  apply (proj1 limited_run_applies_plan_to_oldest_commits
           (sampleEnv helpfulProvider neverBreaks)
           (withMaxCommits (Some 2) plainOptions) (freshWorld sampleHistory)).
  - exact limited_sample_is_cooperative.
  - reflexivity.
  - vm_compute. constructor. reflexivity.
Defined.

Lemma sample_is_cooperative :
  cooperative (sampleEnv helpfulProvider neverBreaks) plainOptions
              (freshWorld sampleHistory).
Proof.
  split; try done.
  - repeat constructor.
  - exact sampleHistory_NoDup.
  - right. cbn. apply not_elem_of_nil.
Qed.

Example full_run_on_sample :
  exists w',
    rewrite (sampleEnv helpfulProvider neverBreaks) plainOptions (freshWorld sampleHistory)
    = (Ok tt, w')
    /\ map c_message (w_history w')
       = [ "feat(parser): add the parser and the lexer";
           "feat(cli): add the command line entry point";
           "feat(cli): add the command line entry point" ].
Proof.
  destruct (full_run_applies_plan_in_order (sampleEnv helpfulProvider neverBreaks)
              plainOptions (freshWorld sampleHistory) sample_is_cooperative
              eq_refl eq_refl) as (w' & Hrun & _ & Hmsgs & _).
  - vm_compute. constructor. reflexivity.
  - exists w'. split; [done|]. rewrite Hmsgs. vm_compute. reflexivity.
Qed.

(** A commit whose generated message equals its subject line keeps its
    whole message in the plan, body included; an improved commit does
    not. *)
Example kept_commit_keeps_its_body :
  (buildPlan (sampleEnv echoingProvider neverBreaks) plainOptions
             (map c_hash sampleHistory) (freshWorld sampleHistory)).1
  = Ok (mkLoopState
          (<["b2e1" := "feat(parser): add the parser and the lexer"]>
             (<["a1f0" := "feat(docs): add the readme"]> ∅)) 0 2,
        [ "feat(docs): add the readme";
          "feat(parser): add the parser and the lexer";
          "stuff" ++ newline ++ newline ++ "longer explanation" ]).
Proof. vm_compute. reflexivity. Qed.

(** ** What a dry run reports *)

Lemma bind_Ok_inv {A B} (m : M A) (f : A -> M B) (w w' : world) (b : B) :
  bind m f w = (Ok b, w') -> exists a w1, m w = (Ok a, w1) /\ f a w1 = (Ok b, w').
Proof.
  unfold bind. destruct (m w) as [[a | e | c] w1]; [eauto | done | done].
Qed.

Lemma trace_grows {A} (m : M A) (w : world) :
  keeps untouched m -> exists evs, w_trace (m w).2 = (w_trace w ++ evs)%list.
Proof. intros Hk. destruct (Hk w) as (_ & _ & evs & Hevs & _). eauto. Qed.

Lemma shownSince_grows (n : nat) (w w' : world) (evs : list event) :
  (n <= List.length (w_trace w))%nat ->
  w_trace w' = (w_trace w ++ evs)%list ->
  shownSince n w' = (shownSince n w ++ evs)%list.
Proof.
  intros Hn Ht. unfold shownSince. rewrite Ht, drop_app_le by lia. done.
Qed.

Lemma improvementsShown_grows (n : nat) (mp : gmap string string) (w w' : world)
    (evs : list event) :
  (n <= List.length (w_trace w))%nat ->
  w_trace w' = (w_trace w ++ evs)%list ->
  improvementsShown n mp w ->
  improvementsShown n mp w' /\ (n <= List.length (w_trace w'))%nat.
Proof.
  intros Hn Ht Hs. split.
  - intros h m Hm. rewrite (shownSince_grows n w w' evs) by done.
    apply in_or_app. left. by apply Hs.
  - rewrite Ht, length_app. lia.
Qed.

Lemma improvementsShown_insert (n : nat) (mp : gmap string string) (w w' : world)
    (h g : string) (evs : list event) :
  (n <= List.length (w_trace w))%nat ->
  w_trace w' = (w_trace w ++ Improved h g :: evs)%list ->
  improvementsShown n mp w ->
  improvementsShown n (<[h := g]> mp) w' /\ (n <= List.length (w_trace w'))%nat.
Proof.
  intros Hn Ht Hs. split.
  - intros h' m Hm. rewrite (shownSince_grows n w w' _ Hn Ht).
    apply in_or_app. destruct (decide (h = h')) as [<- | Hne].
    + rewrite lookup_insert_eq in Hm. injection Hm as <-. right. by left.
    + rewrite lookup_insert_ne in Hm by done. left. by apply Hs.
  - rewrite Ht, length_app. lia.
Qed.

Section Shows.
Variable E : env.
Variable this : Options.

Lemma generateFor_shows (n total i : nat) (info : CommitInfo) (st : LoopState) (w : world) :
  (n <= List.length (w_trace w))%nat ->
  improvementsShown n (messageMap st) w ->
  exists st' w',
    generateFor E this total i info st w = (Ok st', w')
    /\ improvementsShown n (messageMap st') w'
    /\ (n <= List.length (w_trace w'))%nat.
Proof.
  intros Hn Hshown. unfold generateFor.
  destruct (generateCommitMessage_answers E this info (w_history w) (w_commands w)
              (w_requests w) w) as (w1 & Hgen & _); [done|].
  rewrite (bind_ok _ _ _ _ _ Hgen).
  destruct (trace_grows (generateCommitMessage E this (ci_diff info) (ci_files info)
                           (ci_message info)) w) as [evs Hevs].
  { apply keeps_generateCommitMessage. done. }
  rewrite Hgen in Hevs. cbn [snd] in Hevs.
  set (g := answerFor E this (w_requests w) info).
  destruct (improvementsShown_grows n _ w w1 evs Hn Hevs Hshown) as [Hshown1 Hn1].
  destruct (negb (String.eqb g (ci_message info))).
  - rewrite (bind_ok _ _ _ _ _ (eq_refl : (emit _ ;;; ret _) w1 = (Ok _, _))).
    destruct (Z.of_nat i <? Z.of_nat total - 1); cbn [when];
      eexists _, _; (split; [reflexivity|]); cbn [messageMap].
    + eapply (improvementsShown_insert n _ w1 _ _ _ [Sleep 500]); [done | | done].
      cbn. by rewrite <- app_assoc.
    + eapply (improvementsShown_insert n _ w1 _ _ _ []); [done | | done]. done.
  - rewrite (bind_ok _ _ _ _ _ (eq_refl : (emit _ ;;; ret _) w1 = (Ok _, _))).
    destruct (Z.of_nat i <? Z.of_nat total - 1); cbn [when];
      eexists _, _; (split; [reflexivity|]).
    + eapply (improvementsShown_grows n _ w1 _ [_; _]); [done | | done].
      cbn. by rewrite <- app_assoc.
    + eapply (improvementsShown_grows n _ w1 _ [_]); [done | | done]. done.
Qed.

Lemma iteration_shows (n total i : nat) (hash : string) (st : LoopState) (w : world) :
  (n <= List.length (w_trace w))%nat ->
  improvementsShown n (messageMap st) w ->
  exists st' w',
    tryCatch (processCommit E this total i hash st)
             (fun error => emit (ErrorProcessing hash error) ;;; ret st) w
    = (Ok st', w')
    /\ improvementsShown n (messageMap st') w'
    /\ (n <= List.length (w_trace w'))%nat.
Proof.
  intros Hn Hshown. unfold tryCatch, processCommit. unfold bind at 1.
  pose proof (noExit_getCommitInfo E hash i w) as Hne.
  destruct (trace_grows (getCommitInfo E hash i) w) as [evs Hevs].
  { apply keeps_getCommitInfo. }
  destruct (getCommitInfo E hash i w) as [[info | e | code] w1];
    cbn [fst snd] in Hne, Hevs; [| |by destruct (Hne code)].
  - destruct (improvementsShown_grows n _ w w1 evs Hn Hevs Hshown) as [Hshown1 Hn1].
    destruct (truthyBool (o_skipWellFormed this)); cbn zeta.
    + destruct (isWellFormed _).
      * eexists _, _. split; [reflexivity|]. cbn [messageMap].
        by eapply (improvementsShown_grows n _ w1 _ [_]).
      * unfold bind at 1. cbn [emit].
        destruct (improvementsShown_grows n _ w1
                    (setTrace (w_trace w1 ++ [ProcessingCommit hash (ci_message info)
                       (Some (reason (assessCommitQuality this (ci_message info))))]) w1)
                    [_] Hn1 eq_refl Hshown1) as [Hs2 Hn2].
        destruct (generateFor_shows n total i info st _ Hn2 Hs2) as (st' & w' & Hg & ?).
        rewrite Hg. eauto.
    + unfold bind at 1. cbn [emit].
      destruct (improvementsShown_grows n _ w1
                  (setTrace (w_trace w1 ++ [ProcessingCommit hash (ci_message info) None]) w1)
                  [_] Hn1 eq_refl Hshown1) as [Hs2 Hn2].
      destruct (generateFor_shows n total i info st _ Hn2 Hs2) as (st' & w' & Hg & ?).
      rewrite Hg. eauto.
  - destruct (improvementsShown_grows n _ w w1 evs Hn Hevs Hshown) as [Hshown1 Hn1].
    eexists _, _. split; [reflexivity|].
    by eapply (improvementsShown_grows n _ w1 _ [_]).
Qed.

Lemma processCommits_shows (n total : nat) (commits : list string) :
  forall (i : nat) (st : LoopState) (w : world),
    (n <= List.length (w_trace w))%nat ->
    improvementsShown n (messageMap st) w ->
    exists st' w',
      processCommits E this total i commits st w = (Ok st', w')
      /\ improvementsShown n (messageMap st') w'
      /\ (n <= List.length (w_trace w'))%nat.
Proof.
  induction commits as [|hash rest IH]; intros i st w Hn Hshown; cbn [processCommits].
  - eexists _, _. split; [reflexivity|]. done.
  - destruct (iteration_shows n total i hash st w Hn Hshown)
      as (st1 & w1 & Hstep & Hs1 & Hn1).
    rewrite (bind_ok _ _ _ _ _ Hstep). by apply IH.
Qed.

End Shows.

Lemma step_grows {A} (m : M A) (w1 w2 : world) (r : result A) (n : nat) :
  keeps untouched m -> m w1 = (r, w2) ->
  (n <= List.length (w_trace w1))%nat ->
  (n <= List.length (w_trace w2))%nat
  /\ exists evs, w_trace w2 = (w_trace w1 ++ evs)%list.
Proof.
  intros Hk Hm Hn. destruct (trace_grows m w1 Hk) as [evs Hevs].
  rewrite Hm in Hevs. cbn in Hevs. split; [|eauto].
  rewrite Hevs, length_app. lia.
Qed.

Ltac keeps_known :=
  first [ apply keeps_checkGitRepository | apply keeps_getCurrentBranch
        | apply keeps_checkUncommittedChanges | apply keeps_getCommits
        | repeat keeps_step ].

Ltac grow n H Hn Hn' :=
  lazymatch type of H with
  | ?m ?w1 = (_, ?w2) =>
      let K := fresh "K" in
      assert (K : keeps untouched m) by keeps_known;
      destruct (step_grows m w1 w2 _ n K H Hn) as [Hn' _]; clear K
  end.

Section DryReport.
Variable E : env.
Variable this : Options.

Lemma buildPlan_shows (n : nat) (commits : list string) (w w' : world)
    (st : LoopState) (ordered : list string) :
  (n <= List.length (w_trace w))%nat ->
  buildPlan E this commits w = (Ok (st, ordered), w') ->
  improvementsShown n (messageMap st) w' /\ (n <= List.length (w_trace w'))%nat.
Proof.
  intros Hn Hrun. unfold buildPlan in Hrun.
  destruct (processCommits_shows E this n (List.length commits) commits 0%nat loopStart w Hn)
    as (st1 & w1 & Hloop & Hs1 & Hn1).
  { intros h m Hm. cbn in Hm. by rewrite lookup_empty in Hm. }
  rewrite (bind_ok _ _ _ _ _ Hloop) in Hrun.
  apply bind_Ok_inv in Hrun as (msgs & w2 & Horder & Hret).
  injection Hret as <- <- <-.
  destruct (step_grows _ _ _ _ n (keeps_orderMessages E (messageMap st1) commits)
              Horder Hn1) as [Hn2 [evs Hevs]].
  by apply (improvementsShown_grows n _ w1 w2 evs).
Qed.

Lemma dry_run_reports (w w' : world) :
  truthyBool (o_dryRun this) = true ->
  rewrite E this w = (Ok tt, w') ->
  exists before final,
    shownSince (List.length (w_trace w)) w' = (before ++ [final])%list
    /\ completionReport final = true
    /\ (final = DryRunCompleted ->
        exists st total skipped,
          In (Summary total skipped (improvedCount st) (size (messageMap st))) before
          /\ size (messageMap st) <> 0%nat
          /\ forall h m, messageMap st !! h = Some m -> In (Improved h m) before)
    /\ (final <> NoCommitsFound ->
        exists ordered, w_fs w' !! mappingFilePath = Some (JsonStrings ordered)).
Proof.
  intros Hdry Hrun. set (n := List.length (w_trace w)).
  unfold rewrite in Hrun. rewrite Hdry in Hrun. cbn [negb when] in Hrun.
  apply bind_Ok_inv in Hrun as (? & w1 & H1 & Hrun). grow n H1 (Nat.le_refl n) Hn1.
  apply bind_Ok_inv in Hrun as (? & w2 & H2 & Hrun). grow n H2 Hn1 Hn2.
  apply bind_Ok_inv in Hrun as (currentBranch & w3 & H3 & Hrun). grow n H3 Hn2 Hn3.
  apply bind_Ok_inv in Hrun as (? & w4 & H4 & Hrun). grow n H4 Hn3 Hn4.
  apply bind_Ok_inv in Hrun as (status & w5 & H5 & Hrun). grow n H5 Hn4 Hn5.
  apply bind_Ok_inv in Hrun as (? & w6 & H6 & Hrun). grow n H6 Hn5 Hn6.
  apply bind_Ok_inv in Hrun as (commits & w7 & H7 & Hrun). grow n H7 Hn6 Hn7.
  apply bind_Ok_inv in Hrun as (? & w8 & H8 & Hrun). grow n H8 Hn7 Hn8.
  clear H1 H2 H3 H4 H5 H6 H7 H8 Hn1 Hn2 Hn3 Hn4 Hn5 Hn6 Hn7 w1 w2 w3 w4 w5 w6 w7.
  destruct (List.length commits =? 0)%nat.
  - injection Hrun as <-. exists (shownSince n w8), NoCommitsFound.
    split; [|done]. unfold shownSince. cbn. by rewrite drop_app_le.
  - rewrite andb_false_r in Hrun.
    apply bind_Ok_inv in Hrun as (? & w9 & H9 & Hrun). inversion H9; subst; clear H9.
    apply bind_Ok_inv in Hrun as (bk & w10 & H10 & Hrun). inversion H10; subst; clear H10.
    apply bind_Ok_inv in Hrun as (? & w11 & H11 & Hrun). grow (List.length (w_trace w)) H11 Hn8 Hn11.
    apply bind_Ok_inv in Hrun as ([st ordered] & w12 & H12 & Hrun).
    destruct (buildPlan_shows _ commits w11 w12 st ordered Hn11 H12) as [Hshown Hn12].
    clear H11 H12 Hn8 Hn11 w11.
    cbn beta iota in Hrun.
    apply bind_Ok_inv in Hrun as (? & w13 & H13 & Hrun). inversion H13; subst; clear H13.
    apply bind_Ok_inv in Hrun as (? & w14 & H14 & Hrun). inversion H14; subst; clear H14.
    apply bind_Ok_inv in Hrun as (? & w15 & H15 & Hrun). inversion H15; subst; clear H15.
    set (summary := Summary _ _ _ _) in Hrun.
    set (W := setTrace _ _) in Hrun.
    assert (Hfinal : forall final,
               emit final W = (Ok tt, w') ->
               shownSince (List.length (w_trace w)) w'
               = ((shownSince (List.length (w_trace w)) w12
                   ++ [Saved (List.length ordered); summary]) ++ [final])%list).
    { intros final Hf. inversion Hf; subst. unfold shownSince.
      cbn [w_trace setTrace setFs].
      rewrite <- !app_assoc. cbn [app]. by rewrite drop_app_le. }
    assert (Hsummary : In summary (shownSince (List.length (w_trace w)) w12
                                   ++ [Saved (List.length ordered); summary])%list).
    { apply in_or_app. right. right. by left. }
    assert (Hfile : forall final,
               emit final W = (Ok tt, w') ->
               exists ordered', w_fs w' !! mappingFilePath = Some (JsonStrings ordered')).
    { intros final Hf. inversion Hf; subst. exists ordered. cbn. apply lookup_insert_eq. }
    clearbody W.
    destruct (size (messageMap st) =? 0)%nat eqn:Hsize.
    + destruct (0 <? skippedCount st)%nat.
      * exists (shownSince (List.length (w_trace w)) w12
                ++ [Saved (List.length ordered); summary])%list, AllWellFormed.
        split; [by apply Hfinal|]. split_and!; try done. intros _. by eapply Hfile.
      * exists (shownSince (List.length (w_trace w)) w12
                ++ [Saved (List.length ordered); summary])%list, NoMessagesToChange.
        split; [by apply Hfinal|]. split_and!; try done. intros _. by eapply Hfile.
    + exists (shownSince (List.length (w_trace w)) w12
              ++ [Saved (List.length ordered); summary])%list, DryRunCompleted.
      split; [by apply Hfinal|]. split; [done|].
      split; [|intros _; by eapply Hfile]. intros _.
      exists st, (List.length commits),
        (if truthyBool (o_skipWellFormed this) then Some (skippedCount st) else None).
      split_and!.
      * exact Hsummary.
      * by apply Nat.eqb_neq.
      * intros h m Hm. apply in_or_app. left. by apply Hshown.
Qed.
End DryReport.

(** ** What a run reports, commit by commit *)

#[local] Instance sameTrace_frame : Frame sameTrace (fun _ => False).
Proof.
  split; unfold sameTrace; try (by intros; cbn).
  intros a b c Hab Hbc. by rewrite Hbc.
Qed.

Lemma askConfirmation_agrees (E : env) (q : string) (w : world) :
  agrees (e_answer E (w_questions w)) = true ->
  askConfirmation E q w
  = (Ok true, setQuestions (S (w_questions w)) (setTrace (w_trace w ++ [Asked q])%list w)).
Proof. intros Hy. unfold askConfirmation. unfold agrees in Hy. by rewrite Hy. Qed.

Section Reporting.

Variable E : env.
Variable this : Options.

Lemma getCommitInfo_silent (h : string) (i : nat) (w : world) :
  w_trace (getCommitInfo E h i w).2 = w_trace w.
Proof. exact (keeps_getCommitInfo (R := sameTrace) E h i w). Qed.

Lemma orderMessages_silent (mp : gmap string string) (commits : list string) (w : world) :
  w_trace (orderMessages E mp commits w).2 = w_trace w.
Proof. exact (keeps_orderMessages (R := sameTrace) E mp commits w). Qed.

(** Generation shows the improvement or that the original is kept. *)
Lemma generateFor_reports (total i : nat) (info : CommitInfo) (st : LoopState)
    (H : list commit) (n k : nat) (w : world) :
  standsAt H n k w ->
  let g := answerFor E this k info in
  exists w',
    generateFor E this total i info st w = (Ok (afterGeneration st info g), w')
    /\ standsAt H n (S k) w'
    /\ exists evs, w_trace w' = (w_trace w ++ evs)%list
         /\ In (if negb (String.eqb g (ci_message info))
                then Improved (ci_hash info) g else KeepingOriginal (ci_hash info)) evs.
Proof.
  intros Hw g. unfold generateFor, afterGeneration.
  destruct (generateCommitMessage_answers E this info H n k w Hw) as (w1 & Hgen & Hw1).
  destruct (trace_grows (generateCommitMessage E this (ci_diff info) (ci_files info)
                           (ci_message info)) w) as [evs Hevs].
  { apply keeps_generateCommitMessage. done. }
  rewrite Hgen in Hevs. cbn [snd] in Hevs.
  rewrite (bind_ok _ _ _ _ _ Hgen). fold g.
  destruct (negb (String.eqb g (ci_message info)));
    rewrite (bind_ok _ _ _ _ _ (eq_refl : (emit _ ;;; ret _) w1 = (Ok _, _)));
    destruct (Z.of_nat i <? Z.of_nat total - 1); cbn [when];
    eexists; (split; [reflexivity|]); (split; [exact Hw1|]); cbn [w_trace setTrace];
    rewrite Hevs, <- ?app_assoc; eexists; (split; [reflexivity|]);
    apply in_or_app; right; by left.
Qed.

(** One iteration gives the commit its verdict and shows the line of
    that verdict. *)
Lemma iteration_reports_verdict (total i : nat) (h : string) (c : commit)
    (st : LoopState) (H : list commit) (n k n' k' : nat) (v : verdict) (w : world) :
  standsAt H n k w ->
  findCommit h H = Some c ->
  (i <> 0%nat -> isRoot h H = false) ->
  verdictFor E this H n k i c = (v, n', k') ->
  exists w',
    tryCatch (processCommit E this total i h st)
             (fun error => emit (ErrorProcessing h error) ;;; ret st) w
    = (Ok (tally st c v), w')
    /\ standsAt H n' k' w'
    /\ exists evs, w_trace w' = (w_trace w ++ evs)%list
                   /\ Exists (verdictLine E this c v) evs.
Proof.
  intros Hw Hfind Hroot Hv.
  pose proof (findCommit_hash _ _ _ Hfind) as Hhash.
  unfold verdictFor in Hv. rewrite Hhash in Hv.
  destruct (runReads E n (readsOf h i)) as [allRead n1] eqn:Hreads.
  destruct allRead; cbn [negb] in Hv.
  - destruct (getCommitInfo_reads E h i c H n k n1 w Hw Hfind Hroot Hreads)
      as (w1 & Hinfo & Hw1).
    pose proof (getCommitInfo_silent h i w) as Hsilent.
    rewrite Hinfo in Hsilent. cbn [snd] in Hsilent.
    unfold tryCatch, processCommit. rewrite (bind_ok _ _ _ _ _ Hinfo).
    cbn [ci_message infoOf].
    assert (Hgen : forall needs,
               v = (if negb (String.eqb (answerFor E this k (infoOf E H c i))
                                        (subjectLine E c))
                    then ImprovedTo (answerFor E this k (infoOf E H c i))
                    else KeptOriginal) ->
               n' = n1 -> k' = S k ->
               exists w',
                 match (emit (ProcessingCommit h (subjectLine E c) needs) ;;;
                        generateFor E this total i (infoOf E H c i) st) w1 with
                 | (Throw e, w'0) => (emit (ErrorProcessing h e) ;;; ret st) w'0
                 | other => other
                 end = (Ok (tally st c v), w')
                 /\ standsAt H n' k' w'
                 /\ exists evs, w_trace w' = (w_trace w ++ evs)%list
                                /\ Exists (verdictLine E this c v) evs).
    { intros needs -> -> ->.
      rewrite (bind_ok _ _ _ _ _ (emit_eq _ _)).
      destruct (generateFor_reports total i (infoOf E H c i) st H n1 k
                  (setTrace (w_trace w1 ++ [ProcessingCommit h (subjectLine E c) needs]) w1)
                  Hw1) as (w2 & Hrun & Hw2 & evs & Hevs & Hin).
      rewrite Hrun. exists w2. rewrite (tally_generation E H _ _ i).
      split; [done|]. split; [done|].
      cbn [w_trace setTrace] in Hevs. rewrite Hsilent, <- app_assoc in Hevs.
      eexists. split; [exact Hevs|].
      apply Exists_app. right. apply Exists_exists. eexists.
      split; [apply list_elem_of_In; exact Hin|].
      cbn [ci_message ci_hash infoOf]. destruct (negb _); cbn; by rewrite Hhash. }
    destruct (truthyBool (o_skipWellFormed this)); cbn [andb] in Hv.
    + destruct (isWellFormed _) eqn:Hwf.
      * injection Hv as <- <- <-.
        eexists. split; [reflexivity|]. split; [done|].
        cbn [w_trace setTrace]. rewrite Hsilent. eexists. split; [reflexivity|].
        constructor. cbn. by rewrite Hhash.
      * injection Hv as Hv <- <-. by apply Hgen.
    + injection Hv as Hv <- <-. by apply Hgen.
  - injection Hv as <- <- <-.
    destruct (getCommitInfo_fails E h i c H n k n1 w Hw Hfind Hreads)
      as (e & w1 & Hthrow & Hw1).
    pose proof (getCommitInfo_silent h i w) as Hsilent.
    rewrite Hthrow in Hsilent. cbn [snd] in Hsilent.
    unfold tryCatch, processCommit. unfold bind at 1. rewrite Hthrow.
    eexists. split; [reflexivity|]. split; [done|].
    cbn [w_trace setTrace]. rewrite Hsilent. eexists. split; [reflexivity|].
    constructor. cbn. rewrite Hhash. eauto.
Qed.

(** The generation pass gives every commit its verdict, in order,
    whatever the verdicts before it, shows the line of each verdict and
    always completes. *)
Lemma processCommits_reports (total : nat) (H : list commit) (cs : list commit) :
  forall (i : nat) (st : LoopState) (n k : nat) (w : world),
    standsAt H n k w ->
    enumeratedFrom H i cs ->
    let vs := expectedVerdicts E this H n k i cs in
    exists w',
      processCommits E this total i (map c_hash cs) st w = (Ok (tallyAll st cs vs), w')
      /\ w_history w' = H
      /\ exists evs, w_trace w' = (w_trace w ++ evs)%list
           /\ forall j c v, cs !! j = Some c -> vs !! j = Some v ->
                Exists (verdictLine E this c v) evs.
Proof.
  induction cs as [|c cs IH]; intros i st n k w Hw Hen vs.
  - exists w. split; [reflexivity|]. split; [by destruct Hw|].
    exists []. rewrite app_nil_r. split; [done|]. intros j c v Hc. done.
  - subst vs. cbn [map processCommits expectedVerdicts].
    destruct (verdictFor E this H n k i c) as [[v n'] k'] eqn:Hv.
    cbn [tallyAll].
    destruct (Hen 0%nat c eq_refl) as [Hfind Hroot].
    destruct (iteration_reports_verdict total i (c_hash c) c st H n k n' k' v w
                Hw Hfind) as (w1 & Hstep & Hw1 & evs1 & Hevs1 & Hline); [|exact Hv|].
    { intros Hi. apply Hroot. lia. }
    rewrite (bind_ok _ _ _ _ _ Hstep).
    destruct (IH (S i) (tally st c v) n' k' w1 Hw1 (enumeratedFrom_tail _ _ _ _ Hen))
      as (w2 & Hrest & Hh2 & evs2 & Hevs2 & Hlines).
    exists w2. split; [exact Hrest|]. split; [done|].
    exists (evs1 ++ evs2)%list. split; [by rewrite Hevs2, Hevs1, app_assoc|].
    intros j c' v' Hc' Hv'. apply Exists_app. destruct j as [|j]; cbn in Hc', Hv'.
    + injection Hc' as <-. injection Hv' as <-. by left.
    + right. by eapply Hlines.
Qed.

Lemma tallyAll_counts (cs : list commit) :
  forall (st : LoopState) (vs : list verdict),
    List.length vs = List.length cs ->
    skippedCount (tallyAll st cs vs) = (skippedCount st + skippedIn vs)%nat
    /\ improvedCount (tallyAll st cs vs) = (improvedCount st + improvedIn vs)%nat.
Proof.
  induction cs as [|c cs IH]; intros st [|v vs] Hlen; try discriminate.
  - cbn. unfold skippedIn, improvedIn. cbn. lia.
  - cbn [tallyAll]. injection Hlen as Hlen.
    destruct (IH (tally st c v) vs Hlen) as [Hs Hi]. rewrite Hs, Hi.
    unfold skippedIn, improvedIn. destruct v; cbn; lia.
Qed.

Lemma tallyAll_size (cs : list commit) :
  forall (st : LoopState) (vs : list verdict),
    NoDup (map c_hash cs) ->
    List.length vs = List.length cs ->
    (forall c, c ∈ cs -> messageMap st !! c_hash c = None) ->
    size (messageMap (tallyAll st cs vs)) = (size (messageMap st) + improvedIn vs)%nat.
Proof.
  induction cs as [|c cs IH]; intros st [|v vs] Hnd Hlen Hfresh; try discriminate.
  - cbn. unfold improvedIn. cbn. lia.
  - cbn [tallyAll]. injection Hlen as Hlen. cbn in Hnd.
    apply NoDup_cons in Hnd as [Hnew Hnd].
    rewrite IH; [|done|done|].
    + unfold improvedIn. destruct v; cbn; try lia.
      rewrite map_size_insert_None; [lia|]. apply Hfresh, elem_of_cons. by left.
    + intros c' Hc'.
      assert (Hne : c_hash c <> c_hash c').
      { intros Heq. apply Hnew. rewrite Heq. apply list_elem_of_fmap. by exists c'. }
      destruct v; cbn; try (apply Hfresh, elem_of_cons; by right).
      rewrite lookup_insert_ne by done. apply Hfresh, elem_of_cons. by right.
Qed.

End Reporting.

(** ** From the start of a run to the plan *)

Section Prefix.

Variable E : env.
Variable this : Options.

Lemma prepared_enumerates (w : world) :
  prepared E this w ->
  let cs := enumeratedCommits this (w_history w) in
  NoDup (map c_hash cs) /\ enumeratedFrom (w_history w) 0 cs.
Proof.
  intros [_ _ _ _ Hnd _] cs.
  destruct (enumeratedCommits_suffix this (w_history w)) as [older Hsuf]. fold cs in Hsuf.
  split.
  - rewrite Hsuf, map_app in Hnd. by apply NoDup_app in Hnd as (_ & _ & ?).
  - by apply (enumerated_suffix _ older).
Qed.

(** The steps of [rewrite] before the two loops.  With no commit to
    process the run ends there; otherwise it reaches the loops with the
    repository as it was, the backup branch apart, having run the
    commands of the preparation only. *)
Lemma rewrite_reaches_the_plan (w : world) :
  prepared E this w ->
  let cs := enumeratedCommits this (w_history w) in
  (cs = [] ->
   exists w' shown,
     rewrite E this w = (Ok tt, w')
     /\ w_trace w' = (w_trace w ++ shown ++ [Found 0; NoCommitsFound])%list)
  /\ (cs <> [] ->
      exists (W : world) (shown : list event) (tail : LoopState * list string -> M unit),
        rewrite E this w = bind (buildPlan E this (map c_hash cs)) tail W
        /\ w_history W = w_history w /\ w_fs W = w_fs w /\ w_requests W = w_requests w
        /\ w_commands W = planStart this w
        /\ w_branches W = (if backs this then (w_branches w ++ [backupName E])%list
                           else w_branches w)
        /\ w_trace W = (w_trace w ++ shown)%list
        /\ In (Found (List.length cs)) shown
        /\ (backs this = true -> In (BackupCreated (backupName E)) shown)
        /\ (truthyBool (o_dryRun this) = true ->
            forall st ordered w1,
              tail (st, ordered) w1
              = (Ok tt,
                 setTrace
                   (w_trace w1
                    ++ [ Saved (List.length ordered);
                         Summary (List.length cs)
                                 (if truthyBool (o_skipWellFormed this)
                                  then Some (skippedCount st) else None)
                                 (improvedCount st) (size (messageMap st));
                         if (size (messageMap st) =? 0)%nat
                         then (if (0 <? skippedCount st)%nat
                               then AllWellFormed else NoMessagesToChange)
                         else DryRunCompleted ])%list
                   (setFs (<[mappingFilePath := JsonStrings ordered]> (w_fs w1)) w1)))).
Proof.
  intros [Hrepo Hcmd Huser Hvalid Hnd Hbackup]. cbv zeta.
  remember (enumeratedCommits this (w_history w)) as cs eqn:Hcs.
  pose proof (eq_refl (rewrite E this w)) as Hrun.
  unfold rewrite at 2 in Hrun.
  rewrite (bind_ok _ _ _ _ _ (emit_eq _ _)) in Hrun.
  assert (Hcheck : forall w0, checkGitRepository E w0
                              = (Ok tt, setCommands (S (w_commands w0)) w0)).
  { intros w0. unfold checkGitRepository, tryCatch.
    rewrite (bind_ok _ _ _ _ _
               (execCommand_exact E GitRevParseGitDir (".git" ++ newline) w0
                  eq_refl (Hcmd _ GitRevParseGitDir eq_refl) ltac:(cbn; by rewrite Hrepo))).
    reflexivity. }
  rewrite (bind_ok _ _ _ _ _ (Hcheck _)) in Hrun.
  assert (Hbranch : forall w0, getCurrentBranch E w0
                               = (Ok (JS.trim (e_branchName E ++ newline)),
                                  setCommands (S (w_commands w0)) w0)).
  { intros w0. unfold getCurrentBranch.
    by rewrite (bind_ok _ _ _ _ _
               (execCommand_exact E GitRevParseAbbrevRefHead (e_branchName E ++ newline) w0
                  eq_refl (Hcmd _ GitRevParseAbbrevRefHead eq_refl) eq_refl)). }
  rewrite (bind_ok _ _ _ _ _ (Hbranch _)) in Hrun.
  rewrite (bind_ok _ _ _ _ _ (emit_eq _ _)) in Hrun.
  unfold checkUncommittedChanges in Hrun.
  rewrite (bind_ok _ _ _ _ _
             (execCommand_exact E GitStatusPorcelain (e_status E) _
                eq_refl (Hcmd _ GitStatusPorcelain eq_refl) eq_refl)) in Hrun.
  clear Hcheck Hbranch.
  (* the first prompt *)
  lazymatch type of Hrun with _ = bind (when ?b ?m) ?f ?w0 =>
    assert (Hgate : exists w1 evs,
               when b m w0 = (Ok tt, w1)
               /\ w_history w1 = w_history w /\ w_branches w1 = w_branches w
               /\ w_fs w1 = w_fs w /\ w_requests w1 = w_requests w
               /\ w_commands w1 = (w_commands w + 3)%nat
               /\ w_trace w1 = (w_trace w ++ evs)%list)
  end.
  { destruct (JS.truthy (e_status E)); cbn [when].
    - rewrite (bind_ok _ _ _ _ _ (emit_eq _ _)).
      rewrite (bind_ok _ _ _ _ _ (askConfirmation_agrees _ _ _ (Huser _))).
      cbn [negb when]. eexists _, _. split; [reflexivity|].
      cbn. split_and!; [done.. | lia |]. rewrite <- !app_assoc. reflexivity.
    - eexists _, _. split; [reflexivity|].
      cbn. split_and!; [done.. | lia |]. rewrite <- !app_assoc. reflexivity. }
  destruct Hgate as (w1 & evs1 & Hgate & Hh1 & Hb1 & Hf1 & Hr1 & Hc1 & Ht1).
  rewrite (bind_ok _ _ _ _ _ Hgate) in Hrun. clear Hgate.
  rewrite (bind_ok _ _ _ _ _ (getCommits_reads_history E this w1
                                (Hcmd _ GitRevListReverseHead eq_refl)
                                ltac:(by rewrite Hh1))) in Hrun.
  rewrite Hh1, limitCommits_map, <- Hcs in Hrun.
  rewrite (bind_ok _ _ _ _ _ (emit_eq _ _)) in Hrun.
  rewrite length_map in Hrun.
  destruct (decide (cs = [])) as [Hnil | Hsome].
  { split; [intros _ | done]. rewrite Hnil in Hrun.
    cbn [List.length Nat.eqb] in Hrun. rewrite Hrun.
    eexists _, evs1. split; [reflexivity|].
    cbn. rewrite Ht1, <- !app_assoc. reflexivity. }
  split; [done | intros _].
  assert (Hlen : (List.length cs =? 0)%nat = false) by (by destruct cs).
  rewrite Hlen in Hrun. clear Hlen.
  (* the warning and the second prompt *)
  lazymatch type of Hrun with _ = bind ?m ?f ?w0 =>
    assert (Hgate : exists w2 evs,
               m w0 = (Ok tt, w2)
               /\ w_history w2 = w_history w /\ w_branches w2 = w_branches w
               /\ w_fs w2 = w_fs w /\ w_requests w2 = w_requests w
               /\ w_commands w2 = (w_commands w + 4)%nat
               /\ w_trace w2 = (w_trace w ++ evs)%list
               /\ In (Found (List.length cs)) evs)
  end.
  { destruct (truthyBool (o_dryRun this)); cbn [negb when].
    - eexists _, _. split; [reflexivity|].
      cbn. rewrite Ht1, <- app_assoc. split_and!; [done.. | lia | reflexivity |].
      apply in_or_app. right. by left.
    - rewrite (bind_ok _ _ _ _ _ (emit_eq _ _)).
      rewrite (bind_ok _ _ _ _ _ (askConfirmation_agrees _ _ _ (Huser _))).
      cbn [negb when]. eexists _, _. split; [reflexivity|].
      cbn. rewrite Ht1, <- !app_assoc. split_and!; [done.. | lia | reflexivity |].
      apply in_or_app. right. by left. }
  destruct Hgate as (w2 & evs2 & Hgate & Hh2 & Hb2 & Hf2 & Hr2 & Hc2 & Ht2 & Hfound).
  rewrite (bind_ok _ _ _ _ _ Hgate) in Hrun. clear Hgate.
  clear dependent w1.
  (* the backup *)
  lazymatch type of Hrun with _ = bind ?m ?f ?w0 =>
    assert (Hbk : exists b w3 evs,
               m w0 = (Ok b, w3)
               /\ w_history w3 = w_history w /\ w_fs w3 = w_fs w
               /\ w_requests w3 = w_requests w
               /\ w_commands w3 = planStart this w
               /\ w_branches w3 = (if backs this
                                   then (w_branches w ++ [backupName E])%list
                                   else w_branches w)
               /\ w_trace w3 = (w_trace w ++ evs)%list
               /\ In (Found (List.length cs)) evs
               /\ (backs this = true -> In (BackupCreated (backupName E)) evs))
  end.
  { unfold planStart. fold (backs this). destruct (backs this) eqn:Hbacks.
    - destruct Hbackup as [? | Hfresh]; [done|].
      rewrite (bind_ok _ _ _ _ _ (createBackupBranch_creates E _ _ (Hcmd _ (GitBranch _) eq_refl)
                                    ltac:(cbv zeta; rewrite Hb2; exact Hfresh))).
      rewrite (bind_ok _ _ _ _ _ (emit_eq _ _)).
      eexists _, _, _. split; [reflexivity|].
      cbn. rewrite Hb2, Ht2, <- app_assoc.
      split_and!; [done.. | lia | reflexivity | reflexivity | |].
      + apply in_or_app. by left.
      + intros _. apply in_or_app. right. by left.
    - eexists _, _, evs2. split; [reflexivity|].
      split_and!; [done.. | lia | done | done | done | done]. }
  destruct Hbk as (backupBranch & w3 & evs3 & Hbk & Hh3 & Hf3 & Hr3 & Hc3 & Hb3 & Ht3
                   & Hfound3 & Hbacked).
  rewrite (bind_ok _ _ _ _ _ Hbk) in Hrun. clear Hbk.
  rewrite (bind_ok _ _ _ _ _ (emit_eq _ _)) in Hrun.
  clear dependent w2.
  eexists _, (evs3 ++ [Generating])%list, _. split; [exact Hrun|].
  cbn [w_history w_fs w_requests w_commands w_branches w_trace setTrace].
  split_and!; try done.
  - by rewrite Ht3, app_assoc.
  - apply in_or_app. by left.
  - intros Hyes. apply in_or_app. left. by apply Hbacked.
  - intros Hdry st ordered w1. cbn beta iota.
    unfold bind at 1. cbn [writeFileSync].
    rewrite (bind_ok _ _ _ _ _ (emit_eq _ _)).
    rewrite (bind_ok _ _ _ _ _ (emit_eq _ _)).
    rewrite Hdry.
    destruct (size (messageMap st) =? 0)%nat; [destruct (0 <? skippedCount st)%nat|];
      unfold emit, setTrace, setFs; cbn; f_equal; f_equal;
      by rewrite <- !app_assoc.
Qed.


End Prefix.

(** ** What a dry run reports, and where a failed read is fatal *)

Lemma Exists_eq_In {A} (x : A) (l : list A) : Exists (fun y => y = x) l -> In x l.
Proof.
  intros (y & Hin & ->)%Exists_exists. by apply list_elem_of_In.
Qed.

Section Reports.

Variable E : env.
Variable this : Options.

Lemma dry_run_starts_without_backup (w : world) :
  truthyBool (o_dryRun this) = true ->
  backs this = false /\ planStart this w = (w_commands w + 4)%nat.
Proof.
  intros Hdry. unfold planStart, backs. rewrite Hdry, andb_false_r. split; [done | lia].
Qed.

(** With the preparation in order and the full messages readable, a dry
    run returns, having shown the number of commits, the line of every
    commit's verdict, hence every proposed message, the summary with the
    counts of the plan, and the ending that fits those counts; the list
    of final messages is written. *)
Lemma dry_run_shows_every_verdict (w : world) :
  prepared E this w ->
  truthyBool (o_dryRun this) = true ->
  (forall n h, e_breaks E n (GitLogBody h) = false) ->
  let cs := enumeratedCommits this (w_history w) in
  let vs := expectedVerdicts E this (w_history w) (w_commands w + 4) (w_requests w) 0 cs in
  let plan := expectedPlan E this (w_history w) (w_commands w + 4) (w_requests w) cs in
  exists w' shown,
    rewrite E this w = (Ok tt, w')
    /\ w_trace w' = (w_trace w ++ shown)%list
    /\ In (Found (List.length cs)) shown
    /\ (forall j c v, cs !! j = Some c -> vs !! j = Some v ->
          Exists (verdictLine E this c v) shown)
    /\ Forall (fun d => wasGenerated d = true ->
                        In (Improved (commitId d) (finalMessage d)) shown) plan
    /\ (cs <> [] ->
        In (summaryOf this vs) shown
        /\ w_fs w' !! mappingFilePath = Some (JsonStrings (map finalMessage plan)))
    /\ last shown = Some (dryRunEnding vs).
Proof.
  intros Hprep Hdry Hbody cs vs plan.
  destruct (prepared_enumerates E this w Hprep) as [Hcs Hen]. fold cs in Hcs, Hen.
  destruct (rewrite_reaches_the_plan E this w Hprep) as [Hnone Hreach].
  fold cs in Hnone, Hreach.
  assert (Hlen : List.length vs = List.length cs) by apply expectedVerdicts_length.
  assert (Hplan : forall shown,
             (forall j c v, cs !! j = Some c -> vs !! j = Some v ->
                Exists (verdictLine E this c v) shown) ->
             Forall (fun d => wasGenerated d = true ->
                              In (Improved (commitId d) (finalMessage d)) shown) plan).
  { intros shown Hlines. apply Forall_lookup. intros j d Hd Hgen.
    unfold plan, expectedPlan in Hd. fold vs in Hd.
    apply lookup_zip_with_Some in Hd as (c & v & -> & Hc & Hv).
    specialize (Hlines j c v Hc Hv).
    destruct v as [| | g |]; try discriminate Hgen.
    cbn in Hlines |- *. by apply Exists_eq_In. }
  destruct (decide (cs = [])) as [Hnil | Hsome].
  { destruct (Hnone Hnil) as (w' & shown & Hrun & Htrace).
    exists w', (shown ++ [Found 0; NoCommitsFound])%list.
    subst vs plan. rewrite Hnil. cbn [expectedVerdicts expectedPlan zip_with].
    split_and!; try done.
    - apply in_or_app. right. by left.
    - change [Found 0; NoCommitsFound] with ([Found 0] ++ [NoCommitsFound])%list.
      by rewrite app_assoc, last_snoc. }
  destruct (Hreach Hsome) as (W & shown & tail & Hrun & HhW & HfW & HrW & HcW & HbW & HtW
                              & Hfound & _ & Htail).
  destruct (dry_run_starts_without_backup w Hdry) as [_ Hstart].
  rewrite Hstart in HcW.
  destruct (processCommits_reports E this (List.length (map c_hash cs)) (w_history w) cs
              0%nat loopStart (w_commands w + 4)%nat (w_requests w) W)
    as (w1 & Hloop & Hh1 & evs & Hevs & Hlines); [done | done |].
  fold vs in Hloop, Hlines.
  set (st := tallyAll loopStart cs vs) in *.
  destruct (orderMessages_lists E (w_history w) (messageMap st) cs vs) with (w := w1)
    as (w2 & Horder & Hh2); [done | | | done |].
  { intros c Hc. apply list_elem_of_lookup_1 in Hc as [j Hj]. by destruct (Hen j c Hj). }
  { exact (map_after_loop E this (w_history w) cs (w_commands w + 4)%nat (w_requests w)
             Hcs). }
  pose proof (orderMessages_silent E (messageMap st) (map c_hash cs) w1) as Hsilent.
  rewrite Horder in Hsilent. cbn [snd] in Hsilent.
  assert (Hbuild : buildPlan E this (map c_hash cs) W
                   = (Ok (st, map finalMessage plan), w2)).
  { unfold buildPlan. rewrite (bind_ok _ _ _ _ _ Hloop), (bind_ok _ _ _ _ _ Horder).
    unfold plan, expectedPlan. fold vs. by rewrite plan_messages. }
  rewrite (bind_ok _ _ _ _ _ Hbuild), (Htail Hdry) in Hrun.
  destruct (tallyAll_counts cs loopStart vs Hlen) as [Hskipped Himproved].
  pose proof (tallyAll_size cs loopStart vs Hcs Hlen (fun _ _ => lookup_empty _)) as Hsize.
  fold st in Hskipped, Himproved, Hsize. cbn in Hskipped, Himproved, Hsize.
  rewrite map_size_empty in Hsize. cbn in Hsize.
  rewrite Hsize, Hskipped, Himproved, <- Hlen in Hrun.
  assert (Hending : (if (improvedIn vs =? 0)%nat
                     then if (0 <? skippedIn vs)%nat then AllWellFormed
                          else NoMessagesToChange
                     else DryRunCompleted) = dryRunEnding vs).
  { unfold dryRunEnding. destruct vs; [|done]. by destruct cs. }
  rewrite Hending in Hrun. fold (summaryOf this vs) in Hrun.
  eexists _, (shown ++ evs
              ++ [Saved (List.length (map finalMessage plan)); summaryOf this vs;
                  dryRunEnding vs])%list.
  split; [exact Hrun|]. cbn [w_trace w_fs setTrace setFs].
  assert (Hall : forall j c v, cs !! j = Some c -> vs !! j = Some v ->
                   Exists (verdictLine E this c v)
                     (shown ++ evs
                      ++ [Saved (List.length (map finalMessage plan)); summaryOf this vs;
                          dryRunEnding vs])%list).
  { intros j c v Hc Hv. apply Exists_app. right. apply Exists_app. left.
    by apply (Hlines j). }
  split_and!.
  - by rewrite Hsilent, Hevs, HtW, <- !app_assoc.
  - apply in_or_app. by left.
  - exact Hall.
  - by apply Hplan.
  - intros _. split; [|apply lookup_insert_eq].
    apply in_or_app. right. apply in_or_app. right. right. by left.
  - rewrite !app_assoc.
    change [Saved (List.length (map finalMessage plan)); summaryOf this vs;
            dryRunEnding vs]
      with ([Saved (List.length (map finalMessage plan)); summaryOf this vs]
            ++ [dryRunEnding vs])%list.
    rewrite app_assoc. apply last_snoc.
Qed.


End Reports.

(** ** Run artifacts *)

Lemma last_of_shown (n : nat) (w : world) (before : list event) (final : event) :
  shownSince n w = (before ++ [final])%list -> last (w_trace w) = Some final.
Proof.
  unfold shownSince. intros Hs.
  rewrite <- (take_drop n (w_trace w)), Hs, app_assoc. apply last_snoc.
Qed.

(** C6 (as the code behaves). The message list is written before the
    summary and only [rewriteHistory] removes it.  Every dry run that
    returns after enumerating at least one commit leaves the file in
    place; so do, on the sample history, a dry run, a run the user
    declines to apply and a run that changes nothing. *)
Theorem message_list_outlives_runs_that_do_not_rewrite :
  (forall E this w w',
      truthyBool (o_dryRun this) = true ->
      rewrite E this w = (Ok tt, w') ->
      last (w_trace w') <> Some NoCommitsFound ->
      exists ordered, w_fs w' !! mappingFilePath = Some (JsonStrings ordered))
  /\ let left E this :=
       let run := rewrite E this (freshWorld sampleHistory) in
       (run.1, w_fs run.2 !! mappingFilePath) in
     left (sampleEnv helpfulProvider neverBreaks) dryOptions
       = (Ok tt, Some (JsonStrings [ "feat(parser): add the parser and the lexer";
                                     "feat(cli): add the command line entry point";
                                     "feat(cli): add the command line entry point" ]))
     /\ left decliningEnv plainOptions
       = (Ok tt, Some (JsonStrings [ "feat(parser): add the parser and the lexer";
                                     "feat(cli): add the command line entry point";
                                     "feat(cli): add the command line entry point" ]))
     /\ left (sampleEnv deadProvider neverBreaks) plainOptions
       = (Ok tt, Some (JsonStrings [ "init"; "wip";
                                     "stuff" ++ newline ++ newline ++ "longer explanation" ])).
Proof.
  split.
  - intros E this w w' Hdry Hrun Hlast.
    destruct (dry_run_reports E this w w' Hdry Hrun)
      as (before & final & Hshown & _ & _ & Hfile).
    apply Hfile. intros ->. apply Hlast. by eapply last_of_shown.
  - vm_compute. repeat split.
Qed.

Lemma message_list_outlives_runs_that_do_not_rewrite_witness :
  exists ordered,
    w_fs (rewrite (sampleEnv helpfulProvider neverBreaks) dryOptions
                  (freshWorld sampleHistory)).2 !! mappingFilePath
    = Some (JsonStrings ordered).
Proof.
  eapply (proj1 message_list_outlives_runs_that_do_not_rewrite
            (sampleEnv helpfulProvider neverBreaks) dryOptions (freshWorld sampleHistory)).
  - reflexivity.
  - vm_compute. reflexivity.
  - vm_compute. discriminate.
Defined.


(** The sample history with a dry run, or with full messages that
    cannot be read: the preparation is in order. *)
Lemma sample_is_prepared (provider : nat -> request -> response)
    (breaks : nat -> command -> bool) (this : Options) :
  (forall n cmd, preparation cmd = true -> breaks n cmd = false) ->
  prepared (sampleEnv provider breaks) this (freshWorld sampleHistory).
Proof.
  intros Hb. split; try done.
  - repeat constructor.
  - exact sampleHistory_NoDup.
  - right. cbn. apply not_elem_of_nil.
Defined.

(** C7. In dry-run mode, in every environment, the run leaves the
    history (ids and messages) and the branches as they were, and
    neither gate of the destructive path is reached: the console shows
    no history warning, no question about proceeding or applying, no
    backup and no rewrite.  When the run returns, the last line is a
    report; when that report is the end of a dry run with changes, the
    summary and every proposed message have been shown.  And the run
    does return and report the plan whenever the preparation is in order
    and the full messages can be read: it shows the number of commits,
    for every enumerated commit the line of its verdict (the proposed
    message of an improved commit, the note that a commit is well-formed
    or keeps its message, the error of a failed read), the summary with
    the counts of the plan, and the ending that fits them, which is the
    dry-run notice as soon as one commit is improved. *)
Theorem dry_run_performs_no_destructive_step (E : env) (this : Options) (w : world) :
  truthyBool (o_dryRun this) = true ->
  let run := rewrite E this w in
  let lines := shownSince (List.length (w_trace w)) run.2 in
  w_history run.2 = w_history w
  /\ w_branches run.2 = w_branches w
  /\ (exists shown, w_trace run.2 = (w_trace w ++ shown)%list
        /\ Forall (fun ev => destructiveEvent ev = false) shown)
  /\ (run.1 = Ok tt ->
      exists before final,
        lines = (before ++ [final])%list
        /\ completionReport final = true
        /\ (final = DryRunCompleted ->
            exists st total skipped,
              In (Summary total skipped (improvedCount st) (size (messageMap st))) before
              /\ size (messageMap st) <> 0%nat
              /\ forall h m, messageMap st !! h = Some m -> In (Improved h m) before))
  /\ (prepared E this w ->
      (forall n h, e_breaks E n (GitLogBody h) = false) ->
      let cs := enumeratedCommits this (w_history w) in
      let vs := expectedVerdicts E this (w_history w) (w_commands w + 4) (w_requests w)
                                 0 cs in
      let plan := expectedPlan E this (w_history w) (w_commands w + 4) (w_requests w) cs in
      run.1 = Ok tt
      /\ In (Found (List.length cs)) lines
      /\ (forall j c v, cs !! j = Some c -> vs !! j = Some v ->
            Exists (verdictLine E this c v) lines)
      /\ Forall (fun d => wasGenerated d = true ->
                          In (Improved (commitId d) (finalMessage d)) lines) plan
      /\ (cs <> [] -> In (summaryOf this vs) lines)
      /\ last lines = Some (dryRunEnding vs)).
Proof.
  intros Hdry run lines.
  destruct (dry_run_untouched E this Hdry w) as (Hh & Hb & Hshown).
  split_and!; try done.
  - intros Hok.
    destruct (dry_run_reports E this w run.2 Hdry) as (before & final & ? & ? & ? & _).
    { subst run. destruct (rewrite E this w) as [r w']. cbn in Hok. by subst. }
    by exists before, final.
  - intros Hprep Hbody cs vs plan.
    destruct (dry_run_shows_every_verdict E this w Hprep Hdry Hbody)
      as (w' & shown & Hrun & Htrace & Hfound & Hlines & Hplan & Hsummary & Hlast).
    fold cs vs plan in Hlines, Hplan, Hsummary, Hlast, Hfound.
    assert (Hshown' : lines = shown).
    { subst lines run. rewrite Hrun. unfold shownSince. cbn [snd].
      by rewrite Htrace, drop_app_length. }
    rewrite Hshown'. subst run. rewrite Hrun. cbn [fst].
    split_and!; try done. intros Hne. by destruct (Hsummary Hne).
Qed.

Lemma dry_run_performs_no_destructive_step_witness :
  let E := sampleEnv helpfulProvider neverBreaks in
  let w := freshWorld sampleHistory in
  let run := rewrite E dryOptions w in
  let lines := shownSince (List.length (w_trace w)) run.2 in
  let cs := enumeratedCommits dryOptions (w_history w) in
  let vs := expectedVerdicts E dryOptions (w_history w) (w_commands w + 4) (w_requests w)
                             0 cs in
  let plan := expectedPlan E dryOptions (w_history w) (w_commands w + 4) (w_requests w)
                           cs in
  (w_history run.2 = w_history w /\ w_branches run.2 = w_branches w)
  /\ run.1 = Ok tt
  /\ In (Found (List.length cs)) lines
  /\ (forall j c v, cs !! j = Some c -> vs !! j = Some v ->
        Exists (verdictLine E dryOptions c v) lines)
  /\ Forall (fun d => wasGenerated d = true ->
                      In (Improved (commitId d) (finalMessage d)) lines) plan
  /\ (cs <> [] -> In (summaryOf dryOptions vs) lines)
  /\ last lines = Some (dryRunEnding vs).
Proof.
  destruct (dry_run_performs_no_destructive_step
              (sampleEnv helpfulProvider neverBreaks) dryOptions (freshWorld sampleHistory)
              eq_refl) as (Hh & Hb & _ & _ & Hreport).
  split; [by split|]. apply Hreport.
  - apply sample_is_prepared. intros n cmd _. reflexivity.
  - intros n h. reflexivity.
Defined.

(** The plan the dry run reports on the sample history. *)
Example dry_run_report_on_sample :
  let E := sampleEnv helpfulProvider neverBreaks in
  let vs := expectedVerdicts E dryOptions sampleHistory 4 0 0 sampleHistory in
  vs = [ ImprovedTo "feat(parser): add the parser and the lexer";
         ImprovedTo "feat(cli): add the command line entry point";
         ImprovedTo "feat(cli): add the command line entry point" ]
  /\ summaryOf dryOptions vs = Summary 3 (Some 0%nat) 3 3
  /\ dryRunEnding vs = DryRunCompleted.
Proof. vm_compute. repeat split. Qed.

(** The full message of no commit can be read and the provider is not
    reachable: the run ends with the error of the first such read, after
    the backup branch was created and before any file is written. *)
Example failed_body_read_stops_the_run :
  let E := sampleEnv deadProvider bodyReadsBreak in
  let run := rewrite E plainOptions (freshWorld sampleHistory) in
  run.1 = Throw (CommandFailed (GitLogBody "a1f0") "spawnSync ENOBUFS")
  /\ w_trace run.2
     = [ Banner; CurrentBranch "main"; Found 3; HistoryWarning; Asked proceedQuestion;
         BackupCreated "backup-main-1700000000000"; Generating;
         ProcessingCommit "a1f0" "init" (Some "too short, descriptive, no trailing period");
         KeepingOriginal "a1f0"; Sleep 500;
         ProcessingCommit "b2e1" "wip" (Some "too short, too generic, no trailing period");
         KeepingOriginal "b2e1"; Sleep 500;
         ProcessingCommit "c3d2" "stuff" (Some "too short, descriptive, no trailing period");
         KeepingOriginal "c3d2" ]
  /\ w_branches run.2 = ["backup-main-1700000000000"]
  /\ w_fs run.2 !! mappingFilePath = None
  /\ w_history run.2 = sampleHistory.
Proof. vm_compute. repeat split. Qed.



(** In that run the second commit is the one whose read fails: it is
    reported, it has no entry in the map and keeps its message, and the
    third commit is improved all the same. *)
Example unread_commit_on_sample :
  let E := sampleEnv helpfulProvider patchTooLarge in
  expectedVerdicts E plainOptions sampleHistory 0 0 0 sampleHistory
  = [ ImprovedTo "feat(parser): add the parser and the lexer";
      ReadFailed;
      ImprovedTo "feat(cli): add the command line entry point" ]
  /\ (buildPlan E plainOptions (map c_hash sampleHistory) (freshWorld sampleHistory)).1
     = Ok (mkLoopState
             (<["c3d2" := "feat(cli): add the command line entry point"]>
                (<["a1f0" := "feat(parser): add the parser and the lexer"]> ∅)) 0 2,
           [ "feat(parser): add the parser and the lexer"; "wip";
             "feat(cli): add the command line entry point" ]).
Proof. vm_compute. split; reflexivity. Qed.

(* ================================================================== *)
(** * Further properties of the code *)

(** ** The rubric: what a score says about a message *)

Lemma hasUnit_app (c : ascii) (a b : string) :
  hasUnit c (a ++ b) = hasUnit c a || hasUnit c b.
Proof.
  induction a as [|d a IH]; cbn; [reflexivity|]. by rewrite IH, orb_assoc.
Qed.

Lemma lowerUnit_colon (d : ascii) :
  (JS.code (JS.lowerUnit d) =? JS.code ":")%N = (JS.code d =? JS.code ":")%N.
Proof. destruct d as [[] [] [] [] [] [] [] []]; reflexivity. Qed.

Lemma hasUnit_toLowerCase (s : string) :
  hasUnit ":" (JS.toLowerCase s) = hasUnit ":" s.
Proof.
  induction s as [|d s IH]; cbn [JS.toLowerCase hasUnit]; [reflexivity|].
  by rewrite lowerUnit_colon, IH.
Qed.

(** A generic message has no colon. *)
Lemma generic_has_no_colon (message : string) :
  isGenericMessage message = true -> hasUnit ":" message = false.
Proof.
  unfold isGenericMessage. intros Hg.
  rewrite <- hasUnit_toLowerCase.
  apply existsb_exists in Hg as (g & Hin & Heq).
  cbn in Hin.
  repeat (destruct Hin as [<- | Hin];
          [ repeat (apply orb_true_iff in Heq as [Heq | Heq]);
            apply String.eqb_eq in Heq; rewrite Heq; reflexivity |]).
  destruct Hin.
Qed.

(** What either pattern matches has a colon. *)
Lemma conventional_has_colon (message : string) :
  Regex.test conventionalPattern message = true -> hasUnit ":" message = true.
Proof.
  unfold Regex.test, conventionalPattern. rewrite run_Seq.
  intros (t & r & _ & -> & Hrest)%run_alts.
  rewrite run_Seq in Hrest.
  apply run_scopeGroup in Hrest as (sc & r' & _ & -> & Hsep).
  rewrite run_Seq in Hsep. apply (run_Lit ": ") in Hsep as (r'' & -> & _).
  rewrite !hasUnit_app. cbn. by rewrite !orb_true_r.
Qed.

Lemma presentTense_has_colon (message : string) :
  Regex.test presentTensePattern message = true -> hasUnit ":" message = true.
Proof.
  intros Hm.
  assert (Hp : checkPresentTense message = (1, ["uses present tense"]))
    by (unfold checkPresentTense; by rewrite Hm).
  apply present_tense_point_iff in Hp as (t & sc & c & rest & -> & _).
  rewrite !hasUnit_app. cbn. by rewrite !orb_true_r.
Qed.

Lemma conventional_is_not_generic (message : string) :
  Regex.test conventionalPattern message = true -> isGenericMessage message = false.
Proof.
  intros Hc%conventional_has_colon.
  destruct (isGenericMessage message) eqn:Hg; [|reflexivity].
  apply generic_has_no_colon in Hg. congruence.
Qed.

Lemma score_by_checks (this : Options) (message : string) :
  score (assessCommitQuality this message)
  = (if Regex.test conventionalPattern message then 4 else 0)
    + (if lengthInRange message then 2 else 0)
    + (if isGenericMessage message then 0 else 2)
    + (if Regex.test presentTensePattern message then 1 else 0)
    + (if noTrailingPeriod message then 1 else 0).
Proof.
  rewrite score_is_sum.
  unfold checkConventional, checkLength, checkDescriptive, checkPresentTense,
    checkNoTrailingPeriod, lengthInRange, noTrailingPeriod.
  destruct (Regex.test conventionalPattern message),
    (_ && _), (isGenericMessage message), (Regex.test presentTensePattern message),
    (negb (JS.endsWithUnit _ _)); cbn [fst negb];
    try destruct (_ <? _); reflexivity.
Qed.

(** X1. A message that is not in the conventional format scores at most
    6, so with a threshold of 7 or more (the default) only messages in
    the conventional format are well-formed. *)
Theorem well_formed_at_seven_is_conventional (this : Options) (message : string) :
  7 <= orNum (o_minQualityScore this) 7 ->
  isWellFormed (assessCommitQuality this message) = true ->
  Regex.test conventionalPattern message = true
  /\ 7 <= score (assessCommitQuality this message).
Proof.
  intros Hthr Hwf. rewrite isWellFormed_threshold in Hwf. apply Z.leb_le in Hwf.
  split; [|lia]. rewrite score_by_checks in Hwf.
  destruct (Regex.test conventionalPattern message); [reflexivity|].
  destruct (lengthInRange message), (isGenericMessage message),
    (Regex.test presentTensePattern message), (noTrailingPeriod message); lia.
Qed.

Lemma well_formed_at_seven_is_conventional_witness :
  Regex.test conventionalPattern "feat(auth): add token refresh" = true
  /\ 7 <= score (assessCommitQuality plainOptions "feat(auth): add token refresh").
Proof.
  apply (well_formed_at_seven_is_conventional plainOptions); [cbn; lia | reflexivity].
Defined.

(** X2. A message in the conventional format is never counted as
    generic and scores at least 6. *)
Theorem conventional_message_scores_at_least_six (this : Options) (message : string) :
  Regex.test conventionalPattern message = true ->
  checkDescriptive message = (2, ["descriptive"])
  /\ 6 <= score (assessCommitQuality this message).
Proof.
  intros Hc. pose proof (conventional_is_not_generic message Hc) as Hg.
  split; [unfold checkDescriptive; by rewrite Hg|].
  rewrite score_by_checks, Hc, Hg.
  destruct (lengthInRange message), (Regex.test presentTensePattern message),
    (noTrailingPeriod message); lia.
Qed.

Lemma conventional_message_scores_at_least_six_witness :
  checkDescriptive "fix: x." = (2, ["descriptive"])
  /\ 6 <= score (assessCommitQuality plainOptions "fix: x.").
Proof.
  apply (conventional_message_scores_at_least_six plainOptions). reflexivity.
Defined.

(** X3. The score is 10 exactly for a message in the conventional
    format whose first line has 10 to 72 units and no trailing period
    and whose description starts with a lower-case letter. *)
Theorem perfect_score_iff (this : Options) (message : string) :
  score (assessCommitQuality this message) = 10
  <-> Regex.test conventionalPattern message = true
      /\ lengthInRange message = true
      /\ Regex.test presentTensePattern message = true
      /\ noTrailingPeriod message = true.
Proof.
  rewrite score_by_checks. split.
  - destruct (Regex.test conventionalPattern message),
      (lengthInRange message), (isGenericMessage message),
      (Regex.test presentTensePattern message), (noTrailingPeriod message);
      intros; first [lia | done].
  - intros (Hc & -> & -> & ->). rewrite Hc, (conventional_is_not_generic _ Hc).
    reflexivity.
Qed.

(** X4. A generic message ([fix], [Update.], [WIP commit], ...) matches
    neither the conventional pattern nor the present-tense pattern and
    scores at most 3: it is never well-formed at a threshold of 4 or
    more. *)
Theorem generic_message_scores_at_most_three (this : Options) (message : string) :
  isGenericMessage message = true ->
  Regex.test conventionalPattern message = false
  /\ Regex.test presentTensePattern message = false
  /\ score (assessCommitQuality this message) <= 3
  /\ (4 <= orNum (o_minQualityScore this) 7 ->
      isWellFormed (assessCommitQuality this message) = false).
Proof.
  intros Hg. pose proof (generic_has_no_colon message Hg) as Hcolon.
  assert (Hc : Regex.test conventionalPattern message = false).
  { destruct (Regex.test conventionalPattern message) eqn:Hc; [|reflexivity].
    apply conventional_has_colon in Hc. congruence. }
  assert (Hp : Regex.test presentTensePattern message = false).
  { destruct (Regex.test presentTensePattern message) eqn:Hp; [|reflexivity].
    apply presentTense_has_colon in Hp. congruence. }
  assert (Hscore : score (assessCommitQuality this message) <= 3).
  { rewrite score_by_checks, Hg, Hc, Hp.
    destruct (lengthInRange message), (noTrailingPeriod message); lia. }
  split_and!; [exact Hc | exact Hp | exact Hscore |]. intros Hthr.
  rewrite isWellFormed_threshold. apply Z.leb_gt. lia.
Qed.

Lemma generic_message_scores_at_most_three_witness :
  Regex.test conventionalPattern "WIP commit" = false
  /\ Regex.test presentTensePattern "WIP commit" = false
  /\ score (assessCommitQuality plainOptions "WIP commit") <= 3
  /\ (4 <= orNum (o_minQualityScore plainOptions) 7 ->
      isWellFormed (assessCommitQuality plainOptions "WIP commit") = false).
Proof.
  apply (generic_message_scores_at_most_three plainOptions). reflexivity.
Defined.

(** ** Generation: what [generateCommitMessage] gives back *)

Lemma trimEnd_idempotent (s : string) : JS.trimEnd (JS.trimEnd s) = JS.trimEnd s.
Proof.
  induction s as [|c s IH]; cbn [JS.trimEnd]; [reflexivity|].
  destruct (JS.trimEnd s) as [|d kept] eqn:Hkept.
  - destruct (JS.isWhiteSpace c) eqn:Hc; cbn [JS.trimEnd]; [reflexivity|].
    by rewrite Hc.
  - cbn [JS.trimEnd] in IH |- *.
    destruct (JS.trimEnd kept) as [|d' kept'] eqn:Hk2.
    + destruct (JS.isWhiteSpace d); [discriminate IH|]. by rewrite IH.
    + by rewrite IH.
Qed.

Lemma trimStart_starts (s : string) :
  JS.trimStart s = EmptyString
  \/ exists c rest, JS.trimStart s = String c rest /\ JS.isWhiteSpace c = false.
Proof.
  induction s as [|c s IH]; cbn; [by left|].
  destruct (JS.isWhiteSpace c) eqn:Hc; [exact IH|]. right. eauto.
Qed.

Lemma trimEnd_keeps_start (c : ascii) (rest : string) :
  JS.isWhiteSpace c = false ->
  exists kept, JS.trimEnd (String c rest) = String c kept.
Proof.
  intros Hc. cbn [JS.trimEnd]. destruct (JS.trimEnd rest); [|eauto].
  rewrite Hc. eauto.
Qed.

(** [trim] is idempotent: what it returns has no whitespace left at
    either end. *)
Lemma trim_idempotent (s : string) : JS.trim (JS.trim s) = JS.trim s.
Proof.
  unfold JS.trim.
  destruct (trimStart_starts s) as [-> | (c & rest & -> & Hc)]; [reflexivity|].
  destruct (trimEnd_keeps_start c rest Hc) as [kept Hkept].
  rewrite Hkept. cbn [JS.trimStart]. rewrite Hc, <- Hkept.
  apply trimEnd_idempotent.
Qed.

(** What a call of [generateCommitMessage] returns and what it leaves
    behind, whatever the provider does. *)
Lemma generateCommitMessage_outcome (E : env) (this : Options) (diff : string)
    (files : list string) (oldMessage : string) (w : world) :
  exists m w',
    generateCommitMessage E this diff files oldMessage w = (Ok m, w')
    /\ (m = oldMessage \/ (JS.truthy m = true /\ JS.trim m = m))
    /\ w_requests w' = S (w_requests w)
    /\ w_commands w' = w_commands w
    /\ w_questions w' = w_questions w
    /\ sameRepository w w'
    /\ (exists evs, w_trace w' = (w_trace w ++ evs)%list
                    /\ Forall (fun ev => exists e, ev = GenerationError e) evs
                    /\ (truthyBool (o_verbose this) = false -> evs = [])).
Proof.
  unfold generateCommitMessage, tryCatch, bind, create.
  assert (Hfallback : forall e,
             let w1 := setRequests (S (w_requests w)) w in
             exists m w',
               (when (truthyBool (o_verbose this)) (emit (GenerationError e)) ;;;
                ret oldMessage) w1 = (Ok m, w')
               /\ (m = oldMessage \/ (JS.truthy m = true /\ JS.trim m = m))
               /\ w_requests w' = S (w_requests w)
               /\ w_commands w' = w_commands w
               /\ w_questions w' = w_questions w
               /\ sameRepository w w'
               /\ (exists evs, w_trace w' = (w_trace w ++ evs)%list
                     /\ Forall (fun ev => exists e, ev = GenerationError e) evs
                     /\ (truthyBool (o_verbose this) = false -> evs = []))).
  { intros e w1. destruct (truthyBool (o_verbose this)); cbn.
    - eexists _, _. split; [reflexivity|]. split_and!; try done; [by left|].
      exists [GenerationError e]. split_and!; [done | | done].
      constructor; [eauto | constructor].
    - eexists _, _. split; [reflexivity|]. split_and!; try done; [by left|].
      exists []. by rewrite app_nil_r. }
  destruct (e_provider E (w_requests w) _) as [msg | | choices]; cbn [fst snd].
  - apply Hfallback.
  - apply Hfallback.
  - unfold firstContent.
    destruct (choices !! 0%nat) as [[content|]|] eqn:Hfirst; cbn [truthyStr negb];
      try apply Hfallback.
    destruct (JS.truthy (JS.trim content)) eqn:Htruthy; cbn [negb];
      [|apply Hfallback].
    eexists _, _. split; [reflexivity|]. cbn [default].
    split_and!; try done.
    + right. split; [done | apply trim_idempotent].
    + exists []. by rewrite app_nil_r.
Qed.

(** X5. [generateCommitMessage] never fails, whatever the provider
    does: it makes one request and returns either the old message or a
    text that is not empty and has no whitespace at its ends.  It runs
    no command, asks nothing, leaves history, branches and files alone,
    and prints nothing unless [verbose] is set. *)
Theorem generateCommitMessage_always_answers (E : env) (this : Options) (diff : string)
    (files : list string) (oldMessage : string) (w : world) :
  exists m w',
    generateCommitMessage E this diff files oldMessage w = (Ok m, w')
    /\ (m = oldMessage \/ (JS.truthy m = true /\ JS.trim m = m))
    /\ w_requests w' = S (w_requests w)
    /\ w_commands w' = w_commands w
    /\ w_questions w' = w_questions w
    /\ sameRepository w w'
    /\ (truthyBool (o_verbose this) = false -> w_trace w' = w_trace w).
Proof.
  destruct (generateCommitMessage_outcome E this diff files oldMessage w)
    as (m & w' & Hrun & Hm & Hreq & Hcmd & Hq & Hrepo & evs & Htrace & _ & Hquiet).
  exists m, w'. split_and!; try done.
  intros Hv. rewrite Htrace, (Hquiet Hv). apply app_nil_r.
Qed.

Lemma substring_prefix (head tail : string) :
  String.substring 0 (String.length head) (head ++ tail) = head.
Proof.
  induction head as [|c head IH]; cbn.
  - by destruct tail.
  - by rewrite IH.
Qed.

Lemma substring_whole (s : string) :
  forall n, (String.length s <= n)%nat -> String.substring 0 n s = s.
Proof.
  induction s as [|c s IH]; intros n Hn; [by destruct n|].
  destruct n as [|n]; cbn in Hn; [lia|]. cbn. rewrite IH by lia. reflexivity.
Qed.

(** X6. The prompt carries the first 8000 units of the diff and nothing
    after them.  Around the diff the prompt has a text that depends on
    the old message and the files only; between the two parts of that
    text stands the diff itself when it has at most 8000 units, and its
    first 8000 units otherwise.  So two diffs that agree on their first
    8000 units give the same request. *)
Theorem prompt_carries_first_8000_units_of_diff (this : Options)
    (files : list string) (oldMessage : string) :
  exists before after,
    (forall diff, JS.length diff <= 8000 ->
       r_prompt (buildRequest this diff files oldMessage) = before ++ diff ++ after)
    /\ (forall head tail, JS.length head = 8000 ->
         r_prompt (buildRequest this (head ++ tail) files oldMessage)
         = before ++ head ++ after)
    /\ (forall head tail tail', JS.length head = 8000 ->
         buildRequest this (head ++ tail) files oldMessage
         = buildRequest this head files oldMessage
         /\ buildRequest this (head ++ tail) files oldMessage
            = buildRequest this (head ++ tail') files oldMessage).
Proof.
  assert (Hcut : forall head t, JS.length head = 8000 ->
                   JS.substring0 8000 (head ++ t) = head).
  { intros head t Hlen. unfold JS.substring0. unfold JS.length in Hlen.
    replace (Z.to_nat 8000) with (String.length head) by lia.
    apply substring_prefix. }
  assert (Hwhole : forall diff, JS.length diff <= 8000 -> JS.substring0 8000 diff = diff).
  { intros diff Hlen. unfold JS.substring0. unfold JS.length in Hlen.
    apply substring_whole. lia. }
  pose proof (eq_refl (buildPrompt EmptyString files oldMessage)) as Hshape.
  unfold buildPrompt in Hshape at 1.
  lazymatch type of Hshape with
  | ?a ++ dquote ++ oldMessage ++ dquote ++ ?b ++ JS.join newline files ++ ?c ++ _ ++ ?d
    = _ =>
      pose (before := a ++ dquote ++ oldMessage ++ dquote ++ b
                      ++ JS.join newline files ++ c);
      pose (after := d)
  end.
  clear Hshape.
  assert (Hprompt : forall diff,
             r_prompt (buildRequest this diff files oldMessage)
             = before ++ JS.substring0 8000 diff ++ after).
  { intros diff. unfold buildRequest, buildPrompt, before, after. cbn [r_prompt].
    rewrite !append_assoc. reflexivity. }
  exists before, after.
  split_and!.
  - intros diff Hlen. by rewrite Hprompt, Hwhole.
  - intros head tail Hlen. by rewrite Hprompt, Hcut.
  - intros head tail tail' Hlen. unfold buildRequest, buildPrompt.
    rewrite !Hcut by done.
    pose proof (Hcut head EmptyString Hlen) as Hself. rewrite append_empty_r in Hself.
    by rewrite Hself.
Qed.

Lemma prompt_carries_first_8000_units_of_diff_witness :
  let head := repeatUnit (Z.to_nat 8000) "+" in
  exists before after,
    r_prompt (buildRequest plainOptions "+line" ["a.ts"] "wip")
    = before ++ "+line" ++ after
    /\ r_prompt (buildRequest plainOptions (head ++ "tail of a long patch") ["a.ts"] "wip")
       = before ++ head ++ after
    /\ buildRequest plainOptions (head ++ "tail of a long patch") ["a.ts"] "wip"
       = buildRequest plainOptions head ["a.ts"] "wip"
    /\ buildRequest plainOptions (head ++ "tail of a long patch") ["a.ts"] "wip"
       = buildRequest plainOptions (head ++ "another tail") ["a.ts"] "wip".
Proof.
  intros head.
  destruct (prompt_carries_first_8000_units_of_diff plainOptions ["a.ts"] "wip")
    as (before & after & Hshort & Hlong & Hsame).
  assert (Hlen : JS.length head = 8000) by (vm_compute; reflexivity).
  clearbody head.
  exists before, after. split_and!.
  - apply Hshort. vm_compute. discriminate.
  - apply Hlong. exact Hlen.
  - apply (Hsame head "tail of a long patch" "another tail"). exact Hlen.
  - apply (Hsame head "tail of a long patch" "another tail"). exact Hlen.
Defined.

(** ** Enumeration and reading: the edges *)

Lemma limitCommits_noLimit (this : Options) (commits : list string) :
  noLimit this -> limitCommits this commits = commits.
Proof.
  unfold limitCommits. intros [-> | (N & -> & HN)]; [reflexivity|]. cbn.
  destruct (N =? 0) eqn:H0; [reflexivity|]. cbn.
  replace (N >? 0) with false by lia. reflexivity.
Qed.

(** X7. Without a positive limit ([maxCommits] missing, zero or
    negative) [getCommits] returns every commit reachable from HEAD,
    oldest first. *)
Theorem limit_of_zero_or_less_is_no_limit (E : env) (this : Options) (w : world) :
  noLimit this ->
  e_breaks E (w_commands w) GitRevListReverseHead = false ->
  Forall (fun h => validHash h = true) (map c_hash (w_history w)) ->
  getCommits E this w
  = (Ok (map c_hash (w_history w)), setCommands (S (w_commands w)) w).
Proof.
  intros Hlimit Hb Hvalid.
  rewrite getCommits_reads_history by done. by rewrite limitCommits_noLimit.
Qed.

Lemma limit_of_zero_or_less_is_no_limit_witness :
  getCommits (sampleEnv helpfulProvider neverBreaks)
             (withMaxCommits (Some 0) plainOptions) (freshWorld sampleHistory)
  = (Ok ["a1f0"; "b2e1"; "c3d2"], setCommands 1 (freshWorld sampleHistory)).
Proof.
  apply (limit_of_zero_or_less_is_no_limit (sampleEnv helpfulProvider neverBreaks)
           (withMaxCommits (Some 0) plainOptions) (freshWorld sampleHistory)).
  - right. exists 0. split; [reflexivity | lia].
  - reflexivity.
  - repeat constructor.
Defined.

(** X8. [getCommitInfo] reads a commit with three commands.  The
    message is the trimmed subject line.  The files are the paths git
    lists against the parent, and none at all for the root of the
    history, for which [git diff-tree] without [--root] prints nothing.
    The patch is the one against the empty tree whenever the index is
    0, whether or not the commit is the root (so also for the first
    commit of a limited run), and the one against the parent
    otherwise. *)
Theorem getCommitInfo_reads_subject_files_and_patch (E : env) (c : commit) (i : nat)
    (w : world) :
  findCommit (c_hash c) (w_history w) = Some c ->
  (forall n cmd, In cmd (readsOf (c_hash c) i) -> e_breaks E n cmd = false) ->
  (i <> 0%nat -> isRoot (c_hash c) (w_history w) = false) ->
  exists info w',
    getCommitInfo E (c_hash c) i w = (Ok info, w')
    /\ ci_hash info = c_hash c
    /\ ci_message info = JS.trim (e_subject E (c_message c))
    /\ (isRoot (c_hash c) (w_history w) = true -> ci_files info = [])
    /\ (isRoot (c_hash c) (w_history w) = false ->
        Forall (fun p => plainPath p = true) (c_files c) -> ci_files info = c_files c)
    /\ ci_diff info = (if (i =? 0)%nat then c_diffRoot c else c_diff c)
    /\ w_commands w' = (w_commands w + 3)%nat
    /\ sameRepository w w'.
Proof.
  intros Hfind Hb Hroot.
  destruct (getCommitInfo_reads E (c_hash c) i c (w_history w) (w_commands w)
              (w_requests w) (w_commands w + 3)%nat w) as (w' & Hrun & Hat);
    [done | done | done | |].
  { unfold readsOf in *. cbn [runReads].
    rewrite !Hb by (cbn; auto). f_equal. lia. }
  exists (infoOf E (w_history w) c i), w'. split; [exact Hrun|].
  destruct Hat as (Hh & Hn & _).
  split_and!; try done.
  - cbn. unfold subjectLine. apply trim_newline.
  - intros Hr. cbn [ci_files infoOf]. unfold listedFiles. by rewrite Hr.
  - intros Hr Hpaths. cbn [ci_files infoOf]. unfold listedFiles. rewrite Hr.
    by apply read_hash_lines.
  - pose proof (keeps_getCommitInfo (R := sameRepository) E (c_hash c) i w) as Hk.
    by rewrite Hrun in Hk.
Qed.

Lemma getCommitInfo_reads_subject_files_and_patch_witness :
  let c := mkCommit "a1f0" ("init" ++ newline) ["README.md"] EmptyString "+readme" in
  let w := freshWorld sampleHistory in
  exists info w',
    getCommitInfo (sampleEnv helpfulProvider neverBreaks) (c_hash c) 0 w = (Ok info, w')
    /\ ci_hash info = c_hash c
    /\ ci_message info = JS.trim (firstLineOf (c_message c))
    /\ (isRoot (c_hash c) (w_history w) = true -> ci_files info = [])
    /\ (isRoot (c_hash c) (w_history w) = false ->
        Forall (fun p => plainPath p = true) (c_files c) -> ci_files info = c_files c)
    /\ ci_diff info = c_diffRoot c
    /\ w_commands w' = (w_commands w + 3)%nat
    /\ sameRepository w w'.
Proof.
  apply (getCommitInfo_reads_subject_files_and_patch
           (sampleEnv helpfulProvider neverBreaks)
           (mkCommit "a1f0" ("init" ++ newline) ["README.md"] EmptyString "+readme")
           0 (freshWorld sampleHistory)).
  - reflexivity.
  - reflexivity.
  - intros Hne. by destruct Hne.
Defined.

(** The two commits a run can read at index 0: the root of the history
    lists no file, the first commit of a limited run lists its own. *)
Example files_of_the_first_commit_read :
  let E := sampleEnv helpfulProvider neverBreaks in
  let files hash :=
    match (getCommitInfo E hash 0 (freshWorld sampleHistory)).1 with
    | Ok info => Some (ci_files info, ci_diff info)
    | _ => None
    end in
  files "a1f0" = Some ([], "+readme")
  /\ files "b2e1" = Some (["src/parser.ts"; "src/lexer.ts"], "+all").
Proof. vm_compute. split; reflexivity. Qed.

(** ** Steps that write files, replace the history or create a branch *)

Section MoreFrameRules.

Context {R : world -> world -> Prop} {okEvent : event -> Prop}.
Context `{!Frame R okEvent}.
Variable E : env.

Lemma keeps_existsSync (path : string) : keeps R (existsSync path).
Proof. intros w. apply frame_refl. Qed.

Lemma keeps_writeFileSync `{!FilesFrame R} (path : string) (content : file) :
  keeps R (writeFileSync path content).
Proof. intros w. apply frame_fs. Qed.

Lemma keeps_unlinkSync `{!FilesFrame R} (path : string) : keeps R (unlinkSync path).
Proof.
  intros w. unfold unlinkSync. destruct (w_fs w !! path); [apply frame_fs | apply frame_refl].
Qed.

Lemma keeps_removeIfExists `{!FilesFrame R} (path : string) :
  keeps R (removeIfExists path).
Proof.
  unfold removeIfExists. apply keeps_bind; [apply keeps_existsSync|].
  intros there. apply keeps_when, keeps_unlinkSync.
Qed.

Lemma keeps_runFilterScript `{!FilesFrame R} (script stdin : string) :
  keeps R (runFilterScript script stdin).
Proof.
  intros w. unfold runFilterScript.
  repeat match goal with
         | |- context [match ?x with _ => _ end] => destruct x
         end; first [apply frame_fs | apply frame_refl].
Qed.

Lemma keeps_filterBranchWalk `{!FilesFrame R} (script : string) (cs : list commit) :
  forall anc, keeps R (filterBranchWalk E script anc cs).
Proof.
  induction cs as [|c cs IH]; intros anc; cbn [filterBranchWalk].
  - apply keeps_ret.
  - apply keeps_bind; [apply keeps_runFilterScript|]. intros message.
    destruct (recommit E anc c message) as [c' changed].
    apply keeps_bind; [apply IH | intros; apply keeps_ret].
Qed.

Lemma keeps_git `{!FilesFrame R} `{!HistoryFrame R} `{!BranchFrame R} (cmd : command) :
  keeps R (git E cmd).
Proof.
  intros w. destruct cmd;
    try (rewrite git_readOnly by reflexivity; apply frame_refl).
  - cbn [git]. destruct (bool_decide (_ ∈ w_branches w));
      [apply frame_refl | apply frame_branches].
  - cbn [git]. pose proof (keeps_filterBranchWalk script (w_history w) false w) as Hk.
    destruct (filterBranchWalk E script false (w_history w) w) as [[cs | e | c] w1];
      cbn [snd] in Hk |- *; [|done..].
    eapply frame_trans; [exact Hk | apply frame_history].
Qed.

Lemma keeps_execCommand_any `{!FilesFrame R} `{!HistoryFrame R} `{!BranchFrame R}
    (cmd : command) :
  keeps R (execCommand E cmd).
Proof.
  intros w. unfold execCommand.
  destruct (e_breaks E (w_commands w) cmd); [apply frame_commands|].
  eapply frame_trans; [apply (frame_commands w (S (w_commands w)))|].
  apply keeps_tryCatch; [apply keeps_git | intros; apply keeps_throw].
Qed.

Lemma keeps_filterBranch `{!FilesFrame R} `{!HistoryFrame R} (script : string) :
  keeps R (execCommand E (GitFilterBranch script)).
Proof.
  intros w. unfold execCommand.
  destruct (e_breaks E (w_commands w) _); [apply frame_commands|].
  eapply frame_trans; [apply (frame_commands w (S (w_commands w)))|].
  apply keeps_tryCatch; [|intros; apply keeps_throw].
  intros w0. cbn [git].
  pose proof (keeps_filterBranchWalk script (w_history w0) false w0) as Hk.
  destruct (filterBranchWalk E script false (w_history w0) w0) as [[cs | e | c] w1];
    cbn [snd] in Hk |- *; [|done..].
  eapply frame_trans; [exact Hk | apply frame_history].
Qed.

Lemma keeps_rewriteHistory `{!FilesFrame R} `{!HistoryFrame R}
    (mappingFile counterFile : string) :
  keeps R (rewriteHistory E mappingFile counterFile).
Proof.
  unfold rewriteHistory.
  apply keeps_bind; [apply keeps_writeFileSync|]. intros _.
  apply keeps_bind; [apply keeps_writeFileSync|]. intros _.
  apply keeps_tryFinally.
  - apply keeps_bind; [apply keeps_filterBranch | intros; apply keeps_ret].
  - apply keeps_bind; [apply keeps_removeIfExists|]. intros _.
    apply keeps_bind; [apply keeps_removeIfExists|]. intros _.
    apply keeps_removeIfExists.
Qed.

Lemma keeps_createBackupBranch `{!BranchFrame R} (currentBranch : string) :
  keeps R (createBackupBranch E currentBranch).
Proof.
  unfold createBackupBranch.
  apply keeps_bind; [|intros; apply keeps_ret].
  intros w. unfold execCommand.
  destruct (e_breaks E (w_commands w) _); [apply frame_commands|].
  eapply frame_trans; [apply (frame_commands w (S (w_commands w)))|].
  apply keeps_tryCatch; [|intros; apply keeps_throw].
  intros w0. cbn [git]. destruct (bool_decide (_ ∈ w_branches w0));
    [apply frame_refl | apply frame_branches].
Qed.

End MoreFrameRules.

#[local] Instance sameBranches_frame : Frame sameBranches (fun _ => True).
Proof. split; unfold sameBranches; try (by intros; cbn). intros a b c -> ->. done. Qed.

#[local] Instance sameBranches_files : FilesFrame sameBranches.
Proof. by intros w f. Qed.

#[local] Instance sameBranches_history : HistoryFrame sameBranches.
Proof. by intros w h. Qed.

#[local] Instance traceGrows_frame : Frame traceGrows (fun _ => True).
Proof.
  split; unfold traceGrows.
  - intros w. exists []. by rewrite app_nil_r.
  - intros a b c [evs1 H1] [evs2 H2]. exists (evs1 ++ evs2)%list.
    by rewrite H2, H1, app_assoc.
  - intros w n. exists []. cbn. by rewrite app_nil_r.
  - intros w n. exists []. cbn. by rewrite app_nil_r.
  - intros w n. exists []. cbn. by rewrite app_nil_r.
  - intros w ev _. by exists [ev].
Qed.

#[local] Instance traceGrows_files : FilesFrame traceGrows.
Proof. intros w f. exists []. cbn. by rewrite app_nil_r. Qed.

#[local] Instance traceGrows_history : HistoryFrame traceGrows.
Proof. intros w h. exists []. cbn. by rewrite app_nil_r. Qed.

#[local] Instance traceGrows_branches : BranchFrame traceGrows.
Proof. intros w b. exists []. cbn. by rewrite app_nil_r. Qed.

Lemma applyAnnounced_grows (before evs after : list event) :
  applyAnnounced evs -> applyAnnounced (before ++ evs ++ after)%list.
Proof.
  intros [Hq Hr]. split; apply in_or_app; right; apply in_or_app; by left.
Qed.

#[local] Instance historyGuarded_frame : Frame historyGuarded (fun _ => True).
Proof.
  assert (Hsame : forall w w', w_trace w' = w_trace w -> w_history w' = w_history w ->
                               historyGuarded w w').
  { intros w w' Ht Hh. exists []. rewrite app_nil_r. auto. }
  split.
  - intros w. by apply Hsame.
  - intros a b c (evs1 & Ht1 & H1) (evs2 & Ht2 & H2).
    exists (evs1 ++ evs2)%list. split; [by rewrite Ht2, Ht1, app_assoc|].
    destruct H1 as [Hh1 | Ha1].
    + destruct H2 as [Hh2 | Ha2]; [left; congruence|].
      right. apply (applyAnnounced_grows evs1 evs2 []) in Ha2.
      by rewrite app_nil_r in Ha2.
    + right. by apply (applyAnnounced_grows [] evs1 evs2) in Ha1.
  - intros w n. by apply Hsame.
  - intros w n. by apply Hsame.
  - intros w n. by apply Hsame.
  - intros w ev _. exists [ev]. split; [done | by left].
Qed.

#[local] Instance historyGuarded_files : FilesFrame historyGuarded.
Proof. intros w f. exists []. cbn. rewrite app_nil_r. auto. Qed.

#[local] Instance historyGuarded_branches : BranchFrame historyGuarded.
Proof. intros w b. exists []. cbn. rewrite app_nil_r. auto. Qed.

#[local] Instance sameOtherFiles_frame : Frame sameOtherFiles (fun _ => True).
Proof.
  split; unfold sameOtherFiles; try (by intros; cbn).
  intros a b c Hab Hbc path Hp. by rewrite Hbc, Hab.
Qed.

(** One step of a method that only reads, emits, asks, writes files,
    replaces the history or creates a branch, for a relation closed
    under what the step does. *)
Ltac frame_step :=
  lazymatch goal with
  | |- keeps _ (ret _) => apply keeps_ret
  | |- keeps _ (throw _) => apply keeps_throw
  | |- keeps _ (exit _) => apply keeps_exit
  | |- keeps _ (bind _ _) => apply keeps_bind; [|intros ?]
  | |- keeps _ (tryCatch _ _) => apply keeps_tryCatch; [|intros ?]
  | |- keeps _ (tryFinally _ _) => apply keeps_tryFinally
  | |- keeps _ (when _ _) => apply keeps_when
  | |- keeps _ (emit _) => by apply keeps_emit
  | |- keeps _ (askConfirmation _ _) => by apply keeps_askConfirmation
  | |- keeps _ (checkGitRepository _) => apply keeps_checkGitRepository
  | |- keeps _ (getCurrentBranch _) => apply keeps_getCurrentBranch
  | |- keeps _ (checkUncommittedChanges _) => apply keeps_checkUncommittedChanges
  | |- keeps _ (getCommits _ _) => apply keeps_getCommits
  | |- keeps _ (buildPlan _ _ _) => by apply keeps_buildPlan
  | |- keeps _ (createBackupBranch _ _) => apply keeps_createBackupBranch; exact _
  | |- keeps _ (rewriteHistory _ _ _) => apply keeps_rewriteHistory; exact _
  | |- keeps _ (writeFileSync _ _) => apply keeps_writeFileSync; exact _
  | |- keeps _ (create _ _) => apply keeps_create
  | |- keeps _ (if ?b then _ else _) => destruct b
  | |- keeps _ (match ?x with _ => _ end) => destruct x
  | |- keeps _ (let '(_, _) := ?p in _) => destruct p
  end.

(** Every method only adds to the console. *)
Lemma rewrite_traceGrows (E : env) (this : Options) : keeps traceGrows (rewrite E this).
Proof. unfold rewrite. repeat frame_step. Qed.

(** ** What a run never does *)

(** From the apply question on: the history can only change after the
    question and the announcement have been shown. *)
Lemma keeps_apply_segment (E : env) (declined rewriting : M unit) :
  keeps historyGuarded declined -> keeps traceGrows rewriting ->
  keeps historyGuarded
    (bind (askConfirmation E applyQuestion)
          (fun apply => if negb apply then declined
                        else bind (emit RewritingHistory) (fun _ => rewriting))).
Proof.
  intros Hd Hr w. unfold bind at 1, askConfirmation.
  set (w1 := setQuestions _ _).
  assert (H1 : historyGuarded w w1) by (exists [Asked applyQuestion]; auto).
  destruct (negb _).
  - eapply (frame_trans (R := historyGuarded)); [exact H1 | apply Hd].
  - unfold bind, emit. set (w2 := setTrace _ w1).
    destruct (Hr w2) as [evs Hevs].
    exists ([Asked applyQuestion; RewritingHistory] ++ evs)%list. split.
    + rewrite Hevs. unfold w2, w1. cbn [w_trace setTrace setQuestions].
      by rewrite <- !app_assoc.
    + right. split; apply in_or_app; left; cbn; auto.
Qed.

Lemma rewrite_historyGuarded (E : env) (this : Options) :
  keeps historyGuarded (rewrite E this).
Proof.
  unfold rewrite.
  repeat first
    [ apply keeps_apply_segment; [|repeat frame_step]
    | frame_step ].
Qed.

(** X9. A run changes the history only on the path that shows the
    apply question and then the rewrite announcement, and never in a dry
    run: in every environment, either the history after the run is the
    history before it, or both lines are among those the run printed. *)
Theorem history_changes_only_after_the_apply_question (E : env) (this : Options)
    (w : world) :
  let w' := (rewrite E this w).2 in
  w_history w' = w_history w
  \/ (truthyBool (o_dryRun this) = false
      /\ exists evs, w_trace w' = (w_trace w ++ evs)%list
                     /\ In (Asked applyQuestion) evs
                     /\ In RewritingHistory evs).
Proof.
  intros w'. destruct (rewrite_historyGuarded E this w) as (evs & Ht & [Hh | [Hq Hr]]);
    [by left|].
  destruct (truthyBool (o_dryRun this)) eqn:Hdry.
  - left. by destruct (dry_run_untouched E this Hdry w) as (Hh & _).
  - right. split; [done|]. by exists evs.
Qed.

Lemma runFile_ne (path : string) :
  runFile path = false ->
  path <> mappingFilePath /\ path <> counterFilePath /\ path <> filterScriptPath.
Proof.
  unfold runFile. intros H.
  apply orb_false_iff in H as [H H3]. apply orb_false_iff in H as [H1 H2].
  apply String.eqb_neq in H1, H2, H3. done.
Qed.

Lemma keeps_write_runFile (path : string) (content : file) :
  runFile path = true -> keeps sameOtherFiles (writeFileSync path content).
Proof.
  intros Hrun w p Hp. cbn. apply lookup_insert_ne. intros <-. congruence.
Qed.

Lemma keeps_remove_runFile (path : string) :
  runFile path = true -> keeps sameOtherFiles (removeIfExists path).
Proof.
  intros Hrun w p Hp. rewrite removeIfExists_deletes. cbn.
  apply lookup_delete_ne. intros <-. congruence.
Qed.

(** The walk of [git filter-branch] with the script of the run writes
    the counter file and nothing else. *)
Lemma filterBranchWalk_other_files (E : env) (cs : list commit) :
  forall (anc : bool) (w : world),
    w_fs w !! filterScriptPath = Some (FilterScript mappingFilePath counterFilePath) ->
    sameOtherFiles w (filterBranchWalk E filterScriptPath anc cs w).2.
Proof.
  induction cs as [|c cs IH]; intros anc w Hscript; cbn [filterBranchWalk].
  - by intros p Hp.
  - unfold bind at 1. unfold runFilterScript. rewrite Hscript.
    destruct (w_fs w !! mappingFilePath) as [[messages | |]|]; try by intros p Hp.
    destruct (w_fs w !! counterFilePath) as [[| counter |]|]; try by intros p Hp.
    set (w1 := setFs _ w).
    assert (H1 : sameOtherFiles w w1).
    { intros p Hp. cbn. apply lookup_insert_ne. intros <-. by vm_compute in Hp. }
    assert (Hs1 : w_fs w1 !! filterScriptPath
                  = Some (FilterScript mappingFilePath counterFilePath)).
    { cbn. by rewrite lookup_insert_ne. }
    assert (Hgo : forall message,
               sameOtherFiles w
                 (let '(c', changed) := recommit E anc c message in
                  bind (filterBranchWalk E filterScriptPath changed cs)
                       (fun rest' => ret (c' :: rest')) w1).2).
    { intros message. destruct (recommit E anc c message) as [c' changed].
      specialize (IH changed w1 Hs1). unfold bind.
      destruct (filterBranchWalk E filterScriptPath changed cs w1) as [[r | e | x] w2];
        cbn [snd] in IH |- *;
        by eapply (frame_trans (R := sameOtherFiles)). }
    destruct (messages !! counter) as [m|]; [destruct (JS.truthy m)|]; apply Hgo.
Qed.

Lemma keeps_rewriteHistory_other_files (E : env) :
  keeps sameOtherFiles (rewriteHistory E mappingFilePath counterFilePath).
Proof.
  intros w. unfold rewriteHistory.
  unfold bind at 1. cbn [writeFileSync].
  unfold bind at 1. cbn [writeFileSync].
  set (w1 := setFs _ (setFs _ w)).
  assert (H1 : sameOtherFiles w w1).
  { intros p Hp. apply runFile_ne in Hp as (? & ? & ?). cbn.
    by rewrite !lookup_insert_ne. }
  assert (Hscript : w_fs w1 !! filterScriptPath
                    = Some (FilterScript mappingFilePath counterFilePath))
    by (cbn; apply lookup_insert_eq).
  assert (Hbody : sameOtherFiles w1
                    (bind (execCommand E (GitFilterBranch filterScriptPath))
                          (fun _ => ret tt) w1).2).
  { unfold bind, execCommand.
    destruct (e_breaks E (w_commands w1) _); [by intros p Hp|].
    unfold tryCatch. cbn [git].
    pose proof (filterBranchWalk_other_files E (w_history w1) false
                  (setCommands (S (w_commands w1)) w1) Hscript) as Hk.
    cbn [w_history setCommands] in Hk |- *.
    destruct (filterBranchWalk E filterScriptPath false (w_history w1) _)
      as [[r | e | x] w2]; cbn [snd] in Hk |- *; exact Hk. }
  assert (Hclean : forall w2, sameOtherFiles w2
             (setFs (delete counterFilePath
                       (delete mappingFilePath (delete filterScriptPath (w_fs w2)))) w2)).
  { intros w2 p Hp. apply runFile_ne in Hp as (? & ? & ?). cbn.
    by rewrite !lookup_delete_ne. }
  unfold tryFinally.
  destruct (bind (execCommand E (GitFilterBranch filterScriptPath)) _ w1)
    as [[a | e | c] w2]; cbn [snd] in Hbody.
  - rewrite (bind_ok _ _ _ _ _ (cleanup_deletes _)). cbn [ret snd].
    eapply (frame_trans (R := sameOtherFiles)); [exact H1|].
    eapply (frame_trans (R := sameOtherFiles)); [exact Hbody | apply Hclean].
  - rewrite (bind_ok _ _ _ _ _ (cleanup_deletes _)). cbn [throw snd].
    eapply (frame_trans (R := sameOtherFiles)); [exact H1|].
    eapply (frame_trans (R := sameOtherFiles)); [exact Hbody | apply Hclean].
  - cbn [snd]. by eapply (frame_trans (R := sameOtherFiles)).
Qed.

(** *** Branches *)

Lemma keeps_until {A B} (R R2 : world -> world -> Prop) (P : A -> Prop)
    (m : M A) (f : A -> M B) :
  (forall a b, R a b -> R2 a b) ->
  (forall a b c, R a b -> R2 b c -> R2 a c) ->
  keeps R m ->
  (forall w a w', m w = (Ok a, w') -> P a) ->
  (forall a, P a -> keeps R2 (f a)) ->
  keeps R2 (bind m f).
Proof.
  intros Hsub Hcomp Hm HP Hf w. unfold bind. specialize (Hm w).
  destruct (m w) as [[a | e | c] w1] eqn:Hrun; cbn [snd] in *; [|by apply Hsub..].
  eapply Hcomp; [exact Hm|]. apply Hf. by eapply HP.
Qed.

Lemma keeps_from {A B} (R R2 : world -> world -> Prop) (m : M A) (f : A -> M B) :
  (forall a b c, R2 a b -> R b c -> R2 a c) ->
  keeps R2 m -> (forall a, keeps R (f a)) -> keeps R2 (bind m f).
Proof.
  intros Hcomp Hm Hf w. unfold bind. specialize (Hm w).
  destruct (m w) as [[a | e | c] w1]; cbn [snd] in *; [|done..].
  eapply Hcomp; [exact Hm | apply Hf].
Qed.

Lemma getCurrentBranch_value (E : env) (w w' : world) (name : string) :
  getCurrentBranch E w = (Ok name, w') -> name = JS.trim (e_branchName E ++ newline).
Proof.
  unfold getCurrentBranch, bind, execCommand.
  destruct (e_breaks E (w_commands w) _); [discriminate|].
  cbn. by intros [= <- _].
Qed.

Lemma createBackupBranch_atMost (E : env) :
  keeps (atMostBranch (backupName E))
        (createBackupBranch E (JS.trim (e_branchName E ++ newline))).
Proof.
  intros w. unfold createBackupBranch, bind, execCommand.
  destruct (e_breaks E (w_commands w) _); [by left|].
  unfold tryCatch. cbn [git].
  destruct (bool_decide _); [by left | by right].
Qed.

Lemma rewrite_atMostBranch (E : env) (this : Options) :
  keeps (atMostBranch (backupName E)) (rewrite E this).
Proof.
  set (b := backupName E).
  assert (Hsub : forall x y, sameBranches x y -> atMostBranch b x y)
    by (intros x y Hxy; by left).
  assert (Hpre : forall x y z, sameBranches x y -> atMostBranch b y z -> atMostBranch b x z).
  { intros x y z Hxy Hyz. unfold atMostBranch, sameBranches in *. by rewrite <- Hxy. }
  assert (Hpost : forall x y z, atMostBranch b x y -> sameBranches y z -> atMostBranch b x z).
  { intros x y z Hxy Hyz. unfold atMostBranch, sameBranches in *. by rewrite Hyz. }
  assert (Hany : forall A (m : M A), keeps sameBranches m -> keeps (atMostBranch b) m).
  { intros A m Hm w. apply Hsub, Hm. }
  unfold rewrite.
  apply (keeps_until sameBranches _ (fun _ => True)); [done | done | frame_step | done |].
  intros _ _.
  apply (keeps_until sameBranches _ (fun _ => True)); [done | done | frame_step | done |].
  intros _ _.
  apply (keeps_until sameBranches _ (fun name => name = JS.trim (e_branchName E ++ newline)));
    [done | done | frame_step | intros w0 a w0'; apply getCurrentBranch_value |].
  intros currentBranch ->.
  apply (keeps_until sameBranches _ (fun _ => True)); [done | done | frame_step | done |].
  intros _ _.
  apply (keeps_until sameBranches _ (fun _ => True)); [done | done | frame_step | done |].
  intros status _.
  apply (keeps_until sameBranches _ (fun _ => True));
    [done | done | repeat frame_step | done |].
  intros _ _.
  apply (keeps_until sameBranches _ (fun _ => True)); [done | done | frame_step | done |].
  intros commits _.
  apply (keeps_until sameBranches _ (fun _ => True)); [done | done | frame_step | done |].
  intros _ _.
  destruct (_ =? _)%nat; [apply Hany; frame_step|].
  apply (keeps_until sameBranches _ (fun _ => True));
    [done | done | repeat frame_step | done |].
  intros _ _.
  apply (keeps_from sameBranches); [done | |].
  - destruct (_ && _); [|apply Hany; frame_step].
    apply (keeps_from sameBranches); [done | apply createBackupBranch_atMost|].
    intros name. repeat frame_step.
  - intros backupBranch. repeat frame_step.
Qed.

(** X11. A run creates at most one branch, the backup
    [backup-<branch>-<time>], and none at all in a dry run or with
    [skipBackup]. *)
Theorem run_creates_at_most_the_backup_branch (E : env) (this : Options) (w : world) :
  let w' := (rewrite E this w).2 in
  (w_branches w' = w_branches w
   \/ w_branches w' = (w_branches w ++ [backupName E])%list)
  /\ (truthyBool (o_skipBackup this) = true \/ truthyBool (o_dryRun this) = true ->
      w_branches w' = w_branches w).
Proof.
  intros w'. split; [apply rewrite_atMostBranch|].
  intros Hskip.
  assert (Hk : keeps sameBranches (rewrite E this)); [|apply Hk].
  unfold rewrite.
  replace (negb (truthyBool (o_skipBackup this)) && negb (truthyBool (o_dryRun this)))
    with false by (destruct Hskip as [-> | ->]; [done | by rewrite andb_false_r]).
  repeat frame_step.
Qed.

(** *** Ending the process *)

Section OrderRules.

Variable R : world -> world -> Prop.
Hypothesis R_refl : forall w, R w w.
Hypothesis R_trans : forall a b c, R a b -> R b c -> R a c.

Lemma order_ret {A} (a : A) : keeps R (ret a).
Proof. intros w. apply R_refl. Qed.

Lemma order_exit {A} (c : Z) : keeps R (@exit A c).
Proof. intros w. apply R_refl. Qed.

Lemma order_throw {A} (e : error) : keeps R (@throw A e).
Proof. intros w. apply R_refl. Qed.

Lemma order_bind {A B} (m : M A) (f : A -> M B) :
  keeps R m -> (forall a, keeps R (f a)) -> keeps R (bind m f).
Proof.
  intros Hm Hf w. unfold bind. specialize (Hm w).
  destruct (m w) as [[a | e | c] w1]; cbn in *; [|done..].
  eapply R_trans; [exact Hm | apply Hf].
Qed.

Lemma order_tryCatch {A} (m : M A) (h : error -> M A) :
  keeps R m -> (forall e, keeps R (h e)) -> keeps R (tryCatch m h).
Proof.
  intros Hm Hh w. unfold tryCatch. specialize (Hm w).
  destruct (m w) as [[a | e | c] w1]; cbn in *; [done| |done].
  eapply R_trans; [exact Hm | apply Hh].
Qed.

Lemma order_when (b : bool) (m : M unit) : keeps R m -> keeps R (when b m).
Proof. destruct b; [done | intros _; apply order_ret]. Qed.

End OrderRules.

Lemma quiet_refl (w : world) : quiet w w.
Proof. done. Qed.

Lemma quiet_trans (a b c : world) : quiet a b -> quiet b c -> quiet a c.
Proof.
  intros [(H1 & H2 & H3) H4] [(H5 & H6 & H7) H8]. unfold quiet, sameRepository.
  split_and!; congruence.
Qed.

Lemma quiet_emit (ev : event) : keeps quiet (emit ev).
Proof. by intros w. Qed.

Lemma quiet_askConfirmation (E : env) (q : string) : keeps quiet (askConfirmation E q).
Proof. by intros w. Qed.

Lemma execCommand_readOnly_world (E : env) (cmd : command) (w : world) :
  readOnly cmd = true -> (execCommand E cmd w).2 = setCommands (S (w_commands w)) w.
Proof.
  intros Hro. unfold execCommand.
  destruct (e_breaks E (w_commands w) cmd); [reflexivity|].
  unfold tryCatch.
  pose proof (git_readOnly E cmd (setCommands (S (w_commands w)) w) Hro) as Hw.
  by destruct (git E cmd _) as [[a | e | c] w1]; cbn in *; subst w1.
Qed.

Lemma quiet_execCommand (E : env) (cmd : command) :
  readOnly cmd = true -> keeps quiet (execCommand E cmd).
Proof. intros Hro w. by rewrite execCommand_readOnly_world. Qed.

Ltac quiet_step :=
  lazymatch goal with
  | |- keeps quiet (ret _) => apply (order_ret quiet quiet_refl)
  | |- keeps quiet (throw _) => apply (order_throw quiet quiet_refl)
  | |- keeps quiet (exit _) => apply (order_exit quiet quiet_refl)
  | |- keeps quiet (bind _ _) => apply (order_bind quiet quiet_trans); [|intros ?]
  | |- keeps quiet (tryCatch _ _) =>
      apply (order_tryCatch quiet quiet_trans); [|intros ?]
  | |- keeps quiet (when _ _) => apply (order_when quiet quiet_refl)
  | |- keeps quiet (emit _) => apply quiet_emit
  | |- keeps quiet (askConfirmation _ _) => apply quiet_askConfirmation
  | |- keeps quiet (execCommand _ _) => apply quiet_execCommand; reflexivity
  end.

Section Exits.

Variable E : env.
Variable this : Options.

Lemma noExit_emit (ev : event) : noExit (emit ev).
Proof. by intros w code. Qed.

Lemma noExit_throw {A} (e : error) : noExit (@throw A e).
Proof. by intros w code. Qed.

Lemma noExit_askConfirmation (q : string) : noExit (askConfirmation E q).
Proof. by intros w code. Qed.

Lemma noExit_writeFileSync (path : string) (content : file) :
  noExit (writeFileSync path content).
Proof. by intros w code. Qed.

Lemma noExit_tryCatch {A} (m : M A) (h : error -> M A) :
  noExit m -> (forall e, noExit (h e)) -> noExit (tryCatch m h).
Proof.
  intros Hm Hh w code. unfold tryCatch. specialize (Hm w).
  destruct (m w) as [[a | e | c] w1]; cbn in *; [done | apply Hh | by destruct (Hm c)].
Qed.

Lemma noExit_tryFinally {A} (m : M A) (cleanup : M unit) :
  noExit m -> noExit cleanup -> noExit (tryFinally m cleanup).
Proof.
  intros Hm Hc w code. unfold tryFinally. specialize (Hm w).
  destruct (m w) as [[a | e | c] w1]; cbn [fst] in Hm; [| |by destruct (Hm c)].
  - apply noExit_bind; [done | intros; apply noExit_ret].
  - apply noExit_bind; [done | intros; apply noExit_throw].
Qed.

Lemma noExit_when (b : bool) (m : M unit) : noExit m -> noExit (when b m).
Proof. destruct b; [done | intros _; apply noExit_ret]. Qed.

Lemma noExit_execCommand_any (cmd : command) : noExit (execCommand E cmd).
Proof.
  destruct cmd; try (by apply noExit_execCommand).
  - intros w code. unfold execCommand.
    destruct (e_breaks E (w_commands w) _); [done|].
    unfold tryCatch. cbn [git]. by destruct (bool_decide _).
  - intros w code. unfold execCommand.
    destruct (e_breaks E (w_commands w) _); [done|].
    unfold tryCatch. cbn [git].
    pose proof (filterBranchWalk_noExit E script
                  (w_history (setCommands (S (w_commands w)) w)) false
                  (setCommands (S (w_commands w)) w)) as Hw.
    destruct (filterBranchWalk _ _ _ _ _) as [[a | e | c0] w2]; cbn [fst] in Hw |- *;
      [done | done | by destruct (Hw c0)].
Qed.

Lemma noExit_removeIfExists (path : string) : noExit (removeIfExists path).
Proof. intros w code. by rewrite removeIfExists_deletes. Qed.

Lemma noExit_rewriteHistory (mappingFile counterFile : string) :
  noExit (rewriteHistory E mappingFile counterFile).
Proof.
  unfold rewriteHistory.
  apply noExit_bind; [apply noExit_writeFileSync|]. intros _.
  apply noExit_bind; [apply noExit_writeFileSync|]. intros _.
  apply noExit_tryFinally.
  - apply noExit_bind; [apply noExit_execCommand_any | intros; apply noExit_ret].
  - repeat (apply noExit_bind; [apply noExit_removeIfExists | intros _]).
    apply noExit_removeIfExists.
Qed.

Lemma noExit_orderMessages (map : gmap string string) (commits : list string) :
  noExit (orderMessages E map commits).
Proof.
  induction commits as [|commit rest IH]; cbn [orderMessages]; [apply noExit_ret|].
  apply noExit_bind.
  - destruct (truthyStr _); [apply noExit_ret|].
    apply noExit_bind; [apply noExit_execCommand_any | intros; apply noExit_ret].
  - intros message. apply noExit_bind; [apply IH | intros; apply noExit_ret].
Qed.

Lemma noExit_buildPlan (commits : list string) : noExit (buildPlan E this commits).
Proof.
  unfold buildPlan. apply noExit_bind.
  - intros w code.
    destruct (processCommits_completes E this (List.length commits) commits 0%nat
                loopStart w) as (st & w' & ->). done.
  - intros st. apply noExit_bind; [apply noExit_orderMessages | intros; apply noExit_ret].
Qed.

Lemma noExit_getCommits : noExit (getCommits E this).
Proof.
  unfold getCommits.
  apply noExit_bind; [apply noExit_execCommand_any | intros; apply noExit_ret].
Qed.

Lemma exitsOnRefusal_noExit {A} (m : M A) : noExit m -> exitsOnRefusal m.
Proof. intros Hne w code Hc. by destruct (Hne w code). Qed.

Lemma exitsOnRefusal_bind {A B} (m : M A) (f : A -> M B) :
  keeps quiet m -> exitsOnRefusal m -> (forall a, exitsOnRefusal (f a)) ->
  exitsOnRefusal (bind m f).
Proof.
  intros Hq Hm Hf w code. specialize (Hq w). specialize (Hm w code).
  unfold bind. destruct (m w) as [[a | e | c] w1]; cbn [fst snd] in *.
  - intros Hc. destruct (Hf a w1 code Hc) as (-> & Hq' & Hr).
    split_and!; [done | by eapply quiet_trans | done].
  - discriminate.
  - intros [= ->]. by apply Hm.
Qed.

Lemma continue_gate_exits (status : string) :
  exitsOnRefusal
    (when (JS.truthy status)
       (emit UncommittedWarning ;;;
        proceed <- askConfirmation E "Do you want to continue anyway?" ;;
        when (negb proceed) (exit 0))).
Proof.
  intros w code. destruct (JS.truthy status); cbn [when]; [|discriminate].
  unfold bind, emit, askConfirmation. destruct (negb _); cbn; [|discriminate].
  intros [= <-]. split_and!; try done. left. apply last_snoc.
Qed.

Lemma proceed_gate_exits :
  exitsOnRefusal
    (when (negb (truthyBool (o_dryRun this)))
       (emit HistoryWarning ;;;
        confirm <- askConfirmation E (newline ++ "Do you want to proceed?") ;;
        when (negb confirm) (emit OperationCancelled ;;; exit 0))).
Proof.
  intros w code. destruct (negb (truthyBool _)); cbn [when]; [|discriminate].
  unfold bind, emit, askConfirmation. destruct (negb _); cbn; [|discriminate].
  intros [= <-]. split_and!; try done. right. apply last_snoc.
Qed.

Lemma rewrite_exitsOnRefusal : exitsOnRefusal (rewrite E this).
Proof.
  unfold rewrite.
  apply exitsOnRefusal_bind;
    [quiet_step | apply exitsOnRefusal_noExit, noExit_emit | intros _].
  apply exitsOnRefusal_bind;
    [unfold checkGitRepository; repeat quiet_step
    |apply exitsOnRefusal_noExit, noExit_checkGitRepository | intros _].
  apply exitsOnRefusal_bind;
    [unfold getCurrentBranch; repeat quiet_step
    |apply exitsOnRefusal_noExit, noExit_getCurrentBranch | intros currentBranch].
  apply exitsOnRefusal_bind;
    [quiet_step | apply exitsOnRefusal_noExit, noExit_emit | intros _].
  apply exitsOnRefusal_bind;
    [unfold checkUncommittedChanges; quiet_step
    |apply exitsOnRefusal_noExit, noExit_execCommand_any | intros status].
  apply exitsOnRefusal_bind;
    [repeat quiet_step | apply continue_gate_exits | intros _].
  apply exitsOnRefusal_bind;
    [unfold getCommits; repeat quiet_step
    |apply exitsOnRefusal_noExit, noExit_getCommits | intros commits].
  apply exitsOnRefusal_bind;
    [quiet_step | apply exitsOnRefusal_noExit, noExit_emit | intros _].
  destruct (_ =? _)%nat; [apply exitsOnRefusal_noExit, noExit_emit|].
  apply exitsOnRefusal_bind;
    [repeat quiet_step | apply proceed_gate_exits | intros _].
  apply exitsOnRefusal_noExit.
  apply noExit_bind.
  { destruct (_ && _); [|apply noExit_ret].
    apply noExit_bind; [|intros b; apply noExit_bind;
                                  [apply noExit_emit | intros; apply noExit_ret]].
    unfold createBackupBranch.
    apply noExit_bind; [apply noExit_execCommand_any | intros; apply noExit_ret]. }
  intros backupBranch.
  apply noExit_bind; [apply noExit_emit | intros _].
  apply noExit_bind; [apply noExit_buildPlan | intros [st orderedMessages]].
  apply noExit_bind; [apply noExit_writeFileSync | intros _].
  apply noExit_bind; [apply noExit_emit | intros _].
  apply noExit_bind; [apply noExit_emit | intros _].
  destruct (_ =? _)%nat; [destruct (_ <? _)%nat; apply noExit_emit|].
  destruct (truthyBool (o_dryRun this)); [apply noExit_emit|].
  apply noExit_bind; [apply noExit_askConfirmation | intros apply].
  destruct (negb apply).
  { apply noExit_bind; [apply noExit_emit|]. intros _.
    destruct backupBranch; [apply noExit_emit | apply noExit_ret]. }
  apply noExit_bind; [apply noExit_emit | intros _].
  apply noExit_tryCatch.
  - apply noExit_bind; [apply noExit_rewriteHistory | intros; apply noExit_emit].
  - intros error.
    apply noExit_bind; [apply noExit_emit | intros _].
    apply noExit_bind; [|intros; apply noExit_throw].
    destruct backupBranch; [apply noExit_emit | apply noExit_ret].
Qed.

End Exits.

(** X12. [rewrite] ends the process only with code 0 and only straight
    after the user's refusal at one of the first two prompts; by then it
    has created no branch and no file, changed no commit and sent no
    request. *)
Theorem process_ends_only_on_refusal (E : env) (this : Options) (w : world) (code : Z) :
  (rewrite E this w).1 = Exit code ->
  let w' := (rewrite E this w).2 in
  code = 0
  /\ w_history w' = w_history w /\ w_branches w' = w_branches w /\ w_fs w' = w_fs w
  /\ w_requests w' = w_requests w
  /\ (last (w_trace w') = Some (Asked continueQuestion)
      \/ last (w_trace w') = Some OperationCancelled).
Proof.
  intros Hexit w'.
  destruct (rewrite_exitsOnRefusal E this w code Hexit)
    as (-> & [(Hh & Hb & Hf) Hr] & Hlast).
  done.
Qed.

Lemma process_ends_only_on_refusal_witness :
  let run := rewrite refusingEnv plainOptions (freshWorld sampleHistory) in
  0 = 0
  /\ w_history run.2 = sampleHistory /\ w_branches run.2 = [] /\ w_fs run.2 = ∅
  /\ w_requests run.2 = 0%nat
  /\ (last (w_trace run.2) = Some (Asked continueQuestion)
      \/ last (w_trace run.2) = Some OperationCancelled).
Proof.
  apply (process_ends_only_on_refusal refusingEnv plainOptions (freshWorld sampleHistory) 0).
  vm_compute. reflexivity.
Defined.

(** X13. Outside a git repository (or when [git rev-parse] cannot be
    run) [rewrite] throws [Not a git repository!] after the banner and
    one command; the error of the command is replaced, not passed on. *)
Theorem outside_a_repository_the_run_stops_at_once (E : env) (this : Options) (w : world) :
  e_isRepository E = false \/ e_breaks E (w_commands w) GitRevParseGitDir = true ->
  rewrite E this w
  = (Throw (Error "Not a git repository!"),
     setCommands (S (w_commands w)) (setTrace (w_trace w ++ [Banner])%list w)).
Proof.
  intros Hno. unfold rewrite.
  rewrite (bind_ok _ _ _ _ _ (emit_eq _ _)).
  unfold bind, checkGitRepository, tryCatch, bind, execCommand.
  cbn [w_commands setTrace].
  destruct (e_breaks E (w_commands w) GitRevParseGitDir) eqn:Hb; [reflexivity|].
  destruct Hno as [Hrepo | ?]; [|discriminate].
  unfold tryCatch. cbn [git]. rewrite Hrepo. reflexivity.
Qed.

Lemma outside_a_repository_the_run_stops_at_once_witness :
  let E := mkEnv false "main" EmptyString "1700000000000" firstLineOf
                 (fun hash _ => hash ++ "+") neverBreaks helpfulProvider (fun _ => "y") in
  rewrite E plainOptions (freshWorld sampleHistory)
  = (Throw (Error "Not a git repository!"),
     setCommands 1 (setTrace [Banner] (freshWorld sampleHistory))).
Proof.
  apply (outside_a_repository_the_run_stops_at_once
           (mkEnv false "main" EmptyString "1700000000000" firstLineOf
                  (fun hash _ => hash ++ "+") neverBreaks helpfulProvider (fun _ => "y"))
           plainOptions (freshWorld sampleHistory)).
  left. reflexivity.
Defined.

(** ** The generation loop *)

Section Pass.

Variable E : env.
Variable this : Options.

Lemma quiet_getCommitInfo (hash : string) (i : nat) : keeps quiet (getCommitInfo E hash i).
Proof.
  unfold getCommitInfo. repeat quiet_step.
  destruct (i =? 0)%nat; quiet_step.
Qed.

Lemma quiet_orderMessages (map : gmap string string) (commits : list string) :
  keeps quiet (orderMessages E map commits).
Proof.
  induction commits as [|commit rest IH]; cbn [orderMessages]; [quiet_step|].
  quiet_step.
  - destruct (truthyStr _); repeat quiet_step.
  - quiet_step; [apply IH | quiet_step].
Qed.

Lemma generateFor_outcome (total i : nat) (info : CommitInfo) (st : LoopState)
    (w : world) :
  exists st' w',
    generateFor E this total i info st w = (Ok st', w')
    /\ iterationOutcome (ci_hash info) st w st' w'.
Proof.
  unfold generateFor.
  destruct (generateCommitMessage_outcome E this (ci_diff info) (ci_files info)
              (ci_message info) w) as (m & w1 & Hgen & Hm & Hreq & _).
  rewrite (bind_ok _ _ _ _ _ Hgen).
  destruct (String.eqb m (ci_message info)) eqn:Heq; cbn [negb].
  - rewrite (bind_ok _ _ _ _ _ (eq_refl : (emit _ ;;; ret _) w1 = (Ok _, _))).
    destruct (Z.of_nat i <? Z.of_nat total - 1); cbn [when];
      eexists _, _; (split; [reflexivity|]); left; cbn; auto.
  - rewrite (bind_ok _ _ _ _ _ (eq_refl : (emit _ ;;; ret _) w1 = (Ok _, _))).
    destruct Hm as [-> | [Htruthy Htrim]]; [by rewrite String.eqb_refl in Heq|].
    destruct (Z.of_nat i <? Z.of_nat total - 1); cbn [when];
      eexists _, _; (split; [reflexivity|]); right; right; exists m; cbn; auto.
Qed.

(** One iteration, [try] and [catch] together. *)
Lemma iteration_outcome (total i : nat) (hash : string) (st : LoopState) (w : world) :
  exists st' w',
    tryCatch (processCommit E this total i hash st)
             (fun error => emit (ErrorProcessing hash error) ;;; ret st) w
    = (Ok st', w')
    /\ iterationOutcome hash st w st' w'.
Proof.
  unfold tryCatch, processCommit. unfold bind at 1.
  pose proof (noExit_getCommitInfo E hash i w) as Hne.
  pose proof (quiet_getCommitInfo hash i w) as [_ Hreq].
  assert (Hhash : forall info w1, getCommitInfo E hash i w = (Ok info, w1) ->
                                  ci_hash info = hash).
  { intros info w1. unfold getCommitInfo, bind. destruct (i =? 0)%nat;
      repeat match goal with
             | |- context [execCommand E ?c ?x] =>
                 destruct (execCommand E c x) as [[? | ? | ?] ?]
             end; try discriminate; unfold ret; by intros [= <- _]. }
  destruct (getCommitInfo E hash i w) as [[info | e | code] w1];
    cbn [fst snd] in Hne, Hreq; [| |by destruct (Hne code)].
  - specialize (Hhash info w1 eq_refl).
    assert (Hgen : forall ev,
               exists st' w',
                 (emit ev ;;; generateFor E this total i info st) w1 = (Ok st', w')
                 /\ iterationOutcome hash st w st' w').
    { intros ev. unfold bind at 1. cbn [emit].
      destruct (generateFor_outcome total i info st (setTrace (w_trace w1 ++ [ev]) w1))
        as (st' & w' & Hrun & Hout).
      exists st', w'. split; [exact Hrun|].
      rewrite Hhash in Hout. unfold iterationOutcome in *.
      cbn [w_requests setTrace] in Hout. by rewrite Hreq in Hout. }
    assert (Hgo : forall ev,
               exists st' w',
                 (let (r, w'0) := (emit ev ;;; generateFor E this total i info st) w1 in
                  match r with
                  | Ok a => (Ok a, w'0)
                  | Throw e => (emit (ErrorProcessing hash e) ;;; ret st) w'0
                  | Exit code => (Exit code, w'0)
                  end) = (Ok st', w')
                 /\ iterationOutcome hash st w st' w').
    { intros ev. destruct (Hgen ev) as (st' & w' & -> & Hout). eauto. }
    destruct (truthyBool (o_skipWellFormed this)); cbn zeta; [|apply Hgo].
    destruct (isWellFormed _); [|apply Hgo].
    eexists _, _. split; [reflexivity|]. right. left. cbn. auto.
  - eexists _, _. split; [reflexivity|]. left. cbn. auto.
Qed.

Lemma processCommits_outcome (total : nat) (commits : list string) :
  forall (i : nat) (st : LoopState) (w : world),
  exists st' w',
    processCommits E this total i commits st w = (Ok st', w')
    /\ passOutcome commits st w st' w'.
Proof.
  induction commits as [|hash rest IH]; intros i st w; cbn [processCommits].
  - eexists _, _. split; [reflexivity|]. split; try lia; cbn; auto.
  - destruct (iteration_outcome total i hash st w) as (st1 & w1 & Hstep & Hout).
    rewrite (bind_ok _ _ _ _ _ Hstep).
    destruct (IH (S i) st1 w1) as (st' & w' & Hrun & [P1 P2 P3 P4 P5 P6 P7]).
    exists st', w'. split; [exact Hrun|].
    assert (Hcases :
              (messageMap st1 = messageMap st
               /\ improvedCount st1 = improvedCount st
               /\ (skippedCount st <= skippedCount st1)%nat
               /\ (w_requests w <= w_requests w1)%nat
               /\ ((w_requests w1 - w_requests w)
                   + (skippedCount st1 - skippedCount st) <= 1)%nat)
              \/ (exists g, messageMap st1 = <[hash := g]> (messageMap st)
                            /\ improvedCount st1 = S (improvedCount st)
                            /\ skippedCount st1 = skippedCount st
                            /\ w_requests w1 = S (w_requests w)
                            /\ JS.truthy g = true /\ JS.trim g = g)).
    { destruct Hout as [[-> [-> | ->]] | [[-> ->] | (g & -> & -> & ? & ?)]]; cbn;
        [left | left | left | right; exists g]; split_and!; try done; lia. }
    split; cbn [List.length].
    + destruct Hcases as [(_ & _ & _ & ? & _) | (g & _ & _ & _ & ? & _)]; lia.
    + destruct Hcases as [(_ & _ & ? & _) | (g & _ & _ & ? & _)]; lia.
    + destruct Hcases as [(_ & ? & _) | (g & _ & ? & _)]; lia.
    + destruct Hcases as [(_ & ? & _ & ? & _) | (g & _ & ? & _ & ? & _)]; lia.
    + destruct Hcases as [(_ & _ & ? & ? & ?) | (g & _ & _ & ? & ? & _)]; lia.
    + intros h m Hm. destruct (P6 h m Hm) as [H1 | (Hin & ? & ?)]; [|right; cbn; auto].
      destruct Hcases as [(<- & _) | (g & Hg & _ & _ & _ & ? & ?)]; [by left|].
      rewrite Hg in H1. destruct (decide (hash = h)) as [<- | Hne].
      * rewrite lookup_insert_eq in H1. injection H1 as <-. right. cbn. auto.
      * rewrite lookup_insert_ne in H1 by done. by left.
    + intros Hnd Hfresh. apply NoDup_cons in Hnd as [Hnotin Hnd].
      assert (Hfresh1 : forall h, In h rest -> messageMap st1 !! h = None).
      { intros h Hin.
        destruct Hcases as [(-> & _) | (g & -> & _)]; [apply Hfresh; by right|].
        rewrite lookup_insert_ne; [apply Hfresh; by right|].
        intros <-. apply Hnotin. by apply list_elem_of_In. }
      specialize (P7 Hnd Hfresh1).
      destruct Hcases as [(Hsame & Hi & _) | (g & Hg & Hi & _)].
      * rewrite Hsame, Hi in P7. exact P7.
      * rewrite Hg, map_size_insert_None in P7 by (apply Hfresh; by left).
        lia.
Qed.

End Pass.

Lemma orderMessages_length (E : env) (map : gmap string string) (commits : list string) :
  forall (w w' : world) (messages : list string),
    orderMessages E map commits w = (Ok messages, w') ->
    List.length messages = List.length commits.
Proof.
  induction commits as [|commit rest IH]; intros w w' messages; cbn [orderMessages].
  - by intros [= <- _].
  - intros (m & w1 & _ & Hrest)%bind_Ok_inv.
    apply bind_Ok_inv in Hrest as (ms & w2 & Hrec & Hret).
    injection Hret as <- _. cbn. f_equal. by eapply IH.
Qed.

Lemma buildPlan_outcome (E : env) (this : Options) (commits : list string) (w : world) :
  exists st w1,
    processCommits E this (List.length commits) 0 commits loopStart w = (Ok st, w1)
    /\ passOutcome commits loopStart w st w1
    /\ w_requests (buildPlan E this commits w).2 = w_requests w1
    /\ forall st' ordered w',
         buildPlan E this commits w = (Ok (st', ordered), w') ->
         st' = st /\ List.length ordered = List.length commits.
Proof.
  destruct (processCommits_outcome E this (List.length commits) commits 0%nat loopStart w)
    as (st & w1 & Hloop & Hpass).
  exists st, w1. split; [done|]. split; [done|].
  unfold buildPlan. rewrite (bind_ok _ _ _ _ _ Hloop).
  pose proof (quiet_orderMessages E (messageMap st) commits w1) as [_ Hreq].
  split.
  - unfold bind.
    destruct (orderMessages E (messageMap st) commits w1) as [[ms | e | c] w2];
      cbn [snd] in Hreq |- *; done.
  - intros st' ordered w' Hrun.
    apply bind_Ok_inv in Hrun as (ms & w2 & Horder & Hret).
    injection Hret as <- <- <-. split; [done|]. by eapply orderMessages_length.
Qed.

(** X14. The two loops that make the plan send at most one request per
    commit.  A commit skipped as well-formed costs no request, and every
    improvement has cost one. *)
Theorem at_most_one_request_per_commit (E : env) (this : Options)
    (commits : list string) (w : world) :
  let run := buildPlan E this commits w in
  (w_requests w <= w_requests run.2 <= w_requests w + List.length commits)%nat
  /\ forall st ordered,
       run.1 = Ok (st, ordered) ->
       (improvedCount st <= w_requests run.2 - w_requests w)%nat
       /\ ((w_requests run.2 - w_requests w) + skippedCount st
           <= List.length commits)%nat.
Proof.
  intros run.
  destruct (buildPlan_outcome E this commits w)
    as (st & w1 & _ & [P1 P2 P3 P4 P5 _ _] & Hreq & Hok).
  subst run. rewrite Hreq. split; [lia|].
  intros st' ordered Hrun.
  destruct (buildPlan E this commits w) as [r w'] eqn:Hb. cbn [fst] in Hrun. subst r.
  destruct (Hok st' ordered w' eq_refl) as [-> _].
  cbn [improvedCount skippedCount loopStart] in *. lia.
Qed.

(** X15. When the ids are distinct, the summary's two counts agree: the
    number of commits improved is the number of entries in the map of
    new messages.  Skipped and improved commits together are at most
    the commits enumerated, and the list saved for the rewrite has one
    message per enumerated commit. *)
Theorem improved_count_is_the_number_of_changes (E : env) (this : Options)
    (commits : list string) (w w' : world) (st : LoopState) (ordered : list string) :
  NoDup commits ->
  buildPlan E this commits w = (Ok (st, ordered), w') ->
  improvedCount st = size (messageMap st)
  /\ (skippedCount st + improvedCount st <= List.length commits)%nat
  /\ List.length ordered = List.length commits.
Proof.
  intros Hnd Hrun.
  destruct (buildPlan_outcome E this commits w)
    as (st1 & w1 & _ & [P1 P2 P3 P4 P5 _ P7] & _ & Hok).
  destruct (Hok st ordered w' Hrun) as [-> Hlen].
  specialize (P7 Hnd (fun h _ => lookup_empty h)).
  cbn [improvedCount skippedCount messageMap loopStart] in *.
  rewrite map_size_empty in P7. split_and!; [lia | lia | done].
Qed.

Lemma improved_count_is_the_number_of_changes_witness :
  exists st ordered w',
    buildPlan (sampleEnv echoingProvider neverBreaks) plainOptions sampleCommits
              (freshWorld sampleHistory) = (Ok (st, ordered), w')
    /\ improvedCount st = 2%nat
    /\ improvedCount st = size (messageMap st)
    /\ (skippedCount st + improvedCount st <= List.length sampleCommits)%nat
    /\ List.length ordered = List.length sampleCommits.
Proof.
  eexists _, _, _. split; [vm_compute; reflexivity|].
  split; [reflexivity|].
  eapply (improved_count_is_the_number_of_changes
            (sampleEnv echoingProvider neverBreaks) plainOptions sampleCommits
            (freshWorld sampleHistory)).
  - exact sampleHistory_NoDup.
  - vm_compute. reflexivity.
Defined.

(** X16. Every entry of the map of new messages belongs to an
    enumerated commit and is a text that is not empty and has no
    whitespace at its ends; so the truthiness test of the second loop
    ([if (messageMap[commit])]) is a test of membership. *)
Theorem new_messages_are_never_empty (E : env) (this : Options)
    (commits : list string) (w w' : world) (st : LoopState) (ordered : list string) :
  buildPlan E this commits w = (Ok (st, ordered), w') ->
  (forall h m, messageMap st !! h = Some m ->
     In h commits /\ JS.truthy m = true /\ JS.trim m = m)
  /\ (forall h, truthyStr (messageMap st !! h) = true <-> is_Some (messageMap st !! h)).
Proof.
  intros Hrun.
  destruct (buildPlan_outcome E this commits w)
    as (st1 & w1 & _ & [_ _ _ _ _ P6 _] & _ & Hok).
  destruct (Hok st ordered w' Hrun) as [-> _].
  assert (Hentries : forall h m, messageMap st1 !! h = Some m ->
                       In h commits /\ JS.truthy m = true /\ JS.trim m = m).
  { intros h m Hm. destruct (P6 h m Hm) as [Habs | ?]; [|done].
    cbn in Habs. by rewrite lookup_empty in Habs. }
  split; [exact Hentries|].
  intros h. destruct (messageMap st1 !! h) as [m|] eqn:Hm; cbn.
  - split; [eauto|]. intros _. by destruct (Hentries h m Hm) as (_ & ? & _).
  - split; [discriminate | by intros [? ?]].
Qed.

Lemma new_messages_are_never_empty_witness :
  exists st ordered w',
    buildPlan (sampleEnv echoingProvider neverBreaks) plainOptions sampleCommits
              (freshWorld sampleHistory) = (Ok (st, ordered), w')
    /\ messageMap st !! "b2e1" = Some "feat(parser): add the parser and the lexer"
    /\ (forall h m, messageMap st !! h = Some m ->
          In h sampleCommits /\ JS.truthy m = true /\ JS.trim m = m)
    /\ (forall h, truthyStr (messageMap st !! h) = true <-> is_Some (messageMap st !! h)).
Proof.
  eexists _, _, _. split; [vm_compute; reflexivity|].
  split; [vm_compute; reflexivity|].
  eapply (new_messages_are_never_empty
            (sampleEnv echoingProvider neverBreaks) plainOptions sampleCommits
            (freshWorld sampleHistory)).
  vm_compute. reflexivity.
Defined.

(** ** The application step when git fails *)

(** X17. When [git filter-branch] cannot be run, [rewriteHistory]
    removes its three files all the same and then throws the error of
    the command; history and branches are as they were. *)
Theorem failed_rewrite_cleans_up_and_rethrows (E : env) (w : world) :
  e_breaks E (w_commands w) (GitFilterBranch filterScriptPath) = true ->
  let run := rewriteHistory E mappingFilePath counterFilePath w in
  run.1 = Throw (CommandFailed (GitFilterBranch filterScriptPath) "spawnSync ENOBUFS")
  /\ w_history run.2 = w_history w
  /\ w_branches run.2 = w_branches w
  /\ w_fs run.2 !! mappingFilePath = None
  /\ w_fs run.2 !! counterFilePath = None
  /\ w_fs run.2 !! filterScriptPath = None
  /\ (forall path, runFile path = false -> w_fs run.2 !! path = w_fs w !! path).
Proof.
  intros Hb run.
  pose proof (rewriteHistory_removes_its_files E w) as (Hm & Hc & Hs).
  pose proof (keeps_rewriteHistory_other_files E w) as Hother.
  fold run in Hm, Hc, Hs, Hother.
  assert (Hrun : exists w', run = (Throw (CommandFailed (GitFilterBranch filterScriptPath)
                                             "spawnSync ENOBUFS"), w')
                             /\ w_history w' = w_history w
                             /\ w_branches w' = w_branches w).
  { subst run. unfold rewriteHistory.
    unfold bind at 1. cbn [writeFileSync].
    unfold bind at 1. cbn [writeFileSync].
    unfold tryFinally, bind at 1.
    rewrite execCommand_breaks by exact Hb.
    cbn beta iota.
    rewrite (bind_ok _ _ _ _ _ (cleanup_deletes _)).
    eexists. split; [reflexivity|]. split; reflexivity. }
  destruct Hrun as (w' & Hrun & ? & ?). rewrite Hrun in *. split_and!; done.
Qed.

Lemma failed_rewrite_cleans_up_and_rethrows_witness :
  let E := sampleEnv helpfulProvider
             (fun _ cmd => match cmd with GitFilterBranch _ => true | _ => false end) in
  let w := setFs {[ mappingFilePath := JsonStrings ["feat: a"; "feat: b"; "feat: c"] ]}
                 (freshWorld sampleHistory) in
  let run := rewriteHistory E mappingFilePath counterFilePath w in
  run.1 = Throw (CommandFailed (GitFilterBranch filterScriptPath) "spawnSync ENOBUFS")
  /\ w_history run.2 = w_history w
  /\ w_branches run.2 = w_branches w
  /\ w_fs run.2 !! mappingFilePath = None
  /\ w_fs run.2 !! counterFilePath = None
  /\ w_fs run.2 !! filterScriptPath = None
  /\ (forall path, runFile path = false -> w_fs run.2 !! path = w_fs w !! path).
Proof.
  apply (failed_rewrite_cleans_up_and_rethrows
           (sampleEnv helpfulProvider
              (fun _ cmd => match cmd with GitFilterBranch _ => true | _ => false end))
           (setFs {[ mappingFilePath := JsonStrings ["feat: a"; "feat: b"; "feat: c"] ]}
                  (freshWorld sampleHistory))).
  reflexivity.
Defined.

(** ** Options *)

(** A run depends on its options only through what it reads of them. *)
Lemma rewrite_sameReads (a b : Options) :
  sameReads a b -> forall E w, rewrite E a w = rewrite E b w.
Proof.
  intros [H1 H2 H3 H4 H5 H6 H7 H8] E w. unfold limitOn in H7, H8.
  unfold rewrite, buildPlan, getCommits, limitCommits, processCommits, processCommit,
    generateFor, generateCommitMessage, buildRequest, assessCommitQuality.
  rewrite H1, H2, H3, H4, H5, H6, H7.
  destruct (truthyNum (o_maxCommits b) && (default 0 (o_maxCommits b) >? 0)).
  - rewrite H8 by done. reflexivity.
  - reflexivity.
Qed.

Lemma constructor_inr (envKey : option string) (options : RewriteOptions) (this : Options) :
  constructor envKey options = inr this ->
  this = {| o_apiKey := spreadOver None (apiKey options);
            o_model := spreadOver (Some "gpt-3.5-turbo") (model options);
            o_branch := spreadOver None (branch options);
            o_dryRun := spreadOver (Some false) (dryRun options);
            o_verbose := spreadOver (Some false) (verbose options);
            o_maxCommits := spreadOver None (maxCommits options);
            o_skipBackup := spreadOver (Some false) (skipBackup options);
            o_skipWellFormed := spreadOver (Some true) (skipWellFormed options);
            o_minQualityScore := spreadOver (Some 7) (minQualityScore options) |}.
Proof. unfold constructor. destruct (negb _); [discriminate | by intros [= <-]]. Qed.

(** X18. The [branch] option is never read: whatever it holds, the run
    is the same, on the commits reachable from HEAD. *)
Theorem branch_option_is_never_read (envKey : option string) (options : RewriteOptions)
    (branch' : property string) (this this' : Options) (E : env) (w : world) :
  constructor envKey options = inr this ->
  constructor envKey (withBranch branch' options) = inr this' ->
  rewrite E this' w = rewrite E this w.
Proof.
  intros ->%constructor_inr ->%constructor_inr.
  apply rewrite_sameReads. by split.
Qed.

Lemma branch_option_is_never_read_witness :
  let E := sampleEnv helpfulProvider neverBreaks in
  rewrite E (mkOptions (Some "sk-test") (Some "gpt-3.5-turbo") (Some "release")
                       (Some false) (Some false) None (Some false) (Some true) (Some 7))
          (freshWorld sampleHistory)
  = rewrite E plainOptions (freshWorld sampleHistory).
Proof.
  apply (branch_option_is_never_read None
           (mkRewriteOptions (Value "sk-test") Absent Absent Absent Absent Absent Absent
                             Absent Absent)
           (Value "release")); reflexivity.
Defined.

(** X19. An option that is [undefined] or falsy runs as the option left
    out, for [model], [dryRun], [verbose], [maxCommits] (zero or less),
    [skipBackup] and [minQualityScore]: the run is the one of a rewriter
    built from the key and [skipWellFormed] alone. *)
Theorem unset_option_runs_as_the_default (envKey : option string)
    (options : RewriteOptions) (this this' : Options) (E : env) (w : world) :
  unset isEmpty (model options) = true ->
  unset isFalse (dryRun options) = true ->
  unset isFalse (verbose options) = true ->
  unset isZeroOrLess (maxCommits options) = true ->
  unset isFalse (skipBackup options) = true ->
  unset isZero (minQualityScore options) = true ->
  constructor envKey options = inr this ->
  constructor envKey (keyAndSkipOnly options) = inr this' ->
  rewrite E this w = rewrite E this' w.
Proof.
  intros Hmodel Hdry Hverbose Hmax Hbackup Hmin ->%constructor_inr ->%constructor_inr.
  apply rewrite_sameReads. unfold keyAndSkipOnly.
  split; cbn [o_dryRun o_verbose o_skipBackup o_skipWellFormed o_minQualityScore o_model
              o_maxCommits model dryRun verbose maxCommits skipBackup skipWellFormed
              minQualityScore spreadOver]; try done.
  - by destruct (dryRun options) as [| |[]].
  - by destruct (verbose options) as [| |[]].
  - by destruct (skipBackup options) as [| |[]].
  - destruct (minQualityScore options) as [| |n]; try done. cbn in Hmin |- *.
    unfold isZero in Hmin. by rewrite Hmin.
  - destruct (model options) as [| |m]; try done. cbn in Hmodel |- *.
    unfold isEmpty in Hmodel. by destruct (JS.truthy m).
  - unfold limitOn. destruct (maxCommits options) as [| |n]; try done.
    cbn in Hmax |- *. unfold isZeroOrLess in Hmax.
    destruct (n =? 0); [done|]. cbn. apply Z.leb_le in Hmax. lia.
Qed.

Lemma unset_option_runs_as_the_default_witness :
  let E := sampleEnv helpfulProvider neverBreaks in
  rewrite E (mkOptions (Some "sk-test") None None None (Some false) (Some 0) None
                       (Some true) (Some 0))
          (freshWorld sampleHistory)
  = rewrite E plainOptions (freshWorld sampleHistory).
Proof.
  apply (unset_option_runs_as_the_default None
           (mkRewriteOptions (Value "sk-test") Undefined Absent Undefined (Value false)
                             (Value 0) Undefined (Value true) (Value 0)));
    reflexivity.
Defined.

(** X20. [skipWellFormed] is the exception: given as [undefined] it
    overrides the default [true] and the run is the one with
    [skipWellFormed: false], where well-formed commits are sent to the
    provider too. *)
Theorem undefined_skipWellFormed_turns_skipping_off (envKey : option string)
    (options : RewriteOptions) (this this' : Options) (E : env) (w : world) :
  skipWellFormed options = Undefined ->
  constructor envKey options = inr this ->
  constructor envKey (withSkipWellFormed (Value false) options) = inr this' ->
  truthyBool (o_skipWellFormed this) = false
  /\ rewrite E this w = rewrite E this' w.
Proof.
  intros Hskip ->%constructor_inr ->%constructor_inr.
  cbn [o_skipWellFormed]. rewrite Hskip. split; [reflexivity|].
  apply rewrite_sameReads. split; cbn; done.
Qed.

Lemma undefined_skipWellFormed_turns_skipping_off_witness :
  let E := sampleEnv helpfulProvider neverBreaks in
  let this := mkOptions (Some "sk-test") (Some "gpt-3.5-turbo") None (Some false)
                        (Some false) None (Some false) None (Some 7) in
  truthyBool (o_skipWellFormed this) = false
  /\ rewrite E this (freshWorld sampleHistory)
     = rewrite E (mkOptions (Some "sk-test") (Some "gpt-3.5-turbo") None (Some false)
                            (Some false) None (Some false) (Some false) (Some 7))
               (freshWorld sampleHistory).
Proof.
  apply (undefined_skipWellFormed_turns_skipping_off None
           (mkRewriteOptions (Value "sk-test") Absent Absent Absent Absent Absent Absent
                             Undefined Absent)); reflexivity.
Defined.

(** ** The command line *)

(** Once the action has found a key, the constructor finds one too, and
    the rewriter it builds reads as [cliRewriter]. *)
Lemma action_runs (envKey : option string) (E : env) (options : CliOptions) (w : world) :
  noKey envKey options = false ->
  action envKey E options w = afterRun options (rewrite E (cliRewriter options) w).
Proof.
  intros Hkey. unfold action, noKey in *.
  set (key := if truthyStr (cli_apiKey options) then cli_apiKey options else envKey).
  assert (Htruthy : truthyStr key = true).
  { subst key. destruct (truthyStr (cli_apiKey options)) eqn:Hflag; [done|].
    cbn in Hkey. by destruct (truthyStr envKey). }
  rewrite Htruthy. cbn [negb].
  unfold constructor.
  replace (truthyStr (spreadOver None (apiKey (rewriterOptions key options))))
    with true by (cbn; by destruct key).
  replace (spreadOver None (apiKey (rewriterOptions key options))) with key
    by (cbn; by destruct key).
  rewrite Htruthy. cbn [negb].
  match goal with |- context [rewrite E ?this w] =>
    rewrite (rewrite_sameReads this (cliRewriter options))
  end; [reflexivity|].
  split; cbn [cliRewriter rewriterOptions given spreadOver o_dryRun o_verbose
                o_skipBackup o_skipWellFormed o_minQualityScore o_model o_maxCommits
                dryRun verbose skipBackup skipWellFormed minQualityScore model
                maxCommits].
  - by destruct (cli_dryRun options) as [[]|].
  - by destruct (cli_verbose options) as [[]|].
  - by destruct (cli_skipBackup options) as [[]|].
  - reflexivity.
  - destruct (cli_minQualityScore options) as [n|]; cbn; [|done].
    destruct (n =? 0) eqn:Hn; cbn; [done | by rewrite Hn].
  - destruct (cli_model options) as [m|]; cbn; [|done].
    destruct (JS.truthy m) eqn:Hm; cbn; [by rewrite Hm | done].
  - unfold limitOn. cbn. destruct (cli_maxCommits options) as [n|]; cbn; [|done].
    destruct (n =? 0) eqn:Hn; cbn; [done|]. destruct (n >? 0) eqn:Hp; cbn; [|done].
    by rewrite Hn, Hp.
  - unfold limitOn. cbn. destruct (cli_maxCommits options) as [n|]; cbn; [|done].
    by destruct (n =? 0), (n >? 0).
Qed.

Ltac settle :=
  first [ done | by left | by right | by (intros; right; eauto)
        | by intros [? | [? ?]]
        | by (intros _; split_and!; [done | done |]; intros ? [= <-])
        | by (intros _; split_and!; [done | done |]; intros ? ?)
        | by (split; [done | intros [? | [? ?]]])
        | by (split; [intros _; right; eauto | done])
        | by (split; auto) ].

(** X21. The command line ends with code 1 exactly when no key is given
    or the run throws, and with code 0 otherwise (the run returned, or
    the user declined at a prompt).  With a key the action does what
    [afterRun] does with the run of the rewriter it builds, which reads
    its options as [cliRewriter] gives them.  Without a key it prints the help on
    the key and touches nothing; an error of the run is printed, with
    its stack only under [--verbose]. *)
Theorem command_line_exit_code (envKey : option string) (E : env) (options : CliOptions)
    (w : world) :
  let ending := action envKey E options w in
  let run := rewrite E (cliRewriter options) w in
  (exitCode ending = 0 \/ exitCode ending = 1)
  /\ (exitCode ending = 1
      <-> noKey envKey options = true \/ exists e, run.1 = Throw e)
  /\ (noKey envKey options = true ->
      endWorld ending = w
      /\ errorLines ending
         = [KeyRequired; KeyMethods; KeyByVariable; KeyByArgument; KeyAddress])
  /\ (noKey envKey options = false ->
      ending = afterRun options run
      /\ endWorld ending = run.2
      /\ forall e, run.1 = Throw e ->
           errorLines ending
           = ErrorMessage e :: if truthyBool (cli_verbose options)
                               then [ErrorStack e] else []).
Proof.
  intros ending run.
  destruct (noKey envKey options) eqn:Hkey.
  - assert (Hend : ending = mkProcessEnd 1 [KeyRequired; KeyMethods; KeyByVariable;
                                            KeyByArgument; KeyAddress] w).
    { subst ending. unfold action. unfold noKey in Hkey.
      apply andb_true_iff in Hkey as [Hflag Henv].
      apply negb_true_iff in Hflag, Henv. by rewrite Hflag, Henv. }
    rewrite Hend. cbn. split_and!; settle.
  - assert (Hend : ending = afterRun options run) by (by apply action_runs).
    rewrite Hend. subst run.
    pose proof (rewrite_exitsOnRefusal E (cliRewriter options) w) as Hexit.
    destruct (rewrite E (cliRewriter options) w) as [[[] | e | code] w'] eqn:Hrun;
      cbn [afterRun reportFailure exitCode endWorld errorLines fst snd].
    + split_and!; settle.
    + split_and!; settle.
    + destruct (Hexit code eq_refl) as (-> & _).
      split_and!; settle.
Qed.

(** X22. With no flag given and the key in the environment, the command
    line runs what the library runs with no option at all. *)
Theorem command_line_without_flags_runs_the_defaults (envKey : option string)
    (this : Options) (E : env) (w : world) :
  constructor envKey noOptions = inr this ->
  action envKey E noFlags w = afterRun noFlags (rewrite E this w).
Proof.
  intros Hc.
  assert (Hkey : truthyStr envKey = true).
  { unfold constructor in Hc. cbn in Hc. by destruct (truthyStr envKey). }
  apply constructor_inr in Hc as ->.
  rewrite action_runs by (unfold noKey; cbn; by rewrite Hkey).
  f_equal.
Qed.

Lemma command_line_without_flags_runs_the_defaults_witness :
  let E := sampleEnv helpfulProvider neverBreaks in
  action (Some "sk-test") E noFlags (freshWorld sampleHistory)
  = afterRun noFlags
      (rewrite E (mkOptions None (Some "gpt-3.5-turbo") None (Some false) (Some false)
                            None (Some false) (Some true) (Some 7))
               (freshWorld sampleHistory)).
Proof.
  apply (command_line_without_flags_runs_the_defaults (Some "sk-test")). reflexivity.
Defined.

(** ** Installing the hooks *)

Module HooksFacts.
Import Hooks.

Lemma existsSync_false (path : string) (s : state) :
  existsSync path s = false <-> fs s !! path = None.
Proof.
  unfold existsSync. rewrite bool_decide_eq_false.
  destruct (fs s !! path) as [n|].
  - split; [intros Hn; destruct Hn; eauto | discriminate].
  - split; [done | by intros _ [? ?]].
Qed.

Lemma installHook_step (E : env) (name : string) (c : counts) (s : state) :
  step E name c s (installHook E name c s).1 (installHook E name c s).2.
Proof.
  unfold installHook.
  destruct (String.eqb name "README.md") eqn:Hreadme.
  { apply String.eqb_eq in Hreadme. apply (Unchanged _ _ _ _ _ _ []); cbn; auto.
    - by rewrite app_nil_r.
    - by intros _ (? & _). }
  apply String.eqb_neq in Hreadme.
  destruct (existsSync (join (sourceHooksDir E) name) s) eqn:Hsource; cbn [negb].
  2:{ apply (Unchanged _ _ _ _ _ _ [SourceNotFound name]); cbn; auto.
      apply existsSync_false in Hsource. intros _ (_ & (? & ? & ?) & _). congruence. }
  destruct (existsSync (join (gitHooksDir E) name) s) eqn:Htarget.
  { apply (Unchanged _ _ _ _ _ _ [AlreadyExists name]); cbn; auto.
    intros _ (_ & _ & Hnone & _). apply existsSync_false in Hnone. congruence. }
  apply existsSync_false in Htarget.
  destruct (readFileSync E (join (sourceHooksDir E) name) s) as [content|] eqn:Hread.
  2:{ eapply (Unchanged _ _ _ _ _ _ [InstallationFailed name _]); cbn; auto.
      intros Hrel (_ & (c0 & e0 & Hsrc) & _). unfold readFileSync in Hread.
      by rewrite Hrel, Hsrc in Hread. }
  assert (Hsrc : exists executable,
             fs s !! join (sourceHooksDir E) name = Some (File content executable)).
  { unfold readFileSync in Hread. destruct (fails E _); [done|].
    destruct (fs s !! join (sourceHooksDir E) name) as [[|c0 e0]|]; try done.
    injection Hread as ->. eauto. }
  destruct Hsrc as [executable Hsrc].
  destruct (writeFileSync E (gitHooksDir E) name content s) as [s1|] eqn:Hwrite.
  2:{ eapply (Unchanged _ _ _ _ _ _ [InstallationFailed name _]); cbn; auto.
      intros Hrel (_ & _ & _ & Hdir). unfold writeFileSync in Hwrite.
      by rewrite Hrel, Hdir, Htarget in Hwrite. }
  assert (Hs1 : fs s1 = <[join (gitHooksDir E) name := File content false]> (fs s)
                /\ console s1 = console s
                /\ fs s !! gitHooksDir E = Some Directory).
  { unfold writeFileSync in Hwrite. destruct (fails E _); [done|].
    rewrite Htarget in Hwrite.
    destruct (fs s !! gitHooksDir E) as [[|]|]; try done. by injection Hwrite as <-. }
  destruct Hs1 as (Hfs1 & Hc1 & Hdir).
  assert (Hable : installable E name (fs s)) by (split_and!; eauto).
  unfold chmodSync. rewrite Hfs1, lookup_insert_eq.
  destruct (fails E (Chmod _)) eqn:Hchmod.
  - eapply (Copied _ _ _ _ _ _ content executable false [InstallationFailed name _]);
      cbn; auto.
    + by rewrite Hc1.
    + intros Hrel. by rewrite Hrel in Hchmod.
  - apply (Copied _ _ _ _ _ _ content executable true [Installed name]); cbn; auto.
    + by rewrite insert_insert_eq.
    + by rewrite Hc1.
Qed.

(** An iteration leaves every entry of the file system that is there. *)
Lemma step_keeps (E : env) (name : string) (c c' : counts) (s s' : state)
    (path : string) (n : node) :
  step E name c s c' s' -> fs s !! path = Some n -> fs s' !! path = Some n.
Proof.
  intros [more Hfs _ _ _ _ _ | content e d more (_ & _ & Hnone & _) _ Hfs _ _ _ _ _] Hp.
  - by rewrite Hfs.
  - rewrite Hfs, lookup_insert_ne; [done|]. intros <-. congruence.
Qed.

Lemma installAll_cons (E : env) (name : string) (names : list string) (c : counts)
    (s : state) :
  installAll E (name :: names) c s
  = installAll E names (installHook E name c s).1 (installHook E name c s).2.
Proof. unfold installAll. cbn [fold_left]. by destruct (installHook E name c s). Qed.

Lemma installAll_keeps (E : env) (names : list string) :
  forall (c : counts) (s : state) (path : string) (n : node),
    fs s !! path = Some n -> fs (installAll E names c s).2 !! path = Some n.
Proof.
  induction names as [|name names IH]; intros c s path n Hp; [done|].
  rewrite installAll_cons. apply IH. eapply step_keeps; [apply installHook_step | done].
Qed.

Lemma report_fs (c : counts) (s : state) : fs (report c s) = fs s.
Proof.
  unfold report. repeat match goal with |- context [if ?b then _ else _] => destruct b end;
    reflexivity.
Qed.

Lemma installedNames_app (a b : list line) :
  installedNames (a ++ b) = (installedNames a ++ installedNames b)%list.
Proof. unfold installedNames. apply omap_app. Qed.

Lemma summaries_app (a b : list line) :
  summaries (a ++ b) = (summaries a ++ summaries b)%list.
Proof. unfold summaries. apply omap_app. Qed.

(** What a pass over [names] reports as installed is installed: the
    target is an executable copy of the source, both are there at the
    end, and the count is the number of reports. *)
Lemma installAll_reports (E : env) (names : list string) :
  forall (c : counts) (s : state),
  exists more,
    console (installAll E names c s).2 = (console s ++ more)%list
    /\ summaries more = []
    /\ installedCount (installAll E names c s).1
       = (installedCount c + List.length (installedNames more))%nat
    /\ forall name, In name (installedNames more) ->
         In name names
         /\ fs s !! join (gitHooksDir E) name = None
         /\ exists content executable,
              fs (installAll E names c s).2 !! join (sourceHooksDir E) name
              = Some (File content executable)
              /\ fs (installAll E names c s).2 !! join (gitHooksDir E) name
                 = Some (File content true).
Proof.
  induction names as [|name names IH]; intros c s.
  - exists []. cbn. rewrite app_nil_r. split_and!; [done | done | lia | done].
  - rewrite installAll_cons.
    pose proof (installHook_step E name c s) as Hstep.
    destruct (IH (installHook E name c s).1 (installHook E name c s).2)
      as (rest & Hconsole & Hnosum & Hcount & Hrest).
    set (c1 := (installHook E name c s).1) in *.
    set (s1 := (installHook E name c s).2) in *.
    assert (Hlater : forall name', In name' (installedNames rest) ->
               In name' (name :: names)
               /\ fs s !! join (gitHooksDir E) name' = None
               /\ exists content executable,
                    fs (installAll E names c1 s1).2 !! join (sourceHooksDir E) name'
                    = Some (File content executable)
                    /\ fs (installAll E names c1 s1).2 !! join (gitHooksDir E) name'
                       = Some (File content true)).
    { intros name' Hin. destruct (Hrest name' Hin) as (Hn & Hnone & Hcopy).
      split_and!; [by right | | done].
      destruct (fs s !! join (gitHooksDir E) name') as [n|] eqn:Hs; [|done].
      by rewrite (step_keeps _ _ _ _ _ _ _ _ Hstep Hs) in Hnone. }
    destruct Hstep as [more Hfs Hmore Hi Hnames Hsum _
                      | content e d more Hable Hsrc Hfs Hmore Hi Hnames Hsum _].
    + exists (more ++ rest)%list. rewrite Hconsole, Hmore, app_assoc.
      rewrite installedNames_app, summaries_app, Hnames, Hsum, Hnosum. cbn [app].
      split_and!; [done | done | lia | exact Hlater].
    + exists (more ++ rest)%list. rewrite Hconsole, Hmore, app_assoc.
      rewrite installedNames_app, summaries_app, Hnames, Hsum, Hnosum, length_app.
      split_and!; [done | done | destruct d; cbn; lia |].
      intros name' [Hhere | Hin]%in_app_or; [|by apply Hlater].
      destruct d; [|done]. destruct Hhere as [<- | []].
      destruct Hable as (_ & _ & Hnone & _).
      split_and!; [by left | done |].
      exists content, e. split.
      * apply installAll_keeps. rewrite Hfs, lookup_insert_ne; [done|].
        intros Heq. congruence.
      * apply installAll_keeps. by rewrite Hfs, lookup_insert_eq.
Qed.

Lemma report_console (c : counts) (s : state) :
  exists more, console (report c s) = (console s ++ more)%list
               /\ installedNames more = []
               /\ summaries more = [installedCount c].
Proof.
  unfold report.
  repeat match goal with |- context [if ?b then _ else _] => destruct b end;
    cbn; rewrite <- ?app_assoc; eexists; (split; [reflexivity|]); done.
Qed.

Lemma lastUnit_app (a b : string) :
  b <> EmptyString -> JS.lastUnit (a ++ b) = JS.lastUnit b.
Proof.
  intros Hb. induction a as [|c a IH]; [done|]. cbn [String.append JS.lastUnit].
  rewrite IH. destruct (a ++ b) eqn:Hab; [|done].
  apply append_is_empty in Hab as [_ ?]. contradiction.
Qed.

(** The files of two different hooks are different files, in whatever
    directories. *)
Lemma hooks_apart (d1 d2 n1 n2 : string) :
  In n1 hooks -> In n2 hooks -> join d1 n1 = join d2 n2 -> n1 = n2.
Proof.
  intros H1 H2 Heq. apply (f_equal JS.lastUnit) in Heq. unfold join in Heq.
  rewrite !(lastUnit_app _ ("/" ++ _)) in Heq by done.
  cbn in H1, H2.
  destruct H1 as [<- | [<- | [<- | []]]], H2 as [<- | [<- | [<- | []]]];
    first [reflexivity | discriminate Heq].
Qed.

Lemma not_installable_kept (E : env) (name name' : string) (c c' : counts)
    (s s' : state) :
  (join (sourceHooksDir E) name = join (gitHooksDir E) name' -> name = name') ->
  ~ installable E name (fs s) -> step E name' c s c' s' ->
  ~ installable E name (fs s').
Proof.
  intros Hapart Hnot [more Hfs _ _ _ _ _ | content e d more Hable Hsrc Hfs _ _ _ _ _];
    [by rewrite Hfs|].
  intros (Hreadme & (c0 & e0 & Hsource) & Htarget & Hdir). apply Hnot.
  destruct Hable as (_ & _ & Hnone & _).
  rewrite Hfs in Hsource, Htarget, Hdir.
  split_and!; [done | | |].
  - destruct (decide (join (gitHooksDir E) name' = join (sourceHooksDir E) name))
      as [Heq | Hne].
    + pose proof (Hapart (eq_sym Heq)) as <-. rewrite <- Heq in Hsrc. congruence.
    + rewrite lookup_insert_ne in Hsource by done. eauto.
  - destruct (decide (join (gitHooksDir E) name' = join (gitHooksDir E) name))
      as [Heq | Hne].
    + by rewrite Heq, lookup_insert_eq in Htarget.
    + by rewrite lookup_insert_ne in Htarget.
  - destruct (decide (join (gitHooksDir E) name' = gitHooksDir E)) as [Heq | Hne].
    + by rewrite Heq, lookup_insert_eq in Hdir.
    + by rewrite lookup_insert_ne in Hdir.
Qed.

Lemma installAll_keeps_settled (E : env) (name : string) (names : list string) :
  (forall name', In name' names ->
     join (sourceHooksDir E) name = join (gitHooksDir E) name' -> name = name') ->
  forall (c : counts) (s : state),
    ~ installable E name (fs s) ->
    ~ installable E name (fs (installAll E names c s).2).
Proof.
  induction names as [|name' names IH]; intros Hapart c s Hnot; [done|].
  rewrite installAll_cons. apply IH; [intros n Hn; apply Hapart; by right|].
  eapply not_installable_kept; [apply Hapart; by left | done | apply installHook_step].
Qed.

(** After a pass in which nothing failed for a reason of its own, no
    hook of the pass can be copied any more. *)
Lemma installAll_settles (E : env) (names : list string) :
  reliable E ->
  (forall n n', In n names -> In n' names ->
     join (sourceHooksDir E) n = join (gitHooksDir E) n' -> n = n') ->
  forall (c : counts) (s : state) (name : string),
    In name names -> ~ installable E name (fs (installAll E names c s).2).
Proof.
  intros Hrel. induction names as [|first names IH]; intros Hapart c s name Hin; [done|].
  rewrite installAll_cons. destruct Hin as [<- | Hin].
  - apply installAll_keeps_settled; [intros n Hn; apply Hapart; [by left | by right]|].
    destruct (installHook_step E first c s)
      as [more Hfs _ _ _ _ Hnot | content e d more _ _ Hfs _ _ _ _ _].
    + rewrite Hfs. by apply Hnot.
    + intros (_ & _ & Hnone & _). by rewrite Hfs, lookup_insert_eq in Hnone.
  - apply IH; [|done]. intros n n' Hn Hn'. apply Hapart; by right.
Qed.

(** A pass over hooks none of which can be copied changes no file and
    reports nothing installed. *)
Lemma installAll_settled (E : env) (names : list string) :
  forall (c : counts) (s : state),
    (forall name, In name names -> ~ installable E name (fs s)) ->
    fs (installAll E names c s).2 = fs s
    /\ installedCount (installAll E names c s).1 = installedCount c
    /\ exists more, console (installAll E names c s).2 = (console s ++ more)%list
                    /\ installedNames more = [] /\ summaries more = [].
Proof.
  induction names as [|name names IH]; intros c s Hnot.
  - split_and!; [done | done |]. exists []. by rewrite app_nil_r.
  - rewrite installAll_cons.
    destruct (installHook_step E name c s)
      as [more Hfs Hmore Hi Hnames Hsum _ | content e d more Hable _ _ _ _ _ _ _];
      [|by destruct (Hnot name (or_introl eq_refl))].
    destruct (IH (installHook E name c s).1 (installHook E name c s).2)
      as (Hfs' & Hi' & rest & Hconsole & Hnames' & Hsum').
    { intros name' Hin. rewrite Hfs. apply Hnot. by right. }
    split_and!; [congruence | congruence |].
    exists (more ++ rest)%list. rewrite Hconsole, Hmore, app_assoc.
    by rewrite installedNames_app, summaries_app, Hnames, Hnames', Hsum, Hsum'.
Qed.

End HooksFacts.

(** X23. [installGitHooks] never overwrites: every file or directory
    that is there before is there, unchanged, after, whatever fails on
    the way. *)
Theorem install_never_overwrites (E : Hooks.env) (s : Hooks.state) (path : string)
    (n : Hooks.node) :
  Hooks.fs s !! path = Some n ->
  Hooks.fs (Hooks.installGitHooks E s).2 !! path = Some n.
Proof.
  intros Hp. unfold Hooks.installGitHooks.
  destruct (negb (Hooks.isRepository E)); [done|].
  destruct (negb (Hooks.existsSync (Hooks.gitHooksDir E) (Hooks.log Hooks.Title s)))
    eqn:Hthere.
  - unfold Hooks.mkdirSync. destruct (Hooks.fails E _); [done|].
    apply negb_true_iff, HooksFacts.existsSync_false in Hthere. rewrite Hthere.
    match goal with |- context [Hooks.installAll E ?ns ?c ?s0] =>
      pose proof (HooksFacts.installAll_keeps E ns c s0 path n) as Hk;
      destruct (Hooks.installAll E ns c s0) as [c' s']
    end.
    cbn [snd] in *. rewrite HooksFacts.report_fs. apply Hk. cbn.
    rewrite lookup_insert_ne; [done|]. intros <-. cbn in Hthere. congruence.
  - match goal with |- context [Hooks.installAll E ?ns ?c ?s0] =>
      pose proof (HooksFacts.installAll_keeps E ns c s0 path n) as Hk;
      destruct (Hooks.installAll E ns c s0) as [c' s']
    end.
    cbn [snd] in *. rewrite HooksFacts.report_fs. by apply Hk.
Qed.

Lemma install_never_overwrites_witness :
  let E := Hooks.mkEnv true ".git/hooks" "/pkg/hooks" (fun _ => false) in
  let s := Hooks.mkState {[ ".git/hooks" := Hooks.Directory;
                            ".git/hooks/pre-push" := Hooks.File "#!/bin/sh own" true;
                            "/pkg/hooks/pre-push" := Hooks.File "#!/bin/sh new" true ]} [] in
  Hooks.fs (Hooks.installGitHooks E s).2 !! ".git/hooks/pre-push"
  = Some (Hooks.File "#!/bin/sh own" true).
Proof.
  apply (install_never_overwrites
           (Hooks.mkEnv true ".git/hooks" "/pkg/hooks" (fun _ => false))).
  vm_compute. reflexivity.
Defined.

(** X24. What [installGitHooks] reports is what it did: the summary
    counts the hooks reported as installed, and each of them is one of
    the three hooks, was not there before, and is now an executable copy
    of its source. *)
Theorem install_reports_what_it_installed (E : Hooks.env) (s : Hooks.state) :
  (Hooks.installGitHooks E s).1 = Hooks.Returned ->
  let after := (Hooks.installGitHooks E s).2 in
  exists more,
    Hooks.console after = (Hooks.console s ++ more)%list
    /\ Hooks.summaries more = [List.length (Hooks.installedNames more)]
    /\ forall name, In name (Hooks.installedNames more) ->
         In name Hooks.hooks
         /\ Hooks.fs s !! Hooks.join (Hooks.gitHooksDir E) name = None
         /\ exists content executable,
              Hooks.fs after !! Hooks.join (Hooks.sourceHooksDir E) name
              = Some (Hooks.File content executable)
              /\ Hooks.fs after !! Hooks.join (Hooks.gitHooksDir E) name
                 = Some (Hooks.File content true).
Proof.
  unfold Hooks.installGitHooks.
  destruct (negb (Hooks.isRepository E)); [discriminate|].
  set (s0 := Hooks.log Hooks.Title s).
  assert (Hgo : forall s1,
             Hooks.console s1 = Hooks.console s0 ->
             (forall path n, Hooks.fs s !! path = Some n -> Hooks.fs s1 !! path = Some n) ->
             let after := (let '(c, s2) :=
                             Hooks.installAll E Hooks.hooks (Hooks.mkCounts 0 0)
                               (Hooks.log Hooks.Installing
                                  (Hooks.log (Hooks.Available Hooks.hooks) s1)) in
                           (Hooks.Returned, Hooks.report c s2)).2 in
             exists more,
               Hooks.console after = (Hooks.console s ++ more)%list
               /\ Hooks.summaries more = [List.length (Hooks.installedNames more)]
               /\ forall name, In name (Hooks.installedNames more) ->
                    In name Hooks.hooks
                    /\ Hooks.fs s !! Hooks.join (Hooks.gitHooksDir E) name = None
                    /\ exists content executable,
                         Hooks.fs after !! Hooks.join (Hooks.sourceHooksDir E) name
                         = Some (Hooks.File content executable)
                         /\ Hooks.fs after !! Hooks.join (Hooks.gitHooksDir E) name
                            = Some (Hooks.File content true)).
  { intros s1 Hc1 Hkept.
    set (s2 := Hooks.log Hooks.Installing (Hooks.log (Hooks.Available Hooks.hooks) s1)).
    destruct (HooksFacts.installAll_reports E Hooks.hooks (Hooks.mkCounts 0 0) s2)
      as (more & Hconsole & Hnosum & Hcount & Hcopies).
    destruct (Hooks.installAll E Hooks.hooks (Hooks.mkCounts 0 0) s2) as [c s3].
    cbn [fst snd Hooks.installedCount] in *.
    destruct (HooksFacts.report_console c s3) as (tail & Htail & Hnames & Hsum).
    exists ([Hooks.Title; Hooks.Available Hooks.hooks; Hooks.Installing] ++ more ++ tail)%list.
    split_and!.
    - rewrite Htail, Hconsole. unfold s2. cbn [Hooks.console Hooks.log]. rewrite Hc1.
      unfold s0. cbn [Hooks.console Hooks.log]. by rewrite <- !app_assoc.
    - rewrite HooksFacts.summaries_app, HooksFacts.summaries_app.
      rewrite !HooksFacts.installedNames_app, Hnames, Hsum, app_nil_r. cbn [app].
      rewrite Hnosum, Hcount. reflexivity.
    - rewrite !HooksFacts.installedNames_app, Hnames, app_nil_r. cbn [app].
      intros name Hin. destruct (Hcopies name Hin) as (Hhook & Hnone & Hcopy).
      rewrite HooksFacts.report_fs. split_and!; [done | | done].
      destruct (Hooks.fs s !! Hooks.join (Hooks.gitHooksDir E) name) as [n|] eqn:Hs;
        [|done].
      apply Hkept in Hs. unfold s2 in Hnone. cbn in Hnone. congruence. }
  destruct (negb (Hooks.existsSync (Hooks.gitHooksDir E) s0)) eqn:Hthere.
  - unfold Hooks.mkdirSync. destruct (Hooks.fails E _); [discriminate|].
    apply negb_true_iff, HooksFacts.existsSync_false in Hthere. rewrite Hthere.
    intros _. apply Hgo; [done|]. intros path n Hp. cbn.
    rewrite lookup_insert_ne; [done|]. intros <-. cbn in Hthere. congruence.
  - intros _. by apply Hgo.
Qed.

Lemma install_reports_what_it_installed_witness :
  let E := Hooks.mkEnv true ".git/hooks" "/pkg/hooks" (fun _ => false) in
  let s := Hooks.mkState {[ ".git/hooks" := Hooks.Directory;
                            ".git/hooks/pre-push" := Hooks.File "#!/bin/sh own" true;
                            "/pkg/hooks/pre-push" := Hooks.File "#!/bin/sh new" true;
                            "/pkg/hooks/post-commit" := Hooks.File "#!/bin/sh post" false ]}
                        [] in
  let after := (Hooks.installGitHooks E s).2 in
  exists more,
    Hooks.console after = (Hooks.console s ++ more)%list
    /\ Hooks.summaries more = [List.length (Hooks.installedNames more)]
    /\ forall name, In name (Hooks.installedNames more) ->
         In name Hooks.hooks
         /\ Hooks.fs s !! Hooks.join (Hooks.gitHooksDir E) name = None
         /\ exists content executable,
              Hooks.fs after !! Hooks.join (Hooks.sourceHooksDir E) name
              = Some (Hooks.File content executable)
              /\ Hooks.fs after !! Hooks.join (Hooks.gitHooksDir E) name
                 = Some (Hooks.File content true).
Proof.
  apply (install_reports_what_it_installed
           (Hooks.mkEnv true ".git/hooks" "/pkg/hooks" (fun _ => false))).
  vm_compute. reflexivity.
Defined.

(** X25. Installing twice is installing once: after a run in which no
    operation failed for a reason of its own, a second run returns,
    leaves every file as the first run left it and reports nothing
    installed. *)
Theorem second_install_changes_nothing (E : Hooks.env) (s : Hooks.state) :
  Hooks.reliable E ->
  (Hooks.installGitHooks E s).1 = Hooks.Returned ->
  let first := (Hooks.installGitHooks E s).2 in
  let second := Hooks.installGitHooks E first in
  second.1 = Hooks.Returned
  /\ Hooks.fs second.2 = Hooks.fs first
  /\ exists more,
       Hooks.console second.2 = (Hooks.console first ++ more)%list
       /\ Hooks.installedNames more = []
       /\ Hooks.summaries more = [0%nat].
Proof.
  intros Hrel Hreturned first second.
  assert (Hrepo : Hooks.isRepository E = true).
  { unfold Hooks.installGitHooks in Hreturned.
    by destruct (Hooks.isRepository E). }
  (* the first run: the directory is there and no hook can be copied *)
  assert (Hfirst : (exists n, Hooks.fs first !! Hooks.gitHooksDir E = Some n)
                   /\ forall name, In name Hooks.hooks ->
                        ~ Hooks.installable E name (Hooks.fs first)).
  { subst first. unfold Hooks.installGitHooks in *. rewrite Hrepo in *. cbn [negb] in *.
    set (s0 := Hooks.log Hooks.Title s) in *.
    assert (Hgo : forall s1,
               (exists n, Hooks.fs s1 !! Hooks.gitHooksDir E = Some n) ->
               let after := (let '(c, s2) :=
                               Hooks.installAll E Hooks.hooks (Hooks.mkCounts 0 0)
                                 (Hooks.log Hooks.Installing
                                    (Hooks.log (Hooks.Available Hooks.hooks) s1)) in
                             (Hooks.Returned, Hooks.report c s2)).2 in
               (exists n, Hooks.fs after !! Hooks.gitHooksDir E = Some n)
               /\ forall name, In name Hooks.hooks ->
                    ~ Hooks.installable E name (Hooks.fs after)).
    { intros s1 [n Hdir].
      set (s2 := Hooks.log Hooks.Installing (Hooks.log (Hooks.Available Hooks.hooks) s1)).
      pose proof (HooksFacts.installAll_keeps E Hooks.hooks (Hooks.mkCounts 0 0) s2
                    (Hooks.gitHooksDir E) n Hdir) as Hkept.
      pose proof (HooksFacts.installAll_settles E Hooks.hooks Hrel
                    (fun n1 n2 H1 H2 => HooksFacts.hooks_apart _ _ n1 n2 H1 H2)
                    (Hooks.mkCounts 0 0) s2) as Hsettled.
      destruct (Hooks.installAll E Hooks.hooks (Hooks.mkCounts 0 0) s2) as [c s3].
      cbn [snd] in *. rewrite HooksFacts.report_fs. eauto. }
    destruct (negb (Hooks.existsSync (Hooks.gitHooksDir E) s0)) eqn:Hthere.
    - unfold Hooks.mkdirSync in *. rewrite Hrel in *.
      apply negb_true_iff, HooksFacts.existsSync_false in Hthere. rewrite Hthere in *.
      apply Hgo. cbn. rewrite lookup_insert_eq. eauto.
    - apply Hgo. apply negb_false_iff in Hthere. unfold Hooks.existsSync in Hthere.
      apply bool_decide_eq_true in Hthere as [n Hn]. eauto. }
  destruct Hfirst as [[n Hdir] Hsettled].
  (* the second run *)
  subst second. unfold Hooks.installGitHooks. rewrite Hrepo. cbn [negb].
  replace (Hooks.existsSync (Hooks.gitHooksDir E) (Hooks.log Hooks.Title first)) with true
    by (symmetry; apply bool_decide_eq_true; cbn; eauto).
  cbn [negb].
  set (s2 := Hooks.log Hooks.Installing
               (Hooks.log (Hooks.Available Hooks.hooks) (Hooks.log Hooks.Title first))).
  destruct (HooksFacts.installAll_settled E Hooks.hooks (Hooks.mkCounts 0 0) s2 Hsettled)
    as (Hfs & Hcount & more & Hconsole & Hnames & Hsum).
  destruct (Hooks.installAll E Hooks.hooks (Hooks.mkCounts 0 0) s2) as [c s3].
  cbn [fst snd Hooks.installedCount] in *.
  destruct (HooksFacts.report_console c s3) as (tail & Htail & Hnames' & Hsum').
  split_and!; [done | by rewrite HooksFacts.report_fs, Hfs |].
  exists ([Hooks.Title; Hooks.Available Hooks.hooks; Hooks.Installing] ++ more ++ tail)%list.
  split_and!.
  - rewrite Htail, Hconsole. unfold s2. cbn [Hooks.console Hooks.log].
    by rewrite <- !app_assoc.
  - by rewrite !HooksFacts.installedNames_app, Hnames, Hnames'.
  - by rewrite !HooksFacts.summaries_app, Hsum, Hsum', Hcount.
Qed.

Lemma second_install_changes_nothing_witness :
  let E := Hooks.mkEnv true ".git/hooks" "/pkg/hooks" (fun _ => false) in
  let s := Hooks.mkState {[ "/pkg/hooks/pre-push" := Hooks.File "#!/bin/sh new" true;
                            "/pkg/hooks/post-commit" := Hooks.File "#!/bin/sh post" false ]}
                        [] in
  let first := (Hooks.installGitHooks E s).2 in
  let second := Hooks.installGitHooks E first in
  second.1 = Hooks.Returned
  /\ Hooks.fs second.2 = Hooks.fs first
  /\ exists more,
       Hooks.console second.2 = (Hooks.console first ++ more)%list
       /\ Hooks.installedNames more = []
       /\ Hooks.summaries more = [0%nat].
Proof.
  apply (second_install_changes_nothing
           (Hooks.mkEnv true ".git/hooks" "/pkg/hooks" (fun _ => false))).
  - intros op. reflexivity.
  - vm_compute. reflexivity.
Defined.

(** ** The Ollama provider *)

Module OllamaFacts.
Import Ollama.

Lemma strip_added_slash (url : string) : stripTrailingSlash (url ++ "/") = url.
Proof.
  induction url as [|c url IH]; [reflexivity|].
  cbn [String.append stripTrailingSlash]. rewrite IH.
  by destruct url.
Qed.

Lemma strip_without_slash (url : string) :
  JS.endsWithUnit "/" url = false -> stripTrailingSlash url = url.
Proof.
  unfold JS.endsWithUnit. induction url as [|c url IH]; [reflexivity|].
  cbn [JS.lastUnit stripTrailingSlash]. destruct url as [|d url].
  - change (JS.code "/") with 47%N. by intros ->.
  - intros Hlast. by rewrite IH.
Qed.

Lemma beforeColon_tagged (base tag : string) :
  noColon base = true -> beforeColon (base ++ ":" ++ tag) = base.
Proof.
  induction base as [|c base IH]; [reflexivity|].
  cbn [noColon]. intros [Hc Hbase]%andb_true_iff. apply negb_true_iff in Hc.
  change (String c base ++ ":" ++ tag) with (String c (base ++ ":" ++ tag)).
  cbn [beforeColon]. by rewrite Hc, IH.
Qed.

Lemma modelNames_named (names : list string) :
  modelNames (map Some names) = Some (map beforeColon names).
Proof. induction names as [|n names IH]; [reflexivity|]. cbn. by rewrite IH. Qed.

Lemma includes_In (names : list string) (name : string) :
  includes names name = true <-> In name names.
Proof.
  unfold includes. rewrite existsb_exists. split.
  - by intros (x & Hin & ->%String.eqb_eq).
  - intros Hin. exists name. by rewrite String.eqb_refl.
Qed.

Lemma checkConnection_sent (E : fetchEnv) (this : OllamaProvider) (sent : log) :
  (checkConnection E this sent).2 = (sent ++ [GetTags (baseUrl this ++ "/api/tags")])%list.
Proof.
  unfold checkConnection, fetch.
  repeat match goal with
         | |- context [match ?x with _ => _ end] => destruct x
         end; reflexivity.
Qed.

End OllamaFacts.

(** X26. The provider drops one slash at the end of the base URL and
    nothing else: with or without a trailing slash the requests go to
    the same addresses. *)
Theorem base_url_loses_one_trailing_slash (model : option string) (url : string) :
  Ollama.baseUrl (Ollama.constructor model (Some (url ++ "/"))) = url
  /\ (JS.endsWithUnit "/" url = false ->
      Ollama.baseUrl (Ollama.constructor model (Some url)) = url
      /\ Ollama.constructor model (Some (url ++ "/"))
         = Ollama.constructor model (Some url)).
Proof.
  assert (Hadded : Ollama.constructor model (Some (url ++ "/"))
                    = Ollama.mkOllamaProvider (default "llama3.2" model) url).
  { unfold Ollama.constructor. f_equal. apply OllamaFacts.strip_added_slash. }
  rewrite Hadded. split; [reflexivity|]. intros Hend.
  unfold Ollama.constructor. cbn [default].
  by rewrite OllamaFacts.strip_without_slash.
Qed.

(** X27. [checkConnection] compares model names up to the first colon:
    when the server lists its models, the check passes exactly if one of
    them has the requested name before the colon, whatever the tags of
    either; otherwise the error lists the names without their tags. *)
Theorem installed_model_is_matched_without_its_tag (E : Ollama.fetchEnv)
    (this : Ollama.OllamaProvider) (names : list string) (sent : Ollama.log) :
  E (List.length sent) (Ollama.GetTags (Ollama.baseUrl this ++ "/api/tags"))
  = Ollama.tagsAnswer names ->
  let outcome := (Ollama.checkConnection E this sent).1 in
  (outcome = inr tt
   <-> In (Ollama.beforeColon (Ollama.model this)) (map Ollama.beforeColon names))
  /\ (outcome = inr tt
      \/ outcome = inl (Ollama.ModelNotFound (Ollama.model this)
                          (map Ollama.beforeColon names)))
  /\ (forall base tag, Ollama.noColon base = true ->
        Ollama.beforeColon (base ++ ":" ++ tag) = base).
Proof.
  intros Htags outcome. subst outcome.
  unfold Ollama.checkConnection, Ollama.fetch. rewrite Htags.
  unfold Ollama.tagsAnswer.
  cbn [Ollama.ok Ollama.body Ollama.j_models negb default]. unfold id.
  rewrite OllamaFacts.modelNames_named.
  destruct (Ollama.includes _ _) eqn:Hin; cbn [negb fst].
  - apply OllamaFacts.includes_In in Hin.
    split_and!; [done | by left | apply OllamaFacts.beforeColon_tagged].
  - split_and!; [|by right | apply OllamaFacts.beforeColon_tagged].
    split; [discriminate|]. intros Hyes%OllamaFacts.includes_In. congruence.
Qed.

Lemma installed_model_is_matched_without_its_tag_witness :
  let this := Ollama.constructor (Some "llama3.2:70b") None in
  let E : Ollama.fetchEnv := fun _ _ => Ollama.tagsAnswer ["mistral:latest"; "llama3.2:1b"] in
  let outcome := (Ollama.checkConnection E this []).1 in
  (outcome = inr tt
   <-> In (Ollama.beforeColon (Ollama.model this))
          (map Ollama.beforeColon ["mistral:latest"; "llama3.2:1b"]))
  /\ (outcome = inr tt
      \/ outcome = inl (Ollama.ModelNotFound (Ollama.model this)
                          (map Ollama.beforeColon ["mistral:latest"; "llama3.2:1b"])))
  /\ (forall base tag, Ollama.noColon base = true ->
        Ollama.beforeColon (base ++ ":" ++ tag) = base).
Proof.
  apply (installed_model_is_matched_without_its_tag
           (fun _ _ => Ollama.tagsAnswer ["mistral:latest"; "llama3.2:1b"])
           (Ollama.constructor (Some "llama3.2:70b") None)
           ["mistral:latest"; "llama3.2:1b"] []).
  reflexivity.
Defined.

(** X28. [generateCommitMessage] of the provider sends the chat request
    only after the model check has passed, so it sends one request or
    two.  It has no fallback: it returns a message exactly when the
    check passed and the server answered the chat request with success
    and a content that is not empty once trimmed, and the message is
    that content, trimmed.  In every other case it throws: the error of
    the check, the status and text of a failed answer, the error of a
    body that is not JSON, [No commit message generated] for a missing
    or blank content, [Cannot connect to Ollama] for a refused
    connection at either request, and any other rejection as it is. *)
Theorem chat_request_follows_the_model_check (E : Ollama.fetchEnv)
    (this : Ollama.OllamaProvider) (prompt systemPrompt : string) (sent : Ollama.log) :
  let tags := Ollama.GetTags (Ollama.baseUrl this ++ "/api/tags") in
  let chat := Ollama.PostChat (Ollama.baseUrl this ++ "/api/chat") (Ollama.model this)
                              systemPrompt prompt in
  let run := Ollama.generateCommitMessage E this prompt systemPrompt sent in
  let passed := (Ollama.checkConnection E this sent).1 = inr tt in
  let reply := E (S (List.length sent)) chat in
  (passed -> run.2 = (sent ++ [tags; chat])%list)
  /\ (forall e, (Ollama.checkConnection E this sent).1 = inl e ->
        run = (inl e, (sent ++ [tags])%list))
  /\ (forall message,
        run.1 = inr message
        <-> passed
            /\ exists r data content,
                 reply = Ollama.Responded r
                 /\ Ollama.ok r = true
                 /\ Ollama.body r = Some data
                 /\ Ollama.j_content data = Some content
                 /\ JS.truthy (JS.trim content) = true
                 /\ message = JS.trim content)
  /\ (forall message, run.1 = inr message ->
        JS.truthy message = true /\ JS.trim message = message
        /\ run.2 = (sent ++ [tags; chat])%list)
  /\ (passed ->
      forall r, reply = Ollama.Responded r ->
        (Ollama.ok r = false ->
         run.1 = inl (Ollama.ApiError (Ollama.status r) (Ollama.text r)))
        /\ (Ollama.ok r = true -> Ollama.body r = None -> run.1 = inl Ollama.SyntaxError)
        /\ (Ollama.ok r = true ->
            forall data, Ollama.body r = Some data ->
              truthyStr (option_map JS.trim (Ollama.j_content data)) = false ->
              run.1 = inl Ollama.NoMessage))
  /\ (passed ->
      forall why, reply = Ollama.Rejected why -> run.1 = inl (Ollama.rethrown this why))
  /\ (E (List.length sent) tags = Ollama.Rejected Ollama.ConnectionRefused ->
      run = (inl (Ollama.CannotConnect (Ollama.baseUrl this)), (sent ++ [tags])%list))
  /\ (passed ->
      reply = Ollama.Rejected Ollama.ConnectionRefused ->
      run.1 = inl (Ollama.CannotConnect (Ollama.baseUrl this))).
Proof.
  intros tags chat run passed reply.
  pose proof (OllamaFacts.checkConnection_sent E this sent) as Hsent.
  assert (Hfailed : forall e, (Ollama.checkConnection E this sent).1 = inl e ->
                      run = (inl e, (sent ++ [tags])%list)).
  { intros e He. subst run. unfold Ollama.generateCommitMessage.
    destruct (Ollama.checkConnection E this sent) as [[e' | []] sent1];
      cbn [fst snd] in He, Hsent; [|discriminate]. by injection He as ->; subst. }
  assert (Hpassed : passed ->
            run = (match reply with
                   | Ollama.Responded r =>
                       if negb (Ollama.ok r)
                       then inl (Ollama.ApiError (Ollama.status r) (Ollama.text r))
                       else match Ollama.body r with
                            | None => inl Ollama.SyntaxError
                            | Some data =>
                                let message := option_map JS.trim (Ollama.j_content data) in
                                if negb (truthyStr message) then inl Ollama.NoMessage
                                else inr (default EmptyString message)
                            end
                   | Ollama.Rejected why => inl (Ollama.rethrown this why)
                   end, (sent ++ [tags; chat])%list)).
  { intros Hok. subst run passed reply. unfold Ollama.generateCommitMessage.
    destruct (Ollama.checkConnection E this sent) as [[e | []] sent1];
      cbn [fst snd] in Hok, Hsent; [discriminate|]. subst sent1.
    unfold Ollama.fetch. rewrite length_app, Nat.add_1_r. fold tags chat.
    rewrite <- app_assoc. cbn [app].
    destruct (E (S (List.length sent)) chat) as [why | r]; [reflexivity|].
    destruct (negb (Ollama.ok r)); [reflexivity|].
    destruct (Ollama.body r) as [data|]; [|reflexivity].
    cbv zeta. by destruct (negb (truthyStr _)). }
  assert (Hiff : forall message,
             run.1 = inr message
             <-> passed
                 /\ exists r data content,
                      reply = Ollama.Responded r
                      /\ Ollama.ok r = true
                      /\ Ollama.body r = Some data
                      /\ Ollama.j_content data = Some content
                      /\ JS.truthy (JS.trim content) = true
                      /\ message = JS.trim content).
  { intros message. split.
    - intros Hm.
      assert (Hcases : (exists e, (Ollama.checkConnection E this sent).1 = inl e)
                       \/ passed).
      { subst passed.
        destruct (Ollama.checkConnection E this sent).1 as [e | []]; [left; eauto | by right]. }
      destruct Hcases as [[e He] | Hp].
      { rewrite (Hfailed e He) in Hm. discriminate. }
      split; [exact Hp|]. rewrite (Hpassed Hp) in Hm. cbn [fst] in Hm.
      destruct reply as [why | r]; [discriminate|].
      destruct (Ollama.ok r) eqn:Hokr; cbn [negb] in Hm; [|discriminate].
      destruct (Ollama.body r) as [data|] eqn:Hbody; [|discriminate].
      cbv zeta in Hm.
      destruct (Ollama.j_content data) as [content|] eqn:Hcontent;
        cbn [option_map truthyStr negb] in Hm; [|discriminate].
      destruct (JS.truthy (JS.trim content)) eqn:Htruthy; cbn [negb] in Hm;
        [|discriminate].
      injection Hm as <-. by exists r, data, content.
    - intros (Hp & r & data & content & Hreply & Hokr & Hbody & Hcontent & Htruthy & ->).
      rewrite (Hpassed Hp), Hreply, Hokr, Hbody. cbv zeta.
      rewrite Hcontent. cbn [option_map truthyStr negb fst]. by rewrite Htruthy. }
  split_and!.
  - intros Hp. by rewrite (Hpassed Hp).
  - exact Hfailed.
  - exact Hiff.
  - intros message Hm.
    destruct (proj1 (Hiff message) Hm) as (Hp & r & data & content & _ & _ & _ & _ & Ht & ->).
    split; [done|]. split; [apply trim_idempotent|]. by rewrite (Hpassed Hp).
  - intros Hp r Hreply. rewrite (Hpassed Hp), Hreply. cbn [fst]. split_and!.
    + by intros ->.
    + by intros -> ->.
    + intros -> data -> Hblank. cbv zeta. by rewrite Hblank.
  - intros Hp why Hreply. by rewrite (Hpassed Hp), Hreply.
  - intros Hrefused. apply Hfailed.
    unfold Ollama.checkConnection, Ollama.fetch. fold tags. by rewrite Hrefused.
  - intros Hp Hreply. by rewrite (Hpassed Hp), Hreply.
Qed.

(** A server that lists the model and answers the chat request: the
    message is the trimmed content; with a failed answer the call
    throws and nothing is returned in its place. *)
Lemma chat_request_follows_the_model_check_witness :
  let this := Ollama.constructor None None in
  let answers (chatReply : Ollama.answer) : Ollama.fetchEnv := fun n _ =>
    match n with
    | O => Ollama.tagsAnswer ["llama3.2:latest"]
    | _ => chatReply
    end in
  let good :=
    Ollama.Responded (Ollama.mkResponse true 200 EmptyString
      (Some (Ollama.mkJson None (Some " feat: add login ")))) in
  let bad := Ollama.Responded (Ollama.mkResponse false 500 "overloaded" None) in
  (Ollama.generateCommitMessage (answers good) this "prompt" "system" []).1
  = inr "feat: add login"
  /\ (Ollama.generateCommitMessage (answers bad) this "prompt" "system" []).1
     = inl (Ollama.ApiError 500 "overloaded").
Proof.
  intros this answers good bad. split.
  - apply (chat_request_follows_the_model_check (answers good) this "prompt" "system" []).
    split; [reflexivity|]. eexists _, _, _. split_and!; reflexivity.
  - destruct (chat_request_follows_the_model_check (answers bad) this "prompt" "system" [])
      as (_ & _ & _ & _ & Herr & _).
    apply (Herr eq_refl (Ollama.mkResponse false 500 "overloaded" None) eq_refl).
    reflexivity.
Defined.
